(** * LongFast propagation animation: the simulation core

    A shallow embedding of the algorithmic parts of
    [scripts/longfast_animation_lib.py] and
    [scripts/render_longfast_animation.py]: the airtime model, the BFS
    wave builder, the tier classifier, the schedule builder and the
    frame-stepped propagation simulator (dry pass and render pass).

    Conventions of the embedding.
    - Python [float] values (path loss, times, population) are exact
      rationals [Q]; every comparison the code performs on them is the
      comparison of their values.  Python [int] is [Z], positions in a
      list are [nat].
    - A Python [dict] is an insertion-ordered association list: a new key
      is appended, an existing key is updated in place.  A [set] of
      strings is a duplicate-free list; the order in which the
      interpreter iterates over a set is not fixed by the language, so
      the simulator takes it as an explicit parameter.
    - [random.Random] is a stream of draws in the unit interval together
      with a read position. *)

From Stdlib Require Import List String Ascii Bool Arith ZArith QArith Qround.
From Stdlib Require Import Lia Permutation Sorted OrderedTypeEx.
From Stdlib Require Import Qpower Lqa.
Import ListNotations.

Local Open Scope string_scope.
Local Open Scope list_scope.
Local Open Scope nat_scope.

(** ** Python primitives *)

Module Py.

(** [x < y] on floats. *)
Definition Qltb (x y : Q) : bool := negb (Qle_bool y x).

(** The two-argument [max(a, b)]: the first argument unless the second
    is strictly greater. *)
Definition max2 (a b : Q) : Q := if Qltb a b then b else a.

Definition Zmax2 (a b : Z) : Z := if (a <? b)%Z then b else a.
Definition Zmin2 (a b : Z) : Z := if (b <? a)%Z then b else a.

(** [sum(xs)]: starts from the integer 0 and adds left to right. *)
Definition sum (xs : list Q) : Q := fold_left Qplus xs (0%Q).

Section Dict.
Context {V : Type}.

Definition dict := list (string * V).

Fixpoint get (d : dict) (k : string) : option V :=
  match d with
  | [] => None
  | (k', v) :: rest => if String.eqb k' k then Some v else get rest k
  end.

Definition get_default (d : dict) (k : string) (default : V) : V :=
  match get d k with Some v => v | None => default end.

Definition contains (d : dict) (k : string) : bool :=
  match get d k with Some _ => true | None => false end.

(** [d[k] = v] *)
Fixpoint set (d : dict) (k : string) (v : V) : dict :=
  match d with
  | [] => [(k, v)]
  | (k', v') :: rest =>
      if String.eqb k' k then (k', v) :: rest else (k', v') :: set rest k v
  end.

Definition keys (d : dict) : list string := map fst d.
End Dict.
Arguments dict : clear implicits.

(** Sets of strings. *)
Definition mem (x : string) (s : list string) : bool :=
  existsb (String.eqb x) s.

Definition add (s : list string) (x : string) : list string :=
  if mem x s then s else s ++ [x].

(** [random.Random]: the draws of [random()] and the read position. *)
Record Random := { draws : nat -> Q; pos : nat }.

(** [rng.uniform(a, b)] is [a + (b - a) * rng.random()]. *)
Definition uniform (rng : Random) (a b : Q) : Q * Random :=
  ((a + (b - a) * draws rng (pos rng))%Q,
   {| draws := draws rng; pos := S (pos rng) |}).

End Py.

(** ** Configuration records ([longfast_animation_lib.py]) *)

Record RadioConfig := {
  spreading_factor : Z;
  bandwidth_khz : Z;
  coding_rate : Z;
  payload_bytes : Z;
  preamble_symbols : Z;
  crc_enabled : Z;
  implicit_header : Z
}.

Record AnimationConfig := {
  fps : Z;
  hop_limit : Z;
  wave_min_s : Q;
  wave_max_s : Q;
  jitter_s : Q;
  tier_thresholds_db : list Q
}.

(** ** Tier classifier *)

(** [assign_tier]: the loop over [enumerate(thresholds)], [index] being
    the position reached so far. *)
Fixpoint assign_tier_from (index : nat) (path_loss_db : Q) (thresholds : list Q)
  : nat :=
  match thresholds with
  | [] => index
  | threshold :: rest =>
      if Qle_bool path_loss_db threshold then index
      else assign_tier_from (S index) path_loss_db rest
  end.

Definition assign_tier (path_loss_db : Q) (thresholds : list Q) : nat :=
  assign_tier_from 0 path_loss_db thresholds.

(** [build_fine_thresholds]: the loop over [range(len(thresholds) - 1)]
    followed by the append of [thresholds[-1]]; [interleave] is the loop
    together with that last append, on a list of at least one value. *)
Fixpoint interleave (thresholds : list Q) : list Q :=
  match thresholds with
  | [] => []
  | [last] => [last]
  | t0 :: ((t1 :: _) as rest) => t0 :: ((t0 + t1) / 2)%Q :: interleave rest
  end.

Definition build_fine_thresholds (thresholds : list Q) : list Q :=
  if List.length thresholds <? 2 then thresholds else interleave thresholds.

(** ** Airtime model *)

(** The intermediate values of [estimate_airtime_seconds], under the
    names the function gives them. *)
Definition bandwidth_hz (radio : RadioConfig) : Z :=
  (bandwidth_khz radio * 1000)%Z.

Definition symbol_duration (radio : RadioConfig) : Q :=
  (Qpower 2 (spreading_factor radio) / inject_Z (bandwidth_hz radio))%Q.

Definition low_data_rate_opt (radio : RadioConfig) : Z :=
  if Py.Qltb (16 # 1000) (symbol_duration radio) then 1%Z else 0%Z.

Definition cr_value (radio : RadioConfig) : Z :=
  (Z.max (Z.min (coding_rate radio) 8) 5 - 4)%Z.

Definition numerator (radio : RadioConfig) : Z :=
  (8 * payload_bytes radio - 4 * spreading_factor radio + 28
   + 16 * crc_enabled radio - 20 * implicit_header radio)%Z.

Definition denominator (radio : RadioConfig) : Z :=
  (4 * (spreading_factor radio - 2 * low_data_rate_opt radio))%Z.

Definition payload_term (radio : RadioConfig) : Z :=
  Z.max
    (Qceiling (inject_Z (numerator radio) / inject_Z (denominator radio))
     * (cr_value radio + 4))
    0.

Definition payload_symbols (radio : RadioConfig) : Z :=
  (8 + payload_term radio)%Z.

(** [None] stands for the [ZeroDivisionError] of the two divisions. *)
Definition estimate_airtime_seconds (radio : RadioConfig) : option Q :=
  if (bandwidth_hz radio =? 0)%Z then None
  else if (denominator radio =? 0)%Z then None
  else
    let preamble := (inject_Z (preamble_symbols radio) + (17 # 4))%Q in
    Some ((preamble + inject_Z (payload_symbols radio))
          * symbol_duration radio)%Q.

(** The closed formula, with the factor of the payload term left open.
    The specification's sentence takes [coding_rate - 4] for it. *)
Definition airtime_formula (factor : Z) (radio : RadioConfig) : Q :=
  let sf := spreading_factor radio in
  let t_sym := (Qpower 2 sf / inject_Z (bandwidth_khz radio * 1000))%Q in
  let low_dr_opt := if Py.Qltb (16 # 1000) t_sym then 1%Z else 0%Z in
  let ratio :=
    (inject_Z (8 * payload_bytes radio - 4 * sf + 28
               + 16 * crc_enabled radio - 20 * implicit_header radio)
     / inject_Z (4 * (sf - 2 * low_dr_opt)))%Q in
  ((inject_Z (preamble_symbols radio) + (17 # 4) + 8
    + inject_Z (Z.max (Qceiling ratio * factor) 0)) * t_sym)%Q.

Definition radio_in_range (radio : RadioConfig) : Prop :=
  (7 <= spreading_factor radio <= 12)%Z /\
  (0 < bandwidth_khz radio)%Z /\
  (5 <= coding_rate radio <= 8)%Z /\
  (0 <= payload_bytes radio)%Z.

(** The LongFast preset as [main] builds it from the default arguments. *)
Definition longfast_radio : RadioConfig :=
  {| spreading_factor := 11; bandwidth_khz := 250; coding_rate := 5;
     payload_bytes := 160; preamble_symbols := 8; crc_enabled := 1;
     implicit_header := 0 |}.

(** ** Transmitter selection *)

(** [key(a) > key(b)] for the keys [(received_quality.get(t, 0.0), t)]:
    tuples are ordered by their first differing component. *)
Definition key_compare (received_quality : Py.dict Q) (a b : string)
  : comparison :=
  match Qcompare (Py.get_default received_quality a 0%Q)
                 (Py.get_default received_quality b 0%Q) with
  | Eq => String.compare a b
  | c => c
  end.

Definition key_gt (received_quality : Py.dict Q) (a b : string) : bool :=
  match key_compare received_quality a b with Gt => true | _ => false end.

(** [max(iterable, key=...)]: the running maximum is replaced only by a
    strictly greater item. *)
Fixpoint max_by (gt : string -> string -> bool) (best : string)
  (items : list string) : string :=
  match items with
  | [] => best
  | item :: rest => max_by gt (if gt item best then item else best) rest
  end.

Definition select_next_transmitter (eligible : list string)
  (received_quality : Py.dict Q) : option string :=
  match eligible with
  | [] => None
  | first :: rest => Some (max_by (key_gt received_quality) first rest)
  end.

Definition quality (received_quality : Py.dict Q) (t : string) : Q :=
  Py.get_default received_quality t 0%Q.

(** The selection rule as the specification words it: highest quality,
    ties going to the smallest key. *)
Definition picks_smallest_key_on_ties (eligible : list string)
  (received_quality : Py.dict Q) (chosen : string) : Prop :=
  In chosen eligible /\
  (forall t, In t eligible ->
     (quality received_quality t <= quality received_quality chosen)%Q) /\
  (forall t, In t eligible ->
     (quality received_quality t == quality received_quality chosen)%Q ->
     String.leb chosen t = true).

(** ** Schedule builder *)

Definition schedule_entry := (string * Q * Q * Z)%type.

(** The inner loop of [build_schedule] over the towers of one wave. *)
Fixpoint schedule_wave (airtime_s : Q) (config : AnimationConfig)
  (hop_index : Z) (wave_start : Q) (wave : list string)
  (schedule : list schedule_entry) (current_time wave_time : Q)
  (rng : Py.Random) : list schedule_entry * Q * Q * Py.Random :=
  match wave with
  | [] => (schedule, current_time, wave_time, rng)
  | tower_h3 :: rest =>
      let (jitter, rng) := Py.uniform rng 0 (jitter_s config) in
      let duration := (airtime_s + jitter)%Q in
      let start_time := current_time in
      let end_time := (start_time + duration)%Q in
      schedule_wave airtime_s config hop_index wave_start rest
        (schedule ++ [(tower_h3, start_time, end_time, hop_index)])
        end_time (end_time - wave_start)%Q rng
  end.

(** The outer loop over [enumerate(waves, start=1)]. *)
Fixpoint schedule_waves (airtime_s : Q) (config : AnimationConfig)
  (hop_index : Z) (waves : list (list string))
  (schedule : list schedule_entry) (current_time : Q) (rng : Py.Random)
  : list schedule_entry * Py.Random :=
  match waves with
  | [] => (schedule, rng)
  | wave :: rest =>
      let wave_start := current_time in
      let '(schedule, current_time, wave_time, rng) :=
        schedule_wave airtime_s config hop_index wave_start wave
          schedule current_time 0 rng in
      let (current_time, rng) :=
        if Py.Qltb wave_time (wave_min_s config) then
          ((current_time + (wave_min_s config - wave_time))%Q, rng)
        else if Py.Qltb wave_time (wave_max_s config) then
          let (gap, rng) :=
            Py.uniform rng 0 (wave_max_s config - wave_time) in
          ((current_time + gap)%Q, rng)
        else (current_time, rng) in
      schedule_waves airtime_s config (hop_index + 1) rest
        schedule current_time rng
  end.

(** [build_schedule] draws from the module-level generator, passed here
    as [rng]; its state after the call is returned with the schedule. *)
Definition build_schedule (waves : list (list string)) (airtime_s : Q)
  (config : AnimationConfig) (rng : Py.Random)
  : list schedule_entry * Py.Random :=
  schedule_waves airtime_s config 1 waves [] 0 rng.

(** The towers of [waves], each with the position of its wave plus one. *)
Fixpoint labelled_from (i : nat) (waves : list (list string))
  : list (string * Z) :=
  match waves with
  | [] => []
  | wave :: rest =>
      map (fun t => (t, Z.of_nat i + 1)%Z) wave ++ labelled_from (S i) rest
  end.

Definition tower_and_hop (e : schedule_entry) : string * Z :=
  let '(tower_h3, _, _, hop_index) := e in (tower_h3, hop_index).

(** ** Wave builder *)

(** The loop over the neighbours of one tower of the current wave. *)
Fixpoint visit_neighbors (neighbors : list string)
  (visited next_wave : list string) : list string * list string :=
  match neighbors with
  | [] => (visited, next_wave)
  | neighbor :: rest =>
      if Py.mem neighbor visited then visit_neighbors rest visited next_wave
      else visit_neighbors rest (Py.add visited neighbor)
             (next_wave ++ [neighbor])
  end.

(** The loop over the towers of the current wave. *)
Fixpoint expand_wave (adjacency : Py.dict (list string))
  (current_wave visited next_wave : list string)
  : list string * list string :=
  match current_wave with
  | [] => (visited, next_wave)
  | tower_h3 :: rest =>
      let (visited, next_wave) :=
        visit_neighbors (Py.get_default adjacency tower_h3 [])
          visited next_wave in
      expand_wave adjacency rest visited next_wave
  end.

(** The loop over [range(hop_limit + 1)], [iterations] rounds left. *)
Fixpoint waves_loop (iterations : nat) (adjacency : Py.dict (list string))
  (waves : list (list string)) (visited current_wave : list string)
  : list (list string) :=
  match iterations with
  | O => waves
  | S remaining =>
      let waves := waves ++ [current_wave] in
      let (visited, next_wave) :=
        expand_wave adjacency current_wave visited [] in
      match next_wave with
      | [] => waves
      | _ :: _ => waves_loop remaining adjacency waves visited next_wave
      end
  end.

Definition build_waves (seed_h3 : string) (adjacency : Py.dict (list string))
  (hop_limit : Z) : list (list string) :=
  waves_loop (Z.to_nat (hop_limit + 1)) adjacency [] [seed_h3] [seed_h3].

(** The hop map of [main]: every tower of wave [hop_index] is assigned
    [hop_index], waves taken in order. *)
Fixpoint assign_hops (hop_index : Z) (waves : list (list string))
  (tower_hops : Py.dict Z) : Py.dict Z :=
  match waves with
  | [] => tower_hops
  | wave :: rest =>
      assign_hops (hop_index + 1) rest
        (fold_left (fun hops tower_h3 => Py.set hops tower_h3 hop_index)
           wave tower_hops)
  end.

Definition build_tower_hops (waves : list (list string)) : Py.dict Z :=
  assign_hops 0 waves [].

(** The adjacency of [main]: the neighbour keys of the visibility map. *)
Definition adjacency_of (tower_visibility : Py.dict (list (string * Q)))
  : Py.dict (list string) :=
  map (fun '(tower_h3, neighbors) => (tower_h3, map fst neighbors))
    tower_visibility.

(** Walks in the adjacency graph and BFS distance. *)
Inductive walk (adjacency : Py.dict (list string)) (seed_h3 : string)
  : nat -> string -> Prop :=
| walk_seed : walk adjacency seed_h3 0 seed_h3
| walk_step : forall n u v,
    walk adjacency seed_h3 n u ->
    In v (Py.get_default adjacency u []) ->
    walk adjacency seed_h3 (S n) v.

Definition bfs_distance (adjacency : Py.dict (list string))
  (seed_h3 : string) (t : string) (d : nat) : Prop :=
  walk adjacency seed_h3 d t /\
  forall n, n < d -> ~ walk adjacency seed_h3 n t.

(** What the loop of [build_waves] holds when round [i] starts: the
    current wave is the set of towers at distance [i], the visited set
    the towers at distance at most [i]. *)
Definition wave_level (adjacency : Py.dict (list string)) (seed_h3 : string)
  (i : nat) (visited current_wave : list string) : Prop :=
  (forall x, In x current_wave <-> bfs_distance adjacency seed_h3 x i) /\
  (forall x, In x visited <->
     exists n, n <= i /\ walk adjacency seed_h3 n x) /\
  NoDup current_wave.

(** The adjacency of the specification's scenario. *)
Definition diamond_adjacency : Py.dict (list string) :=
  [("A", ["B"; "C"]); ("B", ["A"; "D"]); ("C", ["A"]); ("D", ["B"])].

(** ** Propagation simulator: the dry pass ([simulate_propagation]) *)

(** An entry of [active_transmissions]; [tx_end] is the key ["end"]. *)
Record Transmission := {
  tx_tower_h3 : string;
  tx_end : Q;
  tx_cell_losses : list (string * Q);
  tx_audible_pairs : list (string * Q);
  tx_audible_towers : list string
}.

(** The local state of the loop. The last two fields are ghost state:
    [started] logs every transmission appended to [active_transmissions]
    (tower, frame, duration) and [completed] every call of
    [transmitted_towers.add]. *)
Record SimState := {
  received_cells : Py.dict Q;
  received_towers : list string;
  received_quality : Py.dict Q;
  transmitted_towers : list string;
  active_transmissions : list Transmission;
  max_population : Q;
  frame : Z;
  rng : Py.Random;
  started : list (string * Z * Q);
  completed : list string
}.

Inductive outcome :=
| Returned (frames : Z) (max_population : Q)
| ZeroDivisionError
| OutOfFuel.

(** One pair of [transmission["cell_losses"]]: keep the lowest path loss
    seen for the cell. *)
Definition commit_cell (received_cells : Py.dict Q) (entry : string * Q)
  : Py.dict Q :=
  let (cell_h3, path_loss_db) := entry in
  match Py.get received_cells cell_h3 with
  | None => Py.set received_cells cell_h3 path_loss_db
  | Some best =>
      if Py.Qltb path_loss_db best
      then Py.set received_cells cell_h3 path_loss_db
      else received_cells
  end.

(** One pair of [transmission["audible_pairs"]]. *)
Definition commit_neighbor (heard : list string * Py.dict Q)
  (entry : string * Q) : list string * Py.dict Q :=
  let (received_towers, received_quality) := heard in
  let (neighbor, path_loss_db) := entry in
  if negb (Py.mem neighbor received_towers) then
    (Py.add received_towers neighbor,
     Py.set received_quality neighbor path_loss_db)
  else
    (received_towers,
     Py.set received_quality neighbor
       (Py.max2 (Py.get_default received_quality neighbor path_loss_db)
          path_loss_db)).

(** The body of [for transmission in finished]. *)
Definition finalize (st : SimState) (transmission : Transmission) : SimState :=
  let heard :=
    fold_left commit_neighbor (tx_audible_pairs transmission)
      (received_towers st, received_quality st) in
  {| received_cells :=
       fold_left commit_cell (tx_cell_losses transmission) (received_cells st);
     received_towers := fst heard;
     received_quality := snd heard;
     transmitted_towers :=
       Py.add (transmitted_towers st) (tx_tower_h3 transmission);
     active_transmissions := active_transmissions st;
     max_population := max_population st;
     frame := frame st;
     rng := rng st;
     started := started st;
     completed := completed st ++ [tx_tower_h3 transmission] |}.

(** [sum(population.get(h3, 0.0) for h3 in received_cells)] *)
Definition cumulative_population (population : Py.dict Q)
  (received_cells : Py.dict Q) : Q :=
  Py.sum (map (fun h3 => Py.get_default population h3 0%Q)
            (Py.keys received_cells)).

Section DryPass.
Variable seed_h3 : string.
Variable tower_visibility : Py.dict (list (string * Q)).
Variable visible_cells : Py.dict (list (string * Q)).
Variable population : Py.dict Q.
Variable tower_hops : Py.dict Z.
Variable animation : AnimationConfig.
Variable airtime_s : Q.
Variable max_frames : Z.

(** [iteration_order f s] is the order in which the interpreter visits
    the set [s] in [for tower_h3 in received_towers] at frame [f]. *)
Variable iteration_order : Z -> list string -> list string.

Definition initial_state (rng : Py.Random) : SimState :=
  {| received_cells := [];
     received_towers := [seed_h3];
     received_quality := [(seed_h3, 0%Q)];
     transmitted_towers := [];
     active_transmissions := [];
     max_population := 0%Q;
     frame := 0%Z;
     rng := rng;
     started := [];
     completed := [] |}.

(** The list comprehension that builds [eligible]. *)
Definition eligible_towers (st : SimState)
  (active_towers blocked_towers : list string) : list string :=
  filter
    (fun t =>
       Py.contains tower_hops t
       && negb (Py.mem t (transmitted_towers st))
       && negb (Py.mem t active_towers)
       && negb (Py.mem t blocked_towers))
    (iteration_order (frame st) (received_towers st)).

(** The branch [if next_tower:] with its append; the empty key is falsy
    and starts nothing. *)
Definition start_transmission (st : SimState) (frame_time : Q)
  (next_tower : string) : SimState :=
  if String.eqb next_tower "" then st
  else
    let tower_visible_cells := Py.get_default visible_cells next_tower [] in
    let audible_pairs := Py.get_default tower_visibility next_tower [] in
    let (jitter, rng') := Py.uniform (rng st) 0 (jitter_s animation) in
    let duration := (airtime_s + jitter)%Q in
    {| received_cells := received_cells st;
       received_towers := received_towers st;
       received_quality := received_quality st;
       transmitted_towers := transmitted_towers st;
       active_transmissions :=
         active_transmissions st
         ++ [{| tx_tower_h3 := next_tower;
                tx_end := (frame_time + duration)%Q;
                tx_cell_losses := tower_visible_cells;
                tx_audible_pairs := audible_pairs;
                tx_audible_towers := map fst audible_pairs |}];
       max_population := max_population st;
       frame := frame st;
       rng := rng';
       started := started st ++ [(next_tower, frame st, duration)];
       completed := completed st |}.

(** One iteration of [while True]; the flag tells whether a [break] was
    taken. *)
Definition frame_body (st : SimState) : SimState * bool :=
  let frame_time := (inject_Z (frame st) / inject_Z (fps animation))%Q in
  let finished :=
    filter (fun t => Qle_bool (tx_end t) frame_time)
      (active_transmissions st) in
  let active :=
    filter (fun t => Py.Qltb frame_time (tx_end t))
      (active_transmissions st) in
  let st1 :=
    fold_left finalize finished
      {| received_cells := received_cells st;
         received_towers := received_towers st;
         received_quality := received_quality st;
         transmitted_towers := transmitted_towers st;
         active_transmissions := active;
         max_population := max_population st;
         frame := frame st;
         rng := rng st;
         started := started st;
         completed := completed st |} in
  let blocked_towers := flat_map tx_audible_towers active in
  let active_towers := map tx_tower_h3 active in
  let st2 :=
    if (0 <? frame st)%Z then
      match select_next_transmitter
              (eligible_towers st1 active_towers blocked_towers)
              (received_quality st1) with
      | Some next_tower => start_transmission st1 frame_time next_tower
      | None => st1
      end
    else st1 in
  let cumulative := cumulative_population population (received_cells st2) in
  let frame' := (frame st + 1)%Z in
  let st3 :=
    {| received_cells := received_cells st2;
       received_towers := received_towers st2;
       received_quality := received_quality st2;
       transmitted_towers := transmitted_towers st2;
       active_transmissions := active_transmissions st2;
       max_population := Py.max2 (max_population st2) cumulative;
       frame := frame';
       rng := rng st2;
       started := started st2;
       completed := completed st2 |} in
  let stop :=
    (negb (max_frames =? 0)%Z && (max_frames <=? frame')%Z)
    || ((0 <? frame')%Z
        && match active_transmissions st3 with [] => true | _ => false end
        && forallb
             (fun t =>
                Py.mem t (transmitted_towers st3)
                || negb (Py.contains tower_hops t))
             (received_towers st3)) in
  (st3, stop).

(** The loop, cut after [n] iterations: the state reached and whether
    the loop has been left. *)
Fixpoint run_frames (n : nat) (st : SimState) : SimState * bool :=
  match n with
  | O => (st, false)
  | S k =>
      let (st', stop) := frame_body st in
      if stop then (st', true) else run_frames k st'
  end.

(** [frame / animation.fps] of the first iteration raises when [fps] is
    zero. *)
Definition simulate_propagation (rng : Py.Random) (fuel : nat) : outcome :=
  if (fps animation =? 0)%Z then ZeroDivisionError
  else
    match run_frames fuel (initial_state rng) with
    | (st, true) => Returned (frame st) (max_population st)
    | (_, false) => OutOfFuel
    end.
End DryPass.

Arguments frame_body : simpl never.
Arguments start_transmission : simpl never.
Arguments finalize : simpl never.

(** ** Properties of a run *)

Definition event_tower (e : string * Z * Q) : string := fst (fst e).

(** Every tower that ever started is either on air or completed, each
    exactly once; [transmitted_towers] holds the completed towers. *)
Definition lifecycle (active_towers completed started transmitted : list string)
  : Prop :=
  Permutation (active_towers ++ completed) started /\
  NoDup started /\
  (forall t, In t transmitted <-> In t completed).

Definition dry_lifecycle (st : SimState) : Prop :=
  lifecycle (map tx_tower_h3 (active_transmissions st)) (completed st)
    (map event_tower (started st)) (transmitted_towers st).

(** Every value of the population map is non-negative. *)
Definition nonnegative (population : Py.dict Q) : Prop :=
  forall cell_h3 value,
    Py.get population cell_h3 = Some value -> (0 <= value)%Q.

(** An iteration order visits every element of the set exactly once. *)
Definition visits_each_once (order : Z -> list string -> list string) : Prop :=
  forall f s, Permutation (order f s) s.

(** ** Propagation simulator: the render pass (the frame loop of [main])

    The scheduling part of each iteration, up to the dedup key; the
    drawing of the frame reads this state and does not change it. *)

Module Render.

(** [d.setdefault(k, empty)] followed by [put] on the stored collection,
    for a dictionary keyed by integers. *)
Fixpoint setdefault_put {K : Type} (eqb : K -> K -> bool)
  (put : list string -> string -> list string)
  (d : list (K * list string)) (k : K) (x : string)
  : list (K * list string) :=
  match d with
  | [] => [(k, put [] x)]
  | (k', xs) :: rest =>
      if eqb k' k then (k', put xs x) :: rest
      else (k', xs) :: setdefault_put eqb put rest k x
  end.

Definition append (xs : list string) (x : string) : list string := xs ++ [x].

Definition link := (string * string)%type.

Definition link_eqb (a b : link) : bool :=
  String.eqb (fst a) (fst b) && String.eqb (snd a) (snd b).

(** [a <= b] on pairs of strings. *)
Definition link_leb (a b : link) : bool :=
  match String.compare (fst a) (fst b) with
  | Lt => true
  | Gt => false
  | Eq => String.leb (snd a) (snd b)
  end.

Fixpoint insert_sorted {A : Type} (leb : A -> A -> bool) (x : A)
  (l : list A) : list A :=
  match l with
  | [] => [x]
  | y :: rest =>
      if leb x y then x :: l else y :: insert_sorted leb x rest
  end.

(** [sorted(xs)] *)
Definition sorted {A : Type} (leb : A -> A -> bool) (xs : list A) : list A :=
  fold_left (fun acc x => insert_sorted leb x acc) xs [].

Record Transmission := {
  tx_tower_h3 : string;
  tx_start : Q;
  tx_end : Q;
  tx_hop : Z;
  tx_tiered : list (nat * list string);
  tx_cell_tiers : list (string * nat * Z * Q);
  tx_audible_pairs : list (string * Q);
  tx_audible_towers : list string
}.

Definition state_key := (list string * Z * list link * Z)%type.

Definition state_key_eqb (a b : state_key) : bool :=
  let '(towers_a, received_a, links_a, seen_a) := a in
  let '(towers_b, received_b, links_b, seen_b) := b in
  (if list_eq_dec string_dec towers_a towers_b then true else false)
  && (received_a =? received_b)%Z
  && (Nat.eqb (List.length links_a) (List.length links_b)
      && forallb (fun p => link_eqb (fst p) (snd p)) (combine links_a links_b))
  && (seen_a =? seen_b)%Z.

(** The state of the frame loop; [started] and [completed] are ghost
    logs as in the dry pass. *)
Record State := {
  received_cells : Py.dict Q;
  hop_reached : list (Z * list string);
  received_towers : list string;
  received_quality : Py.dict Q;
  transmitted_towers : list string;
  received_version : Z;
  seen_links : list link;
  seen_links_version : Z;
  active_transmissions : list Transmission;
  render_rng : Py.Random;
  last_state_key : option state_key;
  needs_render : bool;
  started : list (string * Z * Q);
  completed : list string
}.

(** One tuple of [transmission["cell_tiers"]]. *)
Definition commit_cell (acc : Py.dict Q * list (Z * list string))
  (entry : string * nat * Z * Q) : Py.dict Q * list (Z * list string) :=
  let (received_cells, hop_reached) := acc in
  let '(cell_h3, _, hop_index, path_loss_db) := entry in
  match Py.get received_cells cell_h3 with
  | None =>
      (Py.set received_cells cell_h3 path_loss_db,
       setdefault_put Z.eqb Py.add hop_reached hop_index cell_h3)
  | Some best =>
      if Py.Qltb path_loss_db best
      then (Py.set received_cells cell_h3 path_loss_db, hop_reached)
      else acc
  end.

(** One pair of [transmission["audible_pairs"]]; [transmitted_towers]
    already holds the finishing tower. *)
Definition commit_neighbor (tower_h3 : string) (transmitted_towers : list string)
  (acc : list string * Py.dict Q * list link * Z) (entry : string * Q)
  : list string * Py.dict Q * list link * Z :=
  let '(received_towers, received_quality, seen_links, seen_links_version) :=
    acc in
  let (neighbor, path_loss_db) := entry in
  let (received_towers, received_quality) :=
    if negb (Py.mem neighbor received_towers) then
      (Py.add received_towers neighbor,
       Py.set received_quality neighbor path_loss_db)
    else
      (received_towers,
       Py.set received_quality neighbor
         (Py.max2 (Py.get_default received_quality neighbor path_loss_db)
            path_loss_db)) in
  if negb (Py.mem neighbor transmitted_towers) then
    if existsb (link_eqb (tower_h3, neighbor)) seen_links
    then (received_towers, received_quality, seen_links, seen_links_version)
    else (received_towers, received_quality,
          seen_links ++ [(tower_h3, neighbor)], (seen_links_version + 1)%Z)
  else (received_towers, received_quality, seen_links, seen_links_version).

(** The body of [for transmission in finished_transmissions]. *)
Definition finalize (st : State) (transmission : Transmission) : State :=
  let cells :=
    fold_left commit_cell (tx_cell_tiers transmission)
      (received_cells st, hop_reached st) in
  let transmitted :=
    Py.add (transmitted_towers st) (tx_tower_h3 transmission) in
  let '(towers, quality, links, links_version) :=
    fold_left (commit_neighbor (tx_tower_h3 transmission) transmitted)
      (tx_audible_pairs transmission)
      (received_towers st, received_quality st, seen_links st,
       seen_links_version st) in
  {| received_cells := fst cells;
     hop_reached := snd cells;
     received_towers := towers;
     received_quality := quality;
     transmitted_towers := transmitted;
     received_version := (received_version st + 1)%Z;
     seen_links := links;
     seen_links_version := links_version;
     active_transmissions := active_transmissions st;
     render_rng := render_rng st;
     last_state_key := last_state_key st;
     needs_render := needs_render st;
     started := started st;
     completed := completed st ++ [tx_tower_h3 transmission] |}.

Section Frame.
Variable seed_h3 : string.
Variable tower_visibility : Py.dict (list (string * Q)).
Variable visible_cells : Py.dict (list (string * Q)).
Variable tower_hops : Py.dict Z.
Variable animation : AnimationConfig.
Variable airtime_s : Q.
Variable iteration_order : Z -> list string -> list string.

Definition initial_state (render_rng : Py.Random) : State :=
  {| received_cells := [];
     hop_reached := [];
     received_towers := [seed_h3];
     received_quality := [(seed_h3, 0%Q)];
     transmitted_towers := [];
     received_version := 0%Z;
     seen_links := [];
     seen_links_version := 0%Z;
     active_transmissions := [];
     render_rng := render_rng;
     last_state_key := None;
     needs_render := true;
     started := [];
     completed := [] |}.

Definition eligible_towers (frame : Z) (st : State)
  (active_towers blocked_towers : list string) : list string :=
  filter
    (fun t =>
       Py.contains tower_hops t
       && negb (Py.mem t (transmitted_towers st))
       && negb (Py.mem t active_towers)
       && negb (Py.mem t blocked_towers))
    (iteration_order frame (received_towers st)).

(** The loop that buckets the visible cells of the new transmitter. *)
Definition bucket_cell (hop_index : Z)
  (acc : list (nat * list string) * list (string * nat * Z * Q))
  (entry : string * Q)
  : list (nat * list string) * list (string * nat * Z * Q) :=
  let (tiered, cell_tiers) := acc in
  let (cell_h3, path_loss_db) := entry in
  let tier := assign_tier path_loss_db (tier_thresholds_db animation) in
  (setdefault_put Nat.eqb append tiered tier cell_h3,
   cell_tiers ++ [(cell_h3, tier, hop_index, path_loss_db)]).

(** The branch [if next_tower:]. *)
Definition start_transmission (frame : Z) (st : State) (frame_time : Q)
  (next_tower : string) : State :=
  if String.eqb next_tower "" then st
  else
    let hop_index :=
      if String.eqb next_tower seed_h3 then 0%Z
      else Py.get_default tower_hops next_tower 0%Z in
    let tower_visible := Py.get_default visible_cells next_tower [] in
    let (tiered, cell_tiers) :=
      fold_left (bucket_cell hop_index) tower_visible ([], []) in
    let (jitter, rng') :=
      Py.uniform (render_rng st) 0 (jitter_s animation) in
    let duration := (airtime_s + jitter)%Q in
    let audible_pairs := Py.get_default tower_visibility next_tower [] in
    {| received_cells := received_cells st;
       hop_reached := hop_reached st;
       received_towers := received_towers st;
       received_quality := received_quality st;
       transmitted_towers := transmitted_towers st;
       received_version := received_version st;
       seen_links := seen_links st;
       seen_links_version := seen_links_version st;
       active_transmissions :=
         active_transmissions st
         ++ [{| tx_tower_h3 := next_tower;
                tx_start := frame_time;
                tx_end := (frame_time + duration)%Q;
                tx_hop := hop_index;
                tx_tiered := tiered;
                tx_cell_tiers := cell_tiers;
                tx_audible_pairs := audible_pairs;
                tx_audible_towers := map fst audible_pairs |}];
       render_rng := rng';
       last_state_key := last_state_key st;
       needs_render := needs_render st;
       started := started st ++ [(next_tower, frame, duration)];
       completed := completed st |}.

(** The pending links of the frame. *)
Definition active_links_of (transmitted_towers : list string)
  (active : list Transmission) : list link :=
  flat_map
    (fun transmission =>
       map (fun neighbor => (tx_tower_h3 transmission, neighbor))
         (filter (fun neighbor => negb (Py.mem neighbor transmitted_towers))
            (tx_audible_towers transmission)))
    active.

(** One iteration of [for frame in range(total_frames)]. *)
Definition frame_body (st : State) (frame : Z) : State :=
  let frame_time := (inject_Z frame / inject_Z (fps animation))%Q in
  let finished :=
    filter (fun t => Qle_bool (tx_end t) frame_time)
      (active_transmissions st) in
  let active :=
    match finished with
    | [] => active_transmissions st
    | _ :: _ =>
        filter (fun t => Py.Qltb frame_time (tx_end t))
          (active_transmissions st)
    end in
  let st1 :=
    fold_left finalize finished
      {| received_cells := received_cells st;
         hop_reached := hop_reached st;
         received_towers := received_towers st;
         received_quality := received_quality st;
         transmitted_towers := transmitted_towers st;
         received_version := received_version st;
         seen_links := seen_links st;
         seen_links_version := seen_links_version st;
         active_transmissions := active;
         render_rng := render_rng st;
         last_state_key := last_state_key st;
         needs_render := needs_render st;
         started := started st;
         completed := completed st |} in
  let blocked_towers := flat_map tx_audible_towers active in
  let active_towers := fold_left Py.add (map tx_tower_h3 active) [] in
  let st2 :=
    if (0 <? frame)%Z then
      match select_next_transmitter
              (eligible_towers frame st1 active_towers blocked_towers)
              (received_quality st1) with
      | Some next_tower => start_transmission frame st1 frame_time next_tower
      | None => st1
      end
    else st1 in
  let active_links :=
    active_links_of (transmitted_towers st2) (active_transmissions st2) in
  let key : state_key :=
    (sorted String.leb active_towers, received_version st2,
     sorted link_leb active_links, seen_links_version st2) in
  {| received_cells := received_cells st2;
     hop_reached := hop_reached st2;
     received_towers := received_towers st2;
     received_quality := received_quality st2;
     transmitted_towers := transmitted_towers st2;
     received_version := received_version st2;
     seen_links := seen_links st2;
     seen_links_version := seen_links_version st2;
     active_transmissions := active_transmissions st2;
     render_rng := render_rng st2;
     last_state_key := Some key;
     needs_render :=
       match last_state_key st2 with
       | None => true
       | Some previous => negb (state_key_eqb key previous)
       end;
     started := started st2;
     completed := completed st2 |}.

(** The state after the first [n] frames, [0 .. n-1]. *)
Fixpoint render_frames (n : nat) (st : State) : State :=
  match n with
  | O => st
  | S k => frame_body (render_frames k st) (Z.of_nat k)
  end.
End Frame.

Arguments frame_body : simpl never.
Arguments start_transmission : simpl never.
Arguments finalize : simpl never.

Definition lifecycle_holds (st : State) : Prop :=
  lifecycle (map tx_tower_h3 (active_transmissions st)) (completed st)
    (map event_tower (started st)) (transmitted_towers st).

End Render.

(** ** Runs from the initial state *)

(** The state of the dry pass after [n] iterations of its loop (or at
    its exit, if that came earlier). *)
Definition dry_run (seed_h3 : string)
  (tower_visibility visible_cells : Py.dict (list (string * Q)))
  (population : Py.dict Q) (tower_hops : Py.dict Z)
  (animation : AnimationConfig) (airtime_s : Q) (max_frames : Z)
  (iteration_order : Z -> list string -> list string)
  (rng : Py.Random) (n : nat) : SimState :=
  fst (run_frames tower_visibility visible_cells population tower_hops
         animation airtime_s max_frames iteration_order n
         (initial_state seed_h3 rng)).

(** The state of the render pass after [n] frames. *)
Definition render_run (seed_h3 : string)
  (tower_visibility visible_cells : Py.dict (list (string * Q)))
  (tower_hops : Py.dict Z) (animation : AnimationConfig) (airtime_s : Q)
  (iteration_order : Z -> list string -> list string)
  (render_rng : Py.Random) (n : nat) : Render.State :=
  Render.render_frames seed_h3 tower_visibility visible_cells tower_hops
    animation airtime_s iteration_order n
    (Render.initial_state seed_h3 render_rng).

(** ** A sample network *)

Definition sample_visibility : Py.dict (list (string * Q)) :=
  [("A", [("B", 120%Q); ("C", 130%Q)]);
   ("B", [("A", 120%Q); ("D", 125%Q)]);
   ("C", [("A", 130%Q)]);
   ("D", [("B", 125%Q)])].

Definition sample_cells : Py.dict (list (string * Q)) :=
  [("A", [("c1", 100%Q); ("c2", 110%Q)]);
   ("B", [("c2", 105%Q); ("c3", 140%Q)])].

Definition sample_population : Py.dict Q :=
  [("c1", 10%Q); ("c2", 20%Q); ("c3", 5%Q)].

Definition sample_animation : AnimationConfig :=
  {| fps := 24; hop_limit := 3; wave_min_s := 1 # 2; wave_max_s := 1;
     jitter_s := 2 # 10;
     tier_thresholds_db :=
       build_fine_thresholds [112; 118; 124; 130; 136; 142]%Q |}.

Definition sample_hops : Py.dict Z :=
  build_tower_hops (build_waves "A" (adjacency_of sample_visibility) 3).

Definition sample_rng : Py.Random :=
  {| Py.draws := fun n => (1 # Pos.of_succ_nat n)%Q; Py.pos := 0 |}.

Definition as_listed (f : Z) (s : list string) : list string := s.
Definition reversed (f : Z) (s : list string) : list string := rev s.

(** ** The lone seed

    With no tower visibility the seed is the only tower that ever
    transmits. [on_air] is the state of the dry pass at frame [f] while
    that transmission, started at frame 1 with duration [duration], is
    on air. *)
Definition lone_transmission (seed_h3 : string) (animation : AnimationConfig)
  (cells : list (string * Q)) (duration : Q) : Transmission :=
  {| tx_tower_h3 := seed_h3;
     tx_end := (inject_Z 1 / inject_Z (fps animation) + duration)%Q;
     tx_cell_losses := cells;
     tx_audible_pairs := [];
     tx_audible_towers := [] |}.

Definition on_air (seed_h3 : string) (animation : AnimationConfig)
  (cells : list (string * Q)) (duration : Q) (gen : Py.Random) (f : Z)
  : SimState :=
  {| received_cells := [];
     received_towers := [seed_h3];
     received_quality := [(seed_h3, 0%Q)];
     transmitted_towers := [];
     active_transmissions :=
       [lone_transmission seed_h3 animation cells duration];
     max_population := 0%Q;
     frame := f;
     rng := gen;
     started := [(seed_h3, 1%Z, duration)];
     completed := [] |}.

(** The cells of a visibility list, each once, in order of first
    appearance. *)
Definition distinct_cells (cells : list (string * Q)) : list string :=
  fold_left Py.add (map fst cells) [].

(** The sum of population over the distinct cells of a list. *)
Definition population_of (population : Py.dict Q) (cells : list (string * Q))
  : Q :=
  Py.sum (map (fun h3 => Py.get_default population h3 0%Q)
            (distinct_cells cells)).

(** ** Variations of a radio configuration *)

Definition with_coding_rate (radio : RadioConfig) (coding_rate : Z)
  : RadioConfig :=
  {| spreading_factor := spreading_factor radio;
     bandwidth_khz := bandwidth_khz radio;
     coding_rate := coding_rate;
     payload_bytes := payload_bytes radio;
     preamble_symbols := preamble_symbols radio;
     crc_enabled := crc_enabled radio;
     implicit_header := implicit_header radio |}.

Definition with_payload_bytes (radio : RadioConfig) (payload_bytes : Z)
  : RadioConfig :=
  {| spreading_factor := spreading_factor radio;
     bandwidth_khz := bandwidth_khz radio;
     coding_rate := coding_rate radio;
     payload_bytes := payload_bytes;
     preamble_symbols := preamble_symbols radio;
     crc_enabled := crc_enabled radio;
     implicit_header := implicit_header radio |}.

(** ** Observations on a schedule *)

(** The start and end times of a schedule, in the order of its entries. *)
Definition timeline (schedule : list schedule_entry) : list Q :=
  flat_map (fun e : schedule_entry =>
              let '(_, start_time, end_time, _) := e in
              [start_time; end_time])
    schedule.

(** [random()] returns a value of the unit interval. *)
Definition unit_draws (rng : Py.Random) : Prop :=
  forall n, (0 <= Py.draws rng n)%Q /\ (Py.draws rng n < 1)%Q.

(** A random source whose draws 1/2, 1/3, ... stay inside the unit
    interval. *)
Definition sample_unit_rng : Py.Random :=
  {| Py.draws := fun n => (1 # Pos.of_succ_nat (S n))%Q; Py.pos := 0 |}.

(** ** The phases of one iteration of the dry pass

    Names for the values [frame_body] binds on its way: the frame time,
    the transmissions that end, the ones that go on, the state after the
    finalization loop and the state after the selection. *)

Definition frame_time_of (animation : AnimationConfig) (st : SimState) : Q :=
  (inject_Z (frame st) / inject_Z (fps animation))%Q.

Definition finished_of (animation : AnimationConfig) (st : SimState)
  : list Transmission :=
  filter (fun t => Qle_bool (tx_end t) (frame_time_of animation st))
    (active_transmissions st).

Definition active_of (animation : AnimationConfig) (st : SimState)
  : list Transmission :=
  filter (fun t => Py.Qltb (frame_time_of animation st) (tx_end t))
    (active_transmissions st).

Definition after_finalize (animation : AnimationConfig) (st : SimState)
  : SimState :=
  fold_left finalize (finished_of animation st)
    {| received_cells := received_cells st;
       received_towers := received_towers st;
       received_quality := received_quality st;
       transmitted_towers := transmitted_towers st;
       active_transmissions := active_of animation st;
       max_population := max_population st;
       frame := frame st;
       rng := rng st;
       started := started st;
       completed := completed st |}.

Definition after_start
  (tower_visibility visible_cells : Py.dict (list (string * Q)))
  (tower_hops : Py.dict Z) (animation : AnimationConfig) (airtime_s : Q)
  (iteration_order : Z -> list string -> list string) (st : SimState)
  : SimState :=
  let st1 := after_finalize animation st in
  if (0 <? frame st)%Z then
    match select_next_transmitter
            (eligible_towers tower_hops iteration_order st1
               (map tx_tower_h3 (active_of animation st))
               (flat_map tx_audible_towers (active_of animation st)))
            (received_quality st1) with
    | Some next_tower =>
        start_transmission tower_visibility visible_cells animation airtime_s
          st1 (frame_time_of animation st) next_tower
    | None => st1
    end
  else st1.

Definition event_frame (e : string * Z * Q) : Z := snd (fst e).
Definition event_duration (e : string * Z * Q) : Q := snd e.

(** The time at which the transmission logged as [e] ends. *)
Definition event_end (animation : AnimationConfig) (e : string * Z * Q) : Q :=
  (inject_Z (event_frame e) / inject_Z (fps animation) + event_duration e)%Q.

(** The entry of [active_transmissions] that the start logged as [e]
    appends. *)
Definition transmission_of
  (tower_visibility visible_cells : Py.dict (list (string * Q)))
  (animation : AnimationConfig) (e : string * Z * Q) : Transmission :=
  {| tx_tower_h3 := event_tower e;
     tx_end := event_end animation e;
     tx_cell_losses := Py.get_default visible_cells (event_tower e) [];
     tx_audible_pairs := Py.get_default tower_visibility (event_tower e) [];
     tx_audible_towers :=
       map fst (Py.get_default tower_visibility (event_tower e) []) |}.

(** ** What the event log records

    Three views of a state of the dry pass through its ghost log. *)

(** The frames of the starts increase strictly, lie between 1 and the
    current frame, and every entry on air stems from a logged start. *)
Definition log_in_order
  (tower_visibility visible_cells : Py.dict (list (string * Q)))
  (animation : AnimationConfig) (st : SimState) : Prop :=
  Sorted Z.lt (map event_frame (started st)) /\
  (forall e, In e (started st) -> (1 <= event_frame e < frame st)%Z) /\
  (forall t, In t (active_transmissions st) ->
     exists e,
       In e (started st) /\
       t = transmission_of tower_visibility visible_cells animation e).

(** Every tower that started has a non-empty key, a hop assignment and
    has received the message. *)
Definition log_of_received (tower_hops : Py.dict Z) (st : SimState) : Prop :=
  forall e, In e (started st) ->
    event_tower e <> "" /\
    Py.contains tower_hops (event_tower e) = true /\
    In (event_tower e) (received_towers st).

(** Every logged transmission is on air or has ended by the frame before
    the current one, and a tower that hears a transmitter did not start
    while that transmission was on air. *)
Definition log_without_contention
  (tower_visibility visible_cells : Py.dict (list (string * Q)))
  (animation : AnimationConfig) (st : SimState) : Prop :=
  (forall e, In e (started st) ->
     In (transmission_of tower_visibility visible_cells animation e)
       (active_transmissions st) \/
     (event_end animation e
      <= inject_Z (frame st - 1) / inject_Z (fps animation))%Q) /\
  (forall e1 e2, In e1 (started st) -> In e2 (started st) ->
     (event_frame e1 < event_frame e2)%Z ->
     In (event_tower e2)
       (map fst (Py.get_default tower_visibility (event_tower e1) [])) ->
     (event_end animation e1
      <= inject_Z (event_frame e2) / inject_Z (fps animation))%Q).

(** The received cells are the cells seen by the towers that completed a
    transmission, each with the lowest path loss among those towers. *)
Definition cells_from_completed (visible_cells : Py.dict (list (string * Q)))
  (st : SimState) : Prop :=
  (forall cell_h3 loss,
     Py.get (received_cells st) cell_h3 = Some loss ->
     exists t,
       In t (completed st) /\
       In (cell_h3, loss) (Py.get_default visible_cells t [])) /\
  (forall t cell_h3 path_loss_db,
     In t (completed st) ->
     In (cell_h3, path_loss_db) (Py.get_default visible_cells t []) ->
     exists loss,
       Py.get (received_cells st) cell_h3 = Some loss /\
       (loss <= path_loss_db)%Q).

(** ** The render pass seen from the dry pass *)

Definition cell_loss (entry : string * nat * Z * Q) : string * Q :=
  let '(cell_h3, _, _, path_loss_db) := entry in (cell_h3, path_loss_db).

(** The fields of a render-pass transmission that the dry pass has too. *)
Definition render_to_dry (t : Render.Transmission) : Transmission :=
  {| tx_tower_h3 := Render.tx_tower_h3 t;
     tx_end := Render.tx_end t;
     tx_cell_losses := map cell_loss (Render.tx_cell_tiers t);
     tx_audible_pairs := Render.tx_audible_pairs t;
     tx_audible_towers := Render.tx_audible_towers t |}.

(** A state of the render pass and a state of the dry pass that hold the
    same scheduling state. *)
Definition same_schedule (rs : Render.State) (ds : SimState) : Prop :=
  Render.received_cells rs = received_cells ds /\
  Render.received_towers rs = received_towers ds /\
  Render.received_quality rs = received_quality ds /\
  Render.transmitted_towers rs = transmitted_towers ds /\
  map render_to_dry (Render.active_transmissions rs)
  = active_transmissions ds /\
  Render.render_rng rs = rng ds /\
  Render.started rs = started ds /\
  Render.completed rs = completed ds.

(** ** The phases of one frame of the render pass *)

Definition render_finished_of (animation : AnimationConfig)
  (st : Render.State) (frame : Z) : list Render.Transmission :=
  filter
    (fun t =>
       Qle_bool (Render.tx_end t)
         (inject_Z frame / inject_Z (fps animation))%Q)
    (Render.active_transmissions st).

Definition render_active_of (animation : AnimationConfig)
  (st : Render.State) (frame : Z) : list Render.Transmission :=
  match render_finished_of animation st frame with
  | [] => Render.active_transmissions st
  | _ :: _ =>
      filter
        (fun t =>
           Py.Qltb (inject_Z frame / inject_Z (fps animation))%Q
             (Render.tx_end t))
        (Render.active_transmissions st)
  end.

Definition render_after_finalize (animation : AnimationConfig)
  (st : Render.State) (frame : Z) : Render.State :=
  fold_left Render.finalize (render_finished_of animation st frame)
    {| Render.received_cells := Render.received_cells st;
       Render.hop_reached := Render.hop_reached st;
       Render.received_towers := Render.received_towers st;
       Render.received_quality := Render.received_quality st;
       Render.transmitted_towers := Render.transmitted_towers st;
       Render.received_version := Render.received_version st;
       Render.seen_links := Render.seen_links st;
       Render.seen_links_version := Render.seen_links_version st;
       Render.active_transmissions := render_active_of animation st frame;
       Render.render_rng := Render.render_rng st;
       Render.last_state_key := Render.last_state_key st;
       Render.needs_render := Render.needs_render st;
       Render.started := Render.started st;
       Render.completed := Render.completed st |}.

Definition render_after_start (seed_h3 : string)
  (tower_visibility visible_cells : Py.dict (list (string * Q)))
  (tower_hops : Py.dict Z) (animation : AnimationConfig) (airtime_s : Q)
  (iteration_order : Z -> list string -> list string)
  (st : Render.State) (frame : Z) : Render.State :=
  let st1 := render_after_finalize animation st frame in
  let active := render_active_of animation st frame in
  if (0 <? frame)%Z then
    match select_next_transmitter
            (Render.eligible_towers tower_hops iteration_order frame st1
               (fold_left Py.add (map Render.tx_tower_h3 active) [])
               (flat_map Render.tx_audible_towers active))
            (Render.received_quality st1) with
    | Some next_tower =>
        Render.start_transmission seed_h3 tower_visibility visible_cells
          tower_hops animation airtime_s frame st1
          (inject_Z frame / inject_Z (fps animation))%Q next_tower
    | None => st1
    end
  else st1.

(** The dedup key of a frame that leaves the state [st2] after its
    selection, [active] being the transmissions on air before it. *)
Definition render_key_of (active : list Render.Transmission)
  (st2 : Render.State) : Render.state_key :=
  (Render.sorted String.leb
     (fold_left Py.add (map Render.tx_tower_h3 active) []),
   Render.received_version st2,
   Render.sorted Render.link_leb
     (Render.active_links_of (Render.transmitted_towers st2)
        (Render.active_transmissions st2)),
   Render.seen_links_version st2).

(** The two version counters count what they stand for. *)
Definition counters_hold (st : Render.State) : Prop :=
  Render.seen_links_version st
  = Z.of_nat (List.length (Render.seen_links st)) /\
  NoDup (Render.seen_links st) /\
  Render.received_version st = Z.of_nat (List.length (Render.completed st)).

(** The hop buckets split the received cells. *)
Definition hops_split_cells (st : Render.State) : Prop :=
  Permutation (List.concat (map snd (Render.hop_reached st)))
    (Py.keys (Render.received_cells st)) /\
  NoDup (Py.keys (Render.received_cells st)) /\
  NoDup (map fst (Render.hop_reached st)).

(** A set of links and the counter of its growth. *)
Definition links_counted (links : list Render.link) (version : Z) : Prop :=
  version = Z.of_nat (List.length links) /\ NoDup links.

(** ** The counters of the label overlay ([main], per frame) *)

(** [effective_hop_reached.setdefault(hop_index, set())] *)
Fixpoint setdefault_empty (d : list (Z * list string)) (k : Z)
  : list (Z * list string) :=
  match d with
  | [] => [(k, [])]
  | (k', xs) :: rest =>
      if Z.eqb k' k then d else (k', xs) :: setdefault_empty rest k
  end.

(** One tuple of [transmission["cell_tiers"]] of a transmission on air. *)
Definition effective_cell (received_cells : Py.dict Q) (hop_index : Z)
  (acc : list string * list (Z * list string))
  (entry : string * nat * Z * Q) : list string * list (Z * list string) :=
  let (effective_cells, effective_hop_reached) := acc in
  let '(cell_h3, _, _, _) := entry in
  if Py.contains received_cells cell_h3 || Py.mem cell_h3 effective_cells
  then acc
  else (Py.add effective_cells cell_h3,
        Render.setdefault_put Z.eqb Py.add effective_hop_reached hop_index
          cell_h3).

(** The body of [for transmission in active_transmissions]. *)
Definition effective_transmission (received_cells : Py.dict Q)
  (acc : list string * list (Z * list string))
  (transmission : Render.Transmission)
  : list string * list (Z * list string) :=
  let (effective_cells, effective_hop_reached) := acc in
  fold_left (effective_cell received_cells (Render.tx_hop transmission))
    (Render.tx_cell_tiers transmission)
    (effective_cells,
     setdefault_empty effective_hop_reached (Render.tx_hop transmission)).

(** [effective_cells] and [effective_hop_reached] of a frame. *)
Definition effective_coverage (st : Render.State)
  : list string * list (Z * list string) :=
  fold_left (effective_transmission (Render.received_cells st))
    (Render.active_transmissions st)
    (Py.keys (Render.received_cells st), Render.hop_reached st).

Definition effective_cells (st : Render.State) : list string :=
  fst (effective_coverage st).

Definition effective_hop_reached (st : Render.State)
  : list (Z * list string) :=
  snd (effective_coverage st).

(** [sum(population.get(h3, 0.0) for h3 in cells)] *)
Definition population_sum (population : Py.dict Q) (cells : list string) : Q :=
  Py.sum (map (fun h3 => Py.get_default population h3 0%Q) cells).

(** [hop_values]: the population of each hop bucket. *)
Definition hop_values (population : Py.dict Q)
  (buckets : list (Z * list string)) : list (Z * Q) :=
  map (fun bucket => (fst bucket, population_sum population (snd bucket)))
    buckets.

(** Hop buckets that split a set of cells. *)
Definition buckets_split (buckets : list (Z * list string))
  (cells : list string) : Prop :=
  Permutation (List.concat (map snd buckets)) cells /\
  NoDup cells /\ NoDup (map fst buckets).

(** ** Map extent ([render_longfast_animation.py], [render_mapnik.py]) *)

(** The two-argument [min(a, b)]: the first argument unless the second
    is strictly smaller. *)
Definition min2 (a b : Q) : Q := if Py.Qltb b a then b else a.

(** [expand_bbox_asymmetric]; the result is
    [(padded_minx, padded_miny, padded_maxx, padded_maxy)]. *)
Definition expand_bbox_asymmetric
  (minx miny maxx maxy left_ratio right_ratio bottom_ratio top_ratio : Q)
  : Q * Q * Q * Q :=
  let span_x := (maxx - minx)%Q in
  let span_y := (maxy - miny)%Q in
  let pad_left := (span_x * left_ratio)%Q in
  let pad_right := (span_x * right_ratio)%Q in
  let pad_bottom := (span_y * bottom_ratio)%Q in
  let pad_top := (span_y * top_ratio)%Q in
  let padded_minx := Py.max2 (-180) (minx - pad_left) in
  let padded_maxx := min2 180 (maxx + pad_right) in
  let padded_miny := Py.max2 (-90) (miny - pad_bottom) in
  let padded_maxy := min2 90 (maxy + pad_top) in
  (padded_minx, padded_miny, padded_maxx, padded_maxy).

(** [expand_bbox], the same in both scripts. *)
Definition expand_bbox (minx miny maxx maxy padding_ratio : Q)
  : Q * Q * Q * Q :=
  let span_x := (maxx - minx)%Q in
  let span_y := (maxy - miny)%Q in
  let pad_x := (span_x * padding_ratio)%Q in
  let pad_y := (span_y * padding_ratio)%Q in
  let padded_minx := Py.max2 (-180) (minx - pad_x) in
  let padded_maxx := min2 180 (maxx + pad_x) in
  let padded_miny := Py.max2 (-90) (miny - pad_y) in
  let padded_maxy := min2 90 (maxy + pad_y) in
  (padded_minx, padded_miny, padded_maxx, padded_maxy).

(** A box [(minx, miny, maxx, maxy)] inside the lon/lat world. *)
Definition in_world (box : Q * Q * Q * Q) : Prop :=
  let '(minx, miny, maxx, maxy) := box in
  (-180 <= minx /\ minx <= maxx /\ maxx <= 180 /\
   -90 <= miny /\ miny <= maxy /\ maxy <= 90)%Q.

(** [inner] lies inside [outer]. *)
Definition covers (outer inner : Q * Q * Q * Q) : Prop :=
  let '(ominx, ominy, omaxx, omaxy) := outer in
  let '(iminx, iminy, imaxx, imaxy) := inner in
  (ominx <= iminx /\ imaxx <= omaxx /\ ominy <= iminy /\ imaxy <= omaxy)%Q.

(** ** Loading the graph ([longfast_animation_lib.py])

    The SQL of the [fetch_*] functions runs in the database; [rows] is
    what [cur.fetchall()] hands back, in its order. *)

(** [{h3: [] for h3 in tower_list}] *)
Definition empty_lists {V : Type} (tower_list : list string)
  : Py.dict (list V) :=
  fold_left (fun d h3 => Py.set d h3 []) tower_list [].

(** [d[k].append(x)]; [None] stands for [KeyError]. *)
Definition append_at {V : Type} (d : Py.dict (list V)) (k : string) (x : V)
  : option (Py.dict (list V)) :=
  match Py.get d k with
  | Some xs => Some (Py.set d k (xs ++ [x]))
  | None => None
  end.

(** The body of the loop over the rows of [fetch_tower_adjacency]. *)
Definition adjacency_row (acc : option (Py.dict (list string)))
  (row : string * string) : option (Py.dict (list string)) :=
  match acc with
  | None => None
  | Some adjacency =>
      let (src_h3, dst_h3) := row in
      match append_at adjacency src_h3 dst_h3 with
      | Some adjacency' => append_at adjacency' dst_h3 src_h3
      | None => None
      end
  end.

Definition fetch_tower_adjacency (towers : list string)
  (rows : list (string * string)) : option (Py.dict (list string)) :=
  match towers with
  | [] => Some []
  | _ :: _ => fold_left adjacency_row rows (Some (empty_lists towers))
  end.

(** The body of the loop over the rows of [fetch_visible_cells] and of
    [fetch_tower_visibility]. *)
Definition visibility_row (acc : option (Py.dict (list (string * Q))))
  (row : string * string * Q) : option (Py.dict (list (string * Q))) :=
  match acc with
  | None => None
  | Some visible =>
      let '(src_h3, dst_h3, path_loss_db) := row in
      append_at visible src_h3 (dst_h3, path_loss_db)
  end.

Definition fetch_visible_cells (towers : list string)
  (rows : list (string * string * Q)) : option (Py.dict (list (string * Q))) :=
  match towers with
  | [] => Some []
  | _ :: _ => fold_left visibility_row rows (Some (empty_lists towers))
  end.

Definition fetch_tower_visibility (towers : list string)
  (rows : list (string * string * Q)) : option (Py.dict (list (string * Q))) :=
  match towers with
  | [] => Some []
  | _ :: _ => fold_left visibility_row rows (Some (empty_lists towers))
  end.

Definition link_dec (a b : string * string) : {a = b} + {a <> b}.
Proof. decide equality; apply string_dec. Defined.

(** How often the rows hold the pair [(a, b)]. *)
Definition rows_between (rows : list (string * string)) (a b : string) : nat :=
  count_occ link_dec rows (a, b).

(** The rows of one source, as [(dst_h3, path_loss_db)], in row order. *)
Definition rows_from (rows : list (string * string * Q)) (src_h3 : string)
  : list (string * Q) :=
  map (fun row => (snd (fst row), snd row))
    (filter (fun row => String.eqb (fst (fst row)) src_h3) rows).

(** ** SQL array literals ([longfast_animation_lib.py]) *)

(** [value.replace("'", "''")] *)
Fixpoint escape_quotes (value : string) : string :=
  match value with
  | EmptyString => EmptyString
  | String c rest =>
      if Ascii.eqb c "'"
      then String "'" (String "'" (escape_quotes rest))
      else String c (escape_quotes rest)
  end.

(** [sep.join(items)] *)
Fixpoint join (sep : string) (items : list string) : string :=
  match items with
  | [] => EmptyString
  | [item] => item
  | item :: rest => (item ++ sep ++ join sep rest)%string
  end.

Definition build_h3_array_literal (values : list string) : string :=
  match values with
  | [] => "array[]::text[]"
  | _ :: _ =>
      let escaped := map escape_quotes values in
      let items :=
        join "," (map (fun value => ("'" ++ value ++ "'")%string) escaped) in
      ("array[" ++ items ++ "]::text[]")%string
  end.

(** Reading the literal back, as SQL reads string constants: inside a
    constant a doubled quote stands for one quote, a single quote ends
    the constant.  [read_items] starts behind the opening quote of a
    constant and reads up to the closing bracket of the array; it
    returns the constants and the text behind the bracket. *)
Definition push_char (c : ascii) (read : option (list string * string))
  : option (list string * string) :=
  match read with
  | Some (value :: values, rest) => Some (String c value :: values, rest)
  | _ => None
  end.

Definition new_item (read : option (list string * string))
  : option (list string * string) :=
  match read with
  | Some (values, rest) => Some (EmptyString :: values, rest)
  | None => None
  end.

Fixpoint read_items (s : string) : option (list string * string) :=
  match s with
  | EmptyString => None
  | String c rest =>
      if Ascii.eqb c "'" then
        match rest with
        | String c1 rest1 =>
            if Ascii.eqb c1 "'" then push_char "'" (read_items rest1)
            else if Ascii.eqb c1 "]" then Some ([EmptyString], rest1)
            else if Ascii.eqb c1 "," then
              match rest1 with
              | String c2 rest2 =>
                  if Ascii.eqb c2 "'" then new_item (read_items rest2)
                  else None
              | EmptyString => None
              end
            else None
        | EmptyString => None
        end
      else push_char c (read_items rest)
  end.

(** [strip_prefix p s] is what follows [p] in [s]. *)
Fixpoint strip_prefix (p s : string) : option string :=
  match p, s with
  | EmptyString, _ => Some s
  | String a p', String b s' =>
      if Ascii.eqb a b then strip_prefix p' s' else None
  | String _ _, EmptyString => None
  end.

Definition read_array (literal : string) : option (list string) :=
  match strip_prefix "array[" literal with
  | Some (String c rest) =>
      if Ascii.eqb c "]" then
        if String.eqb rest "::text[]" then Some [] else None
      else if Ascii.eqb c "'" then
        match read_items rest with
        | Some (values, rest') =>
            if String.eqb rest' "::text[]" then Some values else None
        | None => None
        end
      else None
  | _ => None
  end.

(** The text of a literal behind its first value: the further values,
    the closing bracket and [rest]. *)
Fixpoint items_tail (values : list string) (rest : string) : string :=
  match values with
  | [] => String "]" rest
  | value :: values' =>
      String "," (String "'"
        (escape_quotes value ++ String "'" (items_tail values' rest))%string)
  end.

(** ** Marker files against database objects ([check_db_markers.py])

    The marker lists are those of [list_markers], the [existing_*] sets
    those fetched from the database; a stale marker [root / dir / name]
    is the pair [(dir, name)]. *)

Definition raw_table_map : Py.dict string :=
  [("initial_nodes", "mesh_initial_nodes");
   ("kontur_population", "kontur_population");
   ("gebco_elevation", "gebco_elevation")].

Definition extension_marker_map : Py.dict (list string) :=
  [("postgis_extension", ["postgis"; "h3"; "hstore"; "pgrouting"])].

Definition stage_markers : list string :=
  ["fill_mesh_los_cache"; "mesh_route"; "mesh_route_bridge";
   "mesh_route_cache_graph"; "mesh_route_cluster_slim";
   "mesh_route_refresh_visibility"; "mesh_run_greedy"; "mesh_tower_wiggle"].

(** [required.issubset(existing)] *)
Definition issubset (required existing : list string) : bool :=
  forallb (fun name => Py.mem name existing) required.

(** [procedure_candidates] *)
Definition procedure_candidates (procedure_markers : list string)
  : list string :=
  filter (fun name => negb (Py.mem name stage_markers)) procedure_markers.

(** The test of the loop over [table_markers]. *)
Definition stale_table (existing_tables existing_extensions : list string)
  (marker : string) : bool :=
  match Py.get extension_marker_map marker with
  | Some required => negb (issubset required existing_extensions)
  | None => negb (Py.mem marker existing_tables)
  end.

(** The test of the loop over [raw_markers]. *)
Definition stale_raw (existing_tables : list string) (marker : string)
  : bool :=
  match Py.get raw_table_map marker with
  | None => false
  | Some table_name =>
      if String.eqb table_name "" then false
      else negb (Py.mem table_name existing_tables)
  end.

(** [stale_markers] at the end of the four loops. *)
Definition stale_markers
  (table_markers function_markers procedure_markers raw_markers : list string)
  (existing_tables existing_extensions existing_functions
     existing_procedures : list string) : list (string * string) :=
  map (pair "table")
    (filter (stale_table existing_tables existing_extensions) table_markers)
  ++ map (pair "function")
       (filter (fun marker => negb (Py.mem marker existing_functions))
          function_markers)
  ++ map (pair "procedure")
       (filter (fun marker => negb (Py.mem marker existing_procedures))
          (procedure_candidates procedure_markers))
  ++ map (pair "raw") (filter (stale_raw existing_tables) raw_markers).

(** The exit code of [check_markers]. *)
Definition check_markers
  (table_markers function_markers procedure_markers raw_markers : list string)
  (existing_tables existing_extensions existing_functions
     existing_procedures : list string) : Z :=
  match stale_markers table_markers function_markers procedure_markers
          raw_markers existing_tables existing_extensions existing_functions
          existing_procedures with
  | [] => 0%Z
  | _ :: _ => 1%Z
  end.

(** * Verification *)

(** ** Comparisons *)

Lemma Qle_bool_false (x y : Q) : Qle_bool x y = false <-> (y < x)%Q.
Proof.
  split; intro H.
  - apply Qnot_le_lt. intro Hle. apply Qle_bool_iff in Hle. congruence.
  - destruct (Qle_bool x y) eqn:E; [|reflexivity].
    apply Qle_bool_iff in E. exfalso. exact (Qlt_not_le _ _ H E).
Qed.

Lemma Qltb_true (x y : Q) : Py.Qltb x y = true <-> (x < y)%Q.
Proof.
  unfold Py.Qltb. rewrite negb_true_iff. apply Qle_bool_false.
Qed.

Lemma Qltb_false (x y : Q) : Py.Qltb x y = false <-> (y <= x)%Q.
Proof.
  unfold Py.Qltb. rewrite negb_false_iff. apply Qle_bool_iff.
Qed.

(** ** Tier classifier *)

Lemma assign_tier_from_range (v : Q) (ths : list Q) : forall index,
  index <= assign_tier_from index v ths <= index + List.length ths.
Proof.
  induction ths as [|t rest IH]; intro index; simpl.
  - lia.
  - destruct (Qle_bool v t); [lia|]. specialize (IH (S index)). lia.
Qed.

Lemma assign_tier_from_before (v : Q) (ths : list Q) : forall index j,
  index + j < assign_tier_from index v ths -> (nth j ths 0 < v)%Q.
Proof.
  induction ths as [|t rest IH]; intros index j Hj; simpl in Hj.
  - lia.
  - destruct (Qle_bool v t) eqn:E; [lia|].
    destruct j as [|j]; simpl.
    + now apply Qle_bool_false.
    + apply (IH (S index)). rewrite <- plus_n_Sm in Hj. exact Hj.
Qed.

Lemma assign_tier_from_at (v : Q) (ths : list Q) : forall index,
  assign_tier_from index v ths < index + List.length ths ->
  (v <= nth (assign_tier_from index v ths - index) ths 0)%Q.
Proof.
  induction ths as [|t rest IH]; intros index Hlt; simpl in *.
  - lia.
  - destruct (Qle_bool v t) eqn:E.
    + rewrite Nat.sub_diag. now apply Qle_bool_iff.
    + pose proof (assign_tier_from_range v rest (S index)) as Hr.
      specialize (IH (S index)).
      replace (assign_tier_from (S index) v rest - index)
        with (S (assign_tier_from (S index) v rest - S index)) by lia.
      apply IH. lia.
Qed.

(** C8. [assign_tier] returns the index of the first threshold that is
    greater than or equal to the path loss, and the length of the
    sequence when there is none (for every sequence, ascending or not);
    with thresholds 100,110,...,150 a path loss of 105 is tier 1 and a
    path loss of 999 is tier 6. *)
Theorem assign_tier_first_threshold (v : Q) (ths : list Q) :
  assign_tier v ths <= List.length ths /\
  (forall j, j < assign_tier v ths -> ~ (v <= nth j ths 0)%Q) /\
  (assign_tier v ths < List.length ths ->
     (v <= nth (assign_tier v ths) ths 0)%Q) /\
  ((forall j, j < List.length ths -> ~ (v <= nth j ths 0)%Q) ->
     assign_tier v ths = List.length ths) /\
  assign_tier 105 [100; 110; 120; 130; 140; 150]%Q = 1 /\
  assign_tier 999 [100; 110; 120; 130; 140; 150]%Q = 6.
Proof.
  unfold assign_tier.
  pose proof (assign_tier_from_range v ths 0) as Hr.
  pose proof (assign_tier_from_at v ths 0) as Hat.
  rewrite Nat.sub_0_r in Hat. simpl in Hr, Hat.
  repeat split.
  - lia.
  - intros j Hj Hle.
    apply (Qlt_not_le _ _ (assign_tier_from_before v ths 0 j Hj) Hle).
  - exact Hat.
  - intro Hnone.
    destruct (Nat.eq_dec (assign_tier_from 0 v ths) (List.length ths))
      as [E|E]; [exact E|].
    exfalso. apply (Hnone (assign_tier_from 0 v ths)); [lia|].
    apply Hat. lia.
Qed.

(** ** Fine thresholds *)

Lemma interleave_length (a : Q) (l : list Q) :
  List.length (interleave (a :: l)) = 2 * List.length l + 1.
Proof.
  revert a. induction l as [|b r IH]; intro a.
  - reflexivity.
  - change (interleave (a :: b :: r))
      with (a :: ((a + b) / 2)%Q :: interleave (b :: r)).
    cbn [List.length]. rewrite IH. lia.
Qed.

Lemma interleave_even (l : list Q) : forall i,
  i < List.length l -> nth (2 * i) (interleave l) 0%Q = nth i l 0%Q.
Proof.
  induction l as [|a l IH]; intros i Hi.
  - simpl in Hi. lia.
  - destruct l as [|b r].
    + simpl in Hi. assert (i = 0) by lia. subst. reflexivity.
    + change (interleave (a :: b :: r))
        with (a :: ((a + b) / 2)%Q :: interleave (b :: r)).
      destruct i as [|i]; [reflexivity|].
      replace (2 * S i) with (S (S (2 * i))) by lia.
      cbn [nth]. apply IH. cbn [List.length] in *. lia.
Qed.

Lemma interleave_odd (l : list Q) : forall i,
  S i < List.length l ->
  nth (2 * i + 1) (interleave l) 0%Q
  = ((nth i l 0 + nth (S i) l 0) / 2)%Q.
Proof.
  induction l as [|a l IH]; intros i Hi.
  - simpl in Hi. lia.
  - destruct l as [|b r].
    + simpl in Hi. lia.
    + change (interleave (a :: b :: r))
        with (a :: ((a + b) / 2)%Q :: interleave (b :: r)).
      destruct i as [|i]; [reflexivity|].
      replace (2 * S i + 1) with (S (S (2 * i + 1))) by lia.
      cbn [nth]. rewrite IH by (cbn [List.length] in *; lia). reflexivity.
Qed.

Lemma interleave_head (l : list Q) : hd_error (interleave l) = hd_error l.
Proof. destruct l as [|a [|b r]]; reflexivity. Qed.

Lemma interleave_last (l : list Q) : last (interleave l) 0%Q = last l 0%Q.
Proof.
  induction l as [|a l IH]; [reflexivity|].
  destruct l as [|b r]; [reflexivity|].
  change (interleave (a :: b :: r))
    with (a :: ((a + b) / 2)%Q :: interleave (b :: r)).
  change (last (a :: b :: r) 0%Q) with (last (b :: r) 0%Q).
  rewrite <- IH.
  destruct (interleave (b :: r)) eqn:E.
  - pose proof (interleave_length b r) as Hl. rewrite E in Hl.
    simpl in Hl. lia.
  - reflexivity.
Qed.

Lemma midpoint_between (a b : Q) :
  (a <= b)%Q -> (a <= (a + b) / 2)%Q /\ ((a + b) / 2 <= b)%Q.
Proof.
  intro H. split.
  - apply Qle_shift_div_l; [reflexivity|].
    setoid_replace (a * 2)%Q with (a + a)%Q by ring.
    apply Qplus_le_r. exact H.
  - apply Qle_shift_div_r; [reflexivity|].
    setoid_replace (b * 2)%Q with (b + b)%Q by ring.
    apply Qplus_le_l. exact H.
Qed.

Lemma interleave_sorted (l : list Q) :
  Sorted Qle l -> Sorted Qle (interleave l).
Proof.
  induction l as [|a l IH]; intro Hs; [constructor|].
  destruct l as [|b r]; [exact Hs|].
  change (interleave (a :: b :: r))
    with (a :: ((a + b) / 2)%Q :: interleave (b :: r)).
  inversion Hs as [|? ? Hs' Hhd]; subst.
  inversion Hhd as [|? ? Hab]; subst.
  destruct (midpoint_between a b Hab) as [H1 H2].
  constructor; [|constructor; exact H1].
  constructor; [exact (IH Hs')|].
  destruct r as [|c r]; constructor; exact H2.
Qed.

(** C9, amended. For every non-empty thresholds list of length N,
    [build_fine_thresholds] returns exactly 2N-1 values, with the same
    first and last value; the value at each even position 2i is the
    input threshold i and the value at each odd position is the
    arithmetic midpoint of its two neighbours; an ascending input gives
    a non-decreasing result. The empty list is returned unchanged. *)
Theorem build_fine_thresholds_shape (thresholds : list Q) :
  thresholds <> [] ->
  let fine := build_fine_thresholds thresholds in
  Z.of_nat (List.length fine)
    = (2 * Z.of_nat (List.length thresholds) - 1)%Z /\
  hd_error fine = hd_error thresholds /\
  last fine 0%Q = last thresholds 0%Q /\
  (forall i, i < List.length thresholds ->
     nth (2 * i) fine 0%Q = nth i thresholds 0%Q) /\
  (forall i, S i < List.length thresholds ->
     nth (2 * i + 1) fine 0%Q
     = ((nth (2 * i) fine 0 + nth (2 * i + 2) fine 0) / 2)%Q) /\
  (Sorted Qle thresholds -> Sorted Qle fine) /\
  build_fine_thresholds [] = [].
Proof.
  intros Hne fine.
  assert (Hfine : fine = interleave thresholds).
  { unfold fine, build_fine_thresholds.
    destruct thresholds as [|a [|b r]]; [congruence|reflexivity|reflexivity]. }
  rewrite Hfine. clear fine Hfine.
  destruct thresholds as [|a l]; [congruence|].
  repeat split.
  - rewrite interleave_length. simpl List.length. lia.
  - apply interleave_head.
  - apply interleave_last.
  - apply interleave_even.
  - intros i Hi. rewrite interleave_odd by exact Hi.
    rewrite interleave_even by lia.
    replace (2 * i + 2) with (2 * S i) by lia.
    rewrite interleave_even by lia. reflexivity.
  - apply interleave_sorted.
Qed.

Lemma build_fine_thresholds_shape_witness :
  let ths := [100; 110; 120; 130; 140; 150]%Q in
  ths <> [] /\
  Z.of_nat (List.length (build_fine_thresholds ths)) = 11%Z /\
  Sorted Qle (build_fine_thresholds ths).
Proof.
  intro ths.
  assert (Hne : ths <> []) by (unfold ths; discriminate).
  destruct (build_fine_thresholds_shape ths Hne)
    as (Hlen & _ & _ & _ & _ & Hsorted & _).
  split; [exact Hne|]. split; [exact Hlen|].
  apply Hsorted. unfold ths.
  repeat (constructor; try (unfold Qle; simpl; lia)).
Defined.

(** C9 as stated fails on the empty list: no value is returned, where
    2N-1 would be -1. *)
Lemma build_fine_thresholds_empty_counterexample :
  build_fine_thresholds [] = [] /\
  Z.of_nat (List.length (build_fine_thresholds []))
    <> (2 * Z.of_nat (List.length (@nil Q)) - 1)%Z.
Proof. split; [reflexivity|]. simpl. lia. Qed.

(** ** Transmitter selection *)

Lemma string_compare_refl (s : string) : String.compare s s = Eq.
Proof.
  destruct (String.compare s s) eqn:E; [reflexivity| |];
    pose proof (String.compare_antisym s s) as H; rewrite E in H;
    discriminate.
Qed.

Lemma string_compare_trans_le (a b c : string) :
  String.compare a b <> Gt -> String.compare b c <> Gt ->
  String.compare a c <> Gt.
Proof.
  intros Hab Hbc Hac.
  assert (Hca : String_as_OT.lt c a).
  { apply String_as_OT.cmp_lt. unfold String_as_OT.cmp.
    rewrite String.compare_antisym, Hac. reflexivity. }
  destruct (String.compare a b) eqn:Eab; [| |congruence].
  - apply String.compare_eq_iff in Eab. subst b.
    apply Hbc. rewrite String.compare_antisym.
    apply String_as_OT.cmp_lt in Hca. unfold String_as_OT.cmp in Hca.
    rewrite Hca. reflexivity.
  - apply String_as_OT.cmp_lt in Eab.
    pose proof (String_as_OT.lt_trans _ _ _ Hca Eab) as Hcb.
    apply String_as_OT.cmp_lt in Hcb. unfold String_as_OT.cmp in Hcb.
    apply Hbc. rewrite String.compare_antisym, Hcb. reflexivity.
Qed.

Section KeyOrder.
Variable received_quality : Py.dict Q.

Abbreviation q := (quality received_quality).
Abbreviation cmp := (key_compare received_quality).

Lemma key_compare_not_gt (a b : string) :
  cmp a b <> Gt <->
  (q a <= q b)%Q /\ ((q a == q b)%Q -> String.compare a b <> Gt).
Proof.
  unfold key_compare, quality.
  set (x := Py.get_default received_quality a 0%Q).
  set (y := Py.get_default received_quality b 0%Q).
  destruct (Qcompare x y) eqn:E.
  - apply Qeq_alt in E. split.
    + intro H. split; [rewrite E; apply Qle_refl|intros _; exact H].
    + intros [_ H]. exact (H E).
  - apply Qlt_alt in E. split.
    + intros _. split; [apply Qlt_le_weak; exact E|].
      intro Heq. rewrite Heq in E. exfalso. exact (Qlt_irrefl _ E).
    + intros _. discriminate.
  - apply Qgt_alt in E. split.
    + intro H. congruence.
    + intros [Hle _]. exfalso. exact (Qlt_not_le _ _ E Hle).
Qed.

Lemma key_compare_trans (a b c : string) :
  cmp a b <> Gt -> cmp b c <> Gt -> cmp a c <> Gt.
Proof.
  rewrite !key_compare_not_gt. intros [Hab Sab] [Hbc Sbc]. split.
  - eapply Qle_trans; eassumption.
  - intro Hac.
    assert (Eab : (q a == q b)%Q).
    { apply Qle_antisym; [exact Hab|]. rewrite Hac. exact Hbc. }
    assert (Ebc : (q b == q c)%Q) by (rewrite <- Eab; exact Hac).
    eapply string_compare_trans_le; eauto.
Qed.

Lemma key_compare_antisym (a b : string) :
  cmp a b = CompOpp (cmp b a).
Proof.
  unfold key_compare.
  rewrite <- (Qcompare_antisym (Py.get_default received_quality b 0%Q)
                (Py.get_default received_quality a 0%Q)).
  destruct (Qcompare _ _); simpl; try reflexivity.
  apply String.compare_antisym.
Qed.

Lemma key_compare_refl (a : string) : cmp a a = Eq.
Proof.
  unfold key_compare.
  assert (E : Qcompare (Py.get_default received_quality a 0%Q)
                (Py.get_default received_quality a 0%Q) = Eq)
    by (apply Qeq_alt; reflexivity).
  rewrite E. apply string_compare_refl.
Qed.

Lemma key_compare_eq (a b : string) : cmp a b = Eq -> a = b.
Proof.
  unfold key_compare. destruct (Qcompare _ _); try discriminate.
  apply String.compare_eq_iff.
Qed.

(** The running maximum ends on an item that no item exceeds. *)
Lemma max_by_greatest (items : list string) : forall best,
  let r := max_by (key_gt received_quality) best items in
  In r (best :: items) /\
  forall t, In t (best :: items) -> cmp t r <> Gt.
Proof.
  induction items as [|item rest IH]; intro best; simpl.
  - split; [now left|]. intros t [<-|[]]. rewrite key_compare_refl.
    discriminate.
  - specialize (IH (if key_gt received_quality item best
                    then item else best)).
    cbv zeta in IH. destruct IH as [Hin Hmax].
    set (r := max_by _ _ rest) in *.
    unfold key_gt in *.
    destruct (cmp item best) eqn:E.
    + split; [destruct Hin as [<-|Hin]; auto|].
      intros t [<-|[<-|Ht]].
      * apply Hmax. now left.
      * apply key_compare_trans with best; [congruence|].
        apply Hmax. now left.
      * apply Hmax. now right.
    + split; [destruct Hin as [<-|Hin]; auto|].
      intros t [<-|[<-|Ht]].
      * apply Hmax. now left.
      * apply key_compare_trans with best; [congruence|].
        apply Hmax. now left.
      * apply Hmax. now right.
    + split; [destruct Hin as [<-|Hin]; auto|].
      intros t [<-|[<-|Ht]].
      * apply key_compare_trans with item.
        -- rewrite key_compare_antisym, E. discriminate.
        -- apply Hmax. now left.
      * apply Hmax. now left.
      * apply Hmax. now right.
Qed.

Lemma select_next_transmitter_greatest (eligible : list string) (t : string) :
  select_next_transmitter eligible received_quality = Some t ->
  In t eligible /\ forall x, In x eligible -> cmp x t <> Gt.
Proof.
  destruct eligible as [|first rest]; [discriminate|].
  intro H. injection H as <-. apply max_by_greatest.
Qed.

Lemma select_next_transmitter_none (eligible : list string) :
  select_next_transmitter eligible received_quality = None <->
  eligible = [].
Proof. destruct eligible; simpl; split; congruence. Qed.

(** The choice depends on the set of eligible towers only, not on the
    order in which they are listed. *)
Lemma select_next_transmitter_order (l1 l2 : list string) :
  (forall x, In x l1 <-> In x l2) ->
  select_next_transmitter l1 received_quality
  = select_next_transmitter l2 received_quality.
Proof.
  intro Hsame.
  destruct (select_next_transmitter l1 received_quality) as [t1|] eqn:E1;
    destruct (select_next_transmitter l2 received_quality) as [t2|] eqn:E2.
  - apply select_next_transmitter_greatest in E1, E2.
    destruct E1 as [In1 Max1], E2 as [In2 Max2].
    pose proof (Max1 t2 (proj2 (Hsame t2) In2)) as H21.
    pose proof (Max2 t1 (proj1 (Hsame t1) In1)) as H12.
    rewrite key_compare_antisym in H21.
    destruct (cmp t1 t2) eqn:E; simpl in *; try congruence.
    apply key_compare_eq in E. congruence.
  - apply select_next_transmitter_none in E2. subst l2.
    apply select_next_transmitter_greatest in E1.
    destruct E1 as [In1 _]. apply Hsame in In1. destruct In1.
  - apply select_next_transmitter_none in E1. subst l1.
    apply select_next_transmitter_greatest in E2.
    destruct E2 as [In2 _]. apply Hsame in In2. destruct In2.
  - reflexivity.
Qed.
End KeyOrder.

(** C1, amended. For every non-empty list of eligible towers and every
    received_quality map, [select_next_transmitter] returns an eligible
    tower of highest received_quality (absent towers count as 0.0), and
    among the eligible towers of that quality it returns the one with the
    lexicographically largest key. *)
Theorem select_next_transmitter_highest_quality
  (eligible : list string) (received_quality : Py.dict Q) :
  eligible <> [] ->
  exists chosen,
    select_next_transmitter eligible received_quality = Some chosen /\
    In chosen eligible /\
    (forall t, In t eligible ->
       (quality received_quality t <= quality received_quality chosen)%Q) /\
    (forall t, In t eligible ->
       (quality received_quality t == quality received_quality chosen)%Q ->
       String.leb t chosen = true).
Proof.
  intro Hne.
  destruct (select_next_transmitter eligible received_quality)
    as [chosen|] eqn:E.
  - exists chosen. split; [reflexivity|].
    apply select_next_transmitter_greatest in E. destruct E as [Hin Hmax].
    split; [exact Hin|]. split.
    + intros t Ht. apply (key_compare_not_gt received_quality t chosen).
      now apply Hmax.
    + intros t Ht Heq.
      pose proof (proj1 (key_compare_not_gt received_quality t chosen)
                    (Hmax t Ht)) as [_ Hs].
      specialize (Hs Heq). unfold String.leb.
      destruct (String.compare t chosen); congruence.
  - apply select_next_transmitter_none in E. contradiction.
Qed.

Lemma select_next_transmitter_highest_quality_witness :
  exists chosen,
    select_next_transmitter ["A"; "C"; "B"] [("A", 120%Q); ("C", 120%Q)]
    = Some chosen /\ chosen = "C".
Proof.
  destruct (select_next_transmitter_highest_quality
              ["A"; "C"; "B"] [("A", 120%Q); ("C", 120%Q)])
    as (chosen & Hsel & _); [discriminate|].
  exists chosen. split; [exact Hsel|].
  vm_compute in Hsel. congruence.
Defined.

(** C1 as stated fails when two eligible towers have equal quality: the
    larger key is chosen, not the smaller one. *)
Lemma select_next_transmitter_tie_counterexample :
  select_next_transmitter ["A"; "B"] [] = Some "B" /\
  ~ picks_smallest_key_on_ties ["A"; "B"] [] "B".
Proof.
  split; [reflexivity|].
  intros (_ & _ & Htie).
  specialize (Htie "A" (or_introl eq_refl)).
  assert (H : String.leb "B" "A" = true) by (apply Htie; reflexivity).
  vm_compute in H. discriminate.
Qed.

(** ** Airtime model *)

Lemma low_data_rate_opt_range (radio : RadioConfig) :
  (0 <= low_data_rate_opt radio <= 1)%Z.
Proof. unfold low_data_rate_opt. destruct (Py.Qltb _ _); lia. Qed.

(** C2, amended. For every radio configuration with spreading factor in
    7..12, positive bandwidth, coding-rate numerator in 5..8 and
    non-negative payload, [estimate_airtime_seconds] returns
    (preamble_symbols + 4.25 + 8 + max(ceil(numerator / denominator) *
    coding_rate, 0)) * 2^SF / (bandwidth_khz * 1000), where low_dr_opt is
    1 exactly when the symbol duration exceeds 0.016 s: the payload term
    is multiplied by coding_rate itself. *)
Theorem estimate_airtime_seconds_formula (radio : RadioConfig) :
  radio_in_range radio ->
  exists airtime,
    estimate_airtime_seconds radio = Some airtime /\
    (airtime == airtime_formula (coding_rate radio) radio)%Q /\
    (low_data_rate_opt radio = 1%Z <->
       (16 # 1000 < Qpower 2 (spreading_factor radio)
                    / inject_Z (bandwidth_khz radio * 1000))%Q).
Proof.
  intros (Hsf & Hbw & Hcr & _).
  pose proof (low_data_rate_opt_range radio) as Hldo.
  unfold estimate_airtime_seconds.
  assert (Hb : (bandwidth_hz radio =? 0)%Z = false)
    by (apply Z.eqb_neq; unfold bandwidth_hz; lia).
  assert (Hd : (denominator radio =? 0)%Z = false)
    by (apply Z.eqb_neq; unfold denominator; lia).
  rewrite Hb, Hd. eexists. split; [reflexivity|]. split.
  - unfold airtime_formula, payload_symbols, payload_term, symbol_duration,
      bandwidth_hz, numerator, denominator, low_data_rate_opt, cr_value,
      symbol_duration, bandwidth_hz.
    replace (Z.max (Z.min (coding_rate radio) 8) 5 - 4 + 4)%Z
      with (coding_rate radio) by lia.
    cbv zeta. rewrite inject_Z_plus. ring.
  - unfold low_data_rate_opt, symbol_duration, bandwidth_hz.
    destruct (Py.Qltb _ _) eqn:E.
    + apply Qltb_true in E. split; [intros _; exact E|reflexivity].
    + apply Qltb_false in E. split; [discriminate|].
      intro H. exfalso. exact (Qlt_not_le _ _ H E).
Qed.

Lemma estimate_airtime_seconds_formula_witness :
  radio_in_range longfast_radio /\
  exists airtime,
    estimate_airtime_seconds longfast_radio = Some airtime /\
    (airtime == 1394688 # 1000000)%Q.
Proof.
  assert (Hr : radio_in_range longfast_radio)
    by (unfold radio_in_range, longfast_radio; simpl; lia).
  split; [exact Hr|].
  destruct (estimate_airtime_seconds_formula longfast_radio Hr)
    as (airtime & Hsome & Heq & _).
  exists airtime. split; [exact Hsome|].
  rewrite Heq. vm_compute. reflexivity.
Defined.

(** C2 as stated fails on the LongFast preset: 150 payload symbols are
    counted, where the factor [coding_rate - 4] would give 30, and the
    airtime is 1.394688 s, not 0.411648 s. *)
Lemma estimate_airtime_seconds_factor_counterexample :
  radio_in_range longfast_radio /\
  payload_term longfast_radio = 150%Z /\
  exists airtime,
    estimate_airtime_seconds longfast_radio = Some airtime /\
    ~ (airtime
       == airtime_formula (coding_rate longfast_radio - 4) longfast_radio)%Q.
Proof.
  split; [unfold radio_in_range, longfast_radio; simpl; lia|].
  split; [vm_compute; reflexivity|].
  eexists. split; [vm_compute; reflexivity|].
  vm_compute. discriminate.
Qed.

(** ** Schedule builder *)

Lemma schedule_wave_labels (airtime_s : Q) (config : AnimationConfig)
  (hop_index : Z) (wave_start : Q) (wave : list string) :
  forall schedule current_time wave_time rng,
    map tower_and_hop
      (fst (fst (fst (schedule_wave airtime_s config hop_index wave_start
                        wave schedule current_time wave_time rng))))
    = map tower_and_hop schedule ++ map (fun t => (t, hop_index)) wave.
Proof.
  induction wave as [|tower rest IH];
    intros schedule current_time wave_time gen; simpl.
  - now rewrite app_nil_r.
  - rewrite IH, map_app, <- app_assoc. reflexivity.
Qed.

Lemma schedule_waves_labels (airtime_s : Q) (config : AnimationConfig)
  (waves : list (list string)) :
  forall i schedule current_time rng,
    map tower_and_hop
      (fst (schedule_waves airtime_s config (Z.of_nat i + 1) waves
              schedule current_time rng))
    = map tower_and_hop schedule ++ labelled_from i waves.
Proof.
  induction waves as [|wave rest IH];
    intros i schedule current_time gen; simpl.
  - now rewrite app_nil_r.
  - pose proof (schedule_wave_labels airtime_s config (Z.of_nat i + 1)
                  current_time wave schedule current_time 0%Q gen) as Hw.
    destruct (schedule_wave airtime_s config (Z.of_nat i + 1) current_time
                wave schedule current_time 0%Q gen)
      as [[[schedule' current'] wave_time] rng'].
    simpl in Hw.
    replace (Z.of_nat i + 1 + 1)%Z with (Z.of_nat (S i) + 1)%Z by lia.
    destruct (Py.Qltb wave_time (wave_min_s config)).
    + rewrite IH, Hw, <- app_assoc. reflexivity.
    + destruct (Py.Qltb wave_time (wave_max_s config)).
      * destruct (Py.uniform rng' 0 (wave_max_s config - wave_time)).
        rewrite IH, Hw, <- app_assoc. reflexivity.
      * rewrite IH, Hw, <- app_assoc. reflexivity.
Qed.

Lemma labelled_from_wave (waves : list (list string)) :
  forall base i wave t,
    nth_error waves i = Some wave -> In t wave ->
    In (t, Z.of_nat (base + i) + 1)%Z (labelled_from base waves).
Proof.
  induction waves as [|w rest IH]; intros base i wave t Hnth Hin.
  - destruct i; discriminate.
  - simpl. apply in_or_app. destruct i as [|i]; simpl in Hnth.
    + injection Hnth as ->. left. rewrite Nat.add_0_r.
      apply in_map_iff. exists t. split; [reflexivity|exact Hin].
    + right. specialize (IH (S base) i wave t Hnth Hin).
      replace (base + S i) with (S base + i) by lia.
      exact IH.
Qed.

(** C10. Every tuple [build_schedule] emits for a tower of [waves[i]]
    carries hop_index i+1: the schedule lists the towers wave by wave,
    each with its wave position plus one. The seed's wave is labelled 1,
    where the hop map built from the same waves assigns it 0. *)
Theorem build_schedule_hop_index (waves : list (list string))
  (airtime_s : Q) (config : AnimationConfig) (rng : Py.Random) :
  map tower_and_hop (fst (build_schedule waves airtime_s config rng))
  = labelled_from 0 waves /\
  (forall i wave t, nth_error waves i = Some wave -> In t wave ->
     In (t, Z.of_nat i + 1)%Z (labelled_from 0 waves)) /\
  labelled_from 0 [["A"]; ["B"; "C"]; ["D"]]
  = [("A", 1%Z); ("B", 2%Z); ("C", 2%Z); ("D", 3%Z)] /\
  build_tower_hops [["A"]; ["B"; "C"]; ["D"]]
  = [("A", 0%Z); ("B", 1%Z); ("C", 1%Z); ("D", 2%Z)].
Proof.
  split; [|split; [|split; reflexivity]].
  - unfold build_schedule.
    apply (schedule_waves_labels airtime_s config waves 0 [] 0%Q rng).
  - intros i wave t Hnth Hin.
    apply (labelled_from_wave waves 0 i wave t Hnth Hin).
Qed.

(** ** Sets and dictionaries *)

Lemma mem_In (x : string) (s : list string) : Py.mem x s = true <-> In x s.
Proof.
  unfold Py.mem. rewrite existsb_exists. split.
  - intros (y & Hy & E). apply String.eqb_eq in E. now subst.
  - intro H. exists x. split; [exact H|apply String.eqb_refl].
Qed.

Lemma mem_not_In (x : string) (s : list string) :
  Py.mem x s = false <-> ~ In x s.
Proof.
  rewrite <- mem_In. destruct (Py.mem x s); split; congruence.
Qed.

Lemma add_In (s : list string) (y x : string) :
  In x (Py.add s y) <-> In x s \/ x = y.
Proof.
  unfold Py.add. destruct (Py.mem y s) eqn:E.
  - apply mem_In in E. split; [now left|]. intros [H| ->]; assumption.
  - rewrite in_app_iff. simpl. intuition.
Qed.

Lemma add_NoDup (s : list string) (y : string) :
  NoDup s -> NoDup (Py.add s y).
Proof.
  intro H. unfold Py.add. destruct (Py.mem y s) eqn:E; [exact H|].
  apply mem_not_In in E.
  apply NoDup_app; [exact H|repeat constructor; intros []|].
  intros x Hx [<-|[]]. contradiction.
Qed.

(** ** Wave builder *)

Section Waves.
Variable adjacency : Py.dict (list string).
Variable seed_h3 : string.

Abbreviation adj u := (Py.get_default adjacency u []).
Abbreviation dist := (bfs_distance adjacency seed_h3).
Abbreviation reach := (walk adjacency seed_h3).
Abbreviation level := (wave_level adjacency seed_h3).

Lemma visit_neighbors_spec (neighbors : list string) :
  forall visited next_wave visited' next_wave',
    visit_neighbors neighbors visited next_wave = (visited', next_wave') ->
    NoDup next_wave -> incl next_wave visited ->
    (forall x, In x visited' <-> In x visited \/ In x neighbors) /\
    (forall x, In x next_wave' <->
       In x next_wave \/ (In x neighbors /\ ~ In x visited)) /\
    NoDup next_wave' /\ incl next_wave' visited'.
Proof.
  induction neighbors as [|n rest IH]; intros visited next visited' next' H Hnd Hincl.
  - injection H as <- <-. repeat split; simpl; try tauto; assumption.
  - simpl in H. destruct (Py.mem n visited) eqn:E.
    + apply mem_In in E.
      destruct (IH _ _ _ _ H Hnd Hincl) as (Hv & Hn & Hnd' & Hincl').
      repeat split; try assumption.
      * rewrite Hv. simpl. tauto.
      * rewrite Hv. simpl. intros [Hx|[<-|Hx]]; tauto.
      * rewrite Hn. simpl. tauto.
      * rewrite Hn. simpl. intros [Hx|[[<-|Hx] Hnot]]; tauto.
    + apply mem_not_In in E.
      assert (Hnd1 : NoDup (next ++ [n])).
      { apply NoDup_app; [exact Hnd|repeat constructor; intros []|].
        intros x Hx [<-|[]]. apply E. now apply Hincl. }
      assert (Hincl1 : incl (next ++ [n]) (Py.add visited n)).
      { intros x Hx. apply add_In. apply in_app_iff in Hx.
        destruct Hx as [Hx|[<-|[]]]; [left; now apply Hincl|now right]. }
      destruct (IH _ _ _ _ H Hnd1 Hincl1) as (Hv & Hn & Hnd' & Hincl').
      repeat split; try assumption.
      * rewrite Hv, add_In. simpl. intuition.
      * rewrite Hv, add_In. simpl. intuition.
      * rewrite Hn, in_app_iff, add_In. simpl.
        intros [[Hx|[<-|[]]]|[Hx Hnot]]; intuition.
      * rewrite Hn, in_app_iff, add_In. simpl.
        intros [Hx|[[<-|Hx] Hnot]]; [tauto|tauto|].
        destruct (string_dec x n) as [->|Hne]; [tauto|].
        right. split; [exact Hx|]. intros [Hv'|Hv']; tauto.
Qed.

Lemma expand_wave_spec (current_wave : list string) :
  forall visited next_wave visited' next_wave',
    expand_wave adjacency current_wave visited next_wave
    = (visited', next_wave') ->
    NoDup next_wave -> incl next_wave visited ->
    (forall x, In x visited' <->
       In x visited \/ exists u, In u current_wave /\ In x (adj u)) /\
    (forall x, In x next_wave' <->
       In x next_wave \/
       ((exists u, In u current_wave /\ In x (adj u)) /\ ~ In x visited)) /\
    NoDup next_wave' /\ incl next_wave' visited'.
Proof.
  induction current_wave as [|t rest IH];
    intros visited next visited' next' H Hnd Hincl.
  - injection H as <- <-. repeat split; simpl; try tauto; try assumption.
    + intros [Hx|(u & [] & _)]. exact Hx.
    + intros [Hx|[(u & [] & _) _]]. exact Hx.
  - simpl in H.
    destruct (visit_neighbors (adj t) visited next) as [v1 n1] eqn:E1.
    destruct (visit_neighbors_spec _ _ _ _ _ E1 Hnd Hincl)
      as (Hv1 & Hn1 & Hnd1 & Hincl1).
    destruct (IH _ _ _ _ H Hnd1 Hincl1) as (Hv & Hn & Hnd' & Hincl').
    repeat split; try assumption.
    + rewrite Hv, Hv1. intros [[Hx|Hx]|(u & Hu & Hx)].
      * now left.
      * right. exists t. split; [now left|exact Hx].
      * right. exists u. split; [now right|exact Hx].
    + rewrite Hv, Hv1. intros [Hx|(u & [<-|Hu] & Hx)].
      * left. now left.
      * left. now right.
      * right. exists u. split; assumption.
    + rewrite Hn, Hn1, Hv1.
      intros [[Hx|[Hx Hnot]]|[(u & Hu & Hx) Hnot]].
      * now left.
      * right. split; [|exact Hnot]. exists t. split; [now left|exact Hx].
      * right. split; [|tauto]. exists u. split; [now right|exact Hx].
    + rewrite Hn, Hn1, Hv1.
      intros [Hx|[(u & [<-|Hu] & Hx) Hnot]].
      * left. now left.
      * left. right. split; assumption.
      * destruct (in_dec string_dec x (adj t)) as [Hxt|Hxt].
        -- left. right. split; assumption.
        -- right. split; [exists u; split; assumption|tauto].
Qed.

Lemma level_start : level 0 [seed_h3] [seed_h3].
Proof.
  split; [|split].
  - intro x. split.
    + intros [<-|[]]. split; [constructor|]. intros n Hn. lia.
    + intros [H _]. inversion H. now left.
  - intro x. split.
    + intros [<-|[]]. exists 0. split; [lia|constructor].
    + intros (n & Hn & H). assert (n = 0) by lia. subst.
      inversion H. now left.
  - repeat constructor. intros [].
Qed.

Lemma level_next (i : nat) (visited current_wave visited' next_wave : list string) :
  level i visited current_wave ->
  expand_wave adjacency current_wave visited [] = (visited', next_wave) ->
  level (S i) visited' next_wave.
Proof.
  intros (Hcur & Hvis & Hnd) H.
  destruct (expand_wave_spec _ _ _ _ _ H (NoDup_nil _) (incl_nil_l _))
    as (Hv & Hn & Hnd' & _).
  assert (Hnew : forall x, ~ In x visited ->
            (exists u, In u current_wave /\ In x (adj u)) <-> reach (S i) x).
  { intros x Hnot. split.
    - intros (u & Hu & Hx). apply Hcur in Hu. destruct Hu as [Hu _].
      econstructor; eassumption.
    - intro Hw. inversion Hw as [|n u v Hu Hx]; subst.
      exists u. split; [|exact Hx]. apply Hcur. split; [exact Hu|].
      intros n Hlt Hshort. apply Hnot. apply Hvis.
      exists (S n). split; [lia|]. econstructor; eassumption. }
  split; [|split].
  - intro x. split.
    + intro Hx. apply Hn in Hx. destruct Hx as [[]|[Hex Hnot]]. split.
      * now apply Hnew.
      * intros n Hlt Hshort. apply Hnot. apply Hvis.
        exists n. split; [lia|exact Hshort].
    + intros [Hw Hmin]. apply Hn. right.
      assert (Hnot : ~ In x visited).
      { intro Hx. apply Hvis in Hx. destruct Hx as (n & Hle & Hx).
        apply (Hmin n); [lia|exact Hx]. }
      split; [|exact Hnot]. now apply Hnew.
  - intro x. split.
    + intro Hx. apply Hv in Hx. destruct Hx as [Hx|Hex].
      * apply Hvis in Hx. destruct Hx as (n & Hle & Hx).
        exists n. split; [lia|exact Hx].
      * destruct (in_dec string_dec x visited) as [Hin|Hnot].
        -- apply Hvis in Hin. destruct Hin as (n & Hle & Hx).
           exists n. split; [lia|exact Hx].
        -- exists (S i). split; [lia|]. now apply Hnew.
    + intros (n & Hle & Hx). apply Hv.
      destruct (in_dec string_dec x visited) as [Hin|Hnot]; [now left|].
      right. apply Hnew; [exact Hnot|].
      destruct (Nat.eq_dec n (S i)) as [->|Hne]; [exact Hx|].
      exfalso. apply Hnot. apply Hvis. exists n. split; [lia|exact Hx].
  - exact Hnd'.
Qed.

Lemma waves_loop_acc (iterations : nat) :
  forall waves visited current_wave,
    waves_loop iterations adjacency waves visited current_wave
    = waves ++ waves_loop iterations adjacency [] visited current_wave.
Proof.
  induction iterations as [|k IH]; intros waves visited current; simpl.
  - now rewrite app_nil_r.
  - destruct (expand_wave adjacency current visited []) as [v n].
    destruct n as [|y n]; [reflexivity|].
    rewrite (IH (waves ++ [current])), (IH [current]), app_assoc.
    reflexivity.
Qed.

Lemma waves_loop_levels (iterations : nat) :
  forall i visited current_wave,
    level i visited current_wave ->
    forall j wave,
      nth_error (waves_loop iterations adjacency [] visited current_wave) j
      = Some wave ->
      (forall x, In x wave <-> dist x (i + j)) /\ NoDup wave.
Proof.
  induction iterations as [|k IH]; intros i visited current Hlev j wave Hj.
  - destruct j; discriminate.
  - simpl in Hj.
    destruct (expand_wave adjacency current visited []) as [v n] eqn:E.
    pose proof (level_next _ _ _ _ _ Hlev E) as Hnext.
    assert (Hhere : j = 0 -> wave = current ->
              (forall x, In x wave <-> dist x (i + j)) /\ NoDup wave).
    { intros -> ->. rewrite Nat.add_0_r. destruct Hlev as (Hc & _ & Hnd).
      split; assumption. }
    destruct n as [|y n].
    + destruct j as [|[|j]]; try discriminate.
      injection Hj as <-. now apply Hhere.
    + rewrite waves_loop_acc in Hj. destruct j as [|j].
      * injection Hj as <-. now apply Hhere.
      * simpl in Hj. replace (i + S j) with (S i + j) by lia.
        eapply IH; eassumption.
Qed.

Lemma waves_loop_length (iterations : nat) :
  forall visited current_wave,
    List.length (waves_loop iterations adjacency [] visited current_wave)
    <= iterations.
Proof.
  induction iterations as [|k IH]; intros visited current; simpl.
  - lia.
  - destruct (expand_wave adjacency current visited []) as [v n].
    destruct n as [|y n]; [simpl; lia|].
    rewrite waves_loop_acc. simpl. specialize (IH v (y :: n)). lia.
Qed.

Lemma dist_unique (x : string) (d1 d2 : nat) :
  dist x d1 -> dist x d2 -> d1 = d2.
Proof.
  intros [H1 M1] [H2 M2].
  destruct (Nat.lt_trichotomy d1 d2) as [Hlt|[Heq|Hgt]]; [|exact Heq|].
  - exfalso. exact (M2 d1 Hlt H1).
  - exfalso. exact (M1 d2 Hgt H2).
Qed.

Lemma ranked_waves_NoDup (waves : list (list string)) :
  forall base,
    (forall j wave, nth_error waves j = Some wave ->
       (forall x, In x wave <-> dist x (base + j)) /\ NoDup wave) ->
    NoDup (List.concat waves).
Proof.
  induction waves as [|w rest IH]; intros base H; simpl.
  - constructor.
  - destruct (H 0 w eq_refl) as [Hw Hnd].
    apply NoDup_app; [exact Hnd| |].
    + apply (IH (S base)). intros j wave Hj.
      replace (S base + j) with (base + S j) by lia.
      apply (H (S j) wave Hj).
    + intros x Hx Hin. apply in_concat in Hin.
      destruct Hin as (w' & Hw' & Hx').
      apply In_nth_error in Hw'. destruct Hw' as [j Hj].
      destruct (H (S j) w' Hj) as [Hw'' _].
      apply Hw in Hx. apply Hw'' in Hx'.
      pose proof (dist_unique _ _ _ Hx Hx'). lia.
Qed.
End Waves.

(** C7. For every adjacency graph and every hop limit, [build_waves]
    places each tower in at most one wave, and a tower is in the wave of
    index i exactly when its BFS distance from the seed is i; there are at
    most hop_limit+1 waves. For seed A, adjacency {A:[B,C], B:[A,D],
    C:[A], D:[B]} and hop_limit 3 the waves are [[A],[B,C],[D]] and the
    hop map derived from them is {A:0, B:1, C:1, D:2}. *)
Theorem build_waves_bfs (seed_h3 : string)
  (adjacency : Py.dict (list string)) (hop_limit : Z) :
  NoDup (List.concat (build_waves seed_h3 adjacency hop_limit)) /\
  (forall i wave,
     nth_error (build_waves seed_h3 adjacency hop_limit) i = Some wave ->
     forall t, In t wave <-> bfs_distance adjacency seed_h3 t i) /\
  (Z.of_nat (List.length (build_waves seed_h3 adjacency hop_limit))
   <= Z.max (hop_limit + 1) 0)%Z /\
  build_waves "A" diamond_adjacency 3 = [["A"]; ["B"; "C"]; ["D"]] /\
  build_tower_hops (build_waves "A" diamond_adjacency 3)
  = [("A", 0%Z); ("B", 1%Z); ("C", 1%Z); ("D", 2%Z)].
Proof.
  unfold build_waves.
  pose proof (waves_loop_levels adjacency seed_h3
                (Z.to_nat (hop_limit + 1)) 0 [seed_h3] [seed_h3]
                (level_start adjacency seed_h3)) as Hlev.
  split; [|split; [|split; [|split; reflexivity]]].
  - apply (ranked_waves_NoDup adjacency seed_h3 _ 0). exact Hlev.
  - intros i wave Hi. apply (Hlev i wave Hi).
  - pose proof (waves_loop_length adjacency (Z.to_nat (hop_limit + 1))
                  [seed_h3] [seed_h3]). lia.
Qed.

(** ** The dry pass *)

Lemma filter_split_perm {A : Type} (p : A -> bool) (l : list A) :
  Permutation l (filter p l ++ filter (fun x => negb (p x)) l).
Proof.
  induction l as [|a l IH]; simpl; [constructor|].
  destruct (p a); simpl.
  - now constructor.
  - apply Permutation_cons_app. exact IH.
Qed.

Lemma lifecycle_facts (active_towers completed started transmitted : list string) :
  lifecycle active_towers completed started transmitted ->
  NoDup active_towers /\ NoDup completed /\
  (forall t, In t active_towers -> ~ In t transmitted).
Proof.
  intros (Hperm & Hnd & Htx).
  assert (Hall : NoDup (active_towers ++ completed)).
  { eapply Permutation_NoDup; [apply Permutation_sym; exact Hperm|exact Hnd]. }
  split; [eapply NoDup_app_remove_r; exact Hall|].
  split; [eapply NoDup_app_remove_l; exact Hall|].
  intros t Ha Ht. apply Htx in Ht.
  revert Hall Ha Ht. clear. induction active_towers as [|a l IH]; simpl.
  - intros _ [].
  - intros Hall [->|Ha] Ht.
    + inversion Hall as [|? ? Hnot _]; subst. apply Hnot.
      apply in_or_app. now right.
    + inversion Hall; subst. now apply IH.
Qed.

Lemma lifecycle_start (active_towers completed started transmitted : list string)
  (t : string) :
  lifecycle active_towers completed started transmitted ->
  ~ In t active_towers -> ~ In t transmitted ->
  lifecycle (active_towers ++ [t]) completed (started ++ [t]) transmitted.
Proof.
  intros (Hperm & Hnd & Htx) Ha Ht. split; [|split; [|exact Htx]].
  - rewrite <- app_assoc.
    apply Permutation_trans with ((active_towers ++ completed) ++ [t]).
    + rewrite <- app_assoc. apply Permutation_app_head.
      apply Permutation_app_comm.
    + apply Permutation_app_tail. exact Hperm.
  - apply NoDup_app; [exact Hnd|repeat constructor; intros []|].
    intros x Hx [<-|[]].
    apply (Permutation_in _ (Permutation_sym Hperm)) in Hx.
    apply in_app_or in Hx. destruct Hx as [Hx|Hx]; [now apply Ha|].
    apply Ht. now apply Htx.
Qed.

Lemma lifecycle_finish (finished active_towers completed started transmitted
                          : list string) :
  lifecycle (finished ++ active_towers) completed started transmitted ->
  lifecycle active_towers (completed ++ finished) started
    (fold_left Py.add finished transmitted).
Proof.
  revert completed transmitted.
  induction finished as [|t rest IH]; intros completed transmitted H; simpl.
  - rewrite app_nil_r. exact H.
  - replace (completed ++ t :: rest) with ((completed ++ [t]) ++ rest)
      by (rewrite <- app_assoc; reflexivity).
    apply IH. destruct H as (Hperm & Hnd & Htx).
    split; [|split; [exact Hnd|]].
    + eapply Permutation_trans; [|exact Hperm]. simpl.
      rewrite !app_assoc. apply Permutation_sym.
      apply Permutation_cons_app. rewrite app_nil_r. reflexivity.
    + intro x. rewrite add_In, in_app_iff, Htx. simpl. intuition.
Qed.

Section DryPassFacts.
Variable tower_visibility : Py.dict (list (string * Q)).
Variable visible_cells : Py.dict (list (string * Q)).
Variable population : Py.dict Q.
Variable tower_hops : Py.dict Z.
Variable animation : AnimationConfig.
Variable airtime_s : Q.
Variable max_frames : Z.

Abbreviation body order :=
  (frame_body tower_visibility visible_cells population tower_hops animation
     airtime_s max_frames order).
Abbreviation run order :=
  (run_frames tower_visibility visible_cells population tower_hops animation
     airtime_s max_frames order).

Lemma run_frames_S (order : Z -> list string -> list string) (n : nat) :
  forall st,
    run order (S n) st
    = (let (st', stop) := run order n st in
       if stop then (st', true) else body order st').
Proof.
  induction n as [|n IH]; intro st.
  - cbn [run_frames]. destruct (body order st) as [st' []]; reflexivity.
  - change (run order (S (S n)) st)
      with (let (st', stop) := body order st in
            if stop then (st', true) else run order (S n) st').
    change (run order (S n) st)
      with (let (st', stop) := body order st in
            if stop then (st', true) else run order n st').
    destruct (body order st) as [st' []]; [reflexivity|]. apply IH.
Qed.

(** A property kept by every iteration holds all along the run. *)
Lemma run_frames_invariant (order : Z -> list string -> list string)
  (P : SimState -> Prop) :
  (forall st, P st -> P (fst (body order st))) ->
  forall n st, P st -> P (fst (run order n st)).
Proof.
  intros Hstep n. induction n as [|n IH]; intros st H; [exact H|].
  cbn [run_frames]. specialize (Hstep st H).
  destruct (body order st) as [st' []]; cbn [fst] in *; [exact Hstep|].
  now apply IH.
Qed.

(** *** Finalization *)

Lemma finalize_all_fields (finished : list Transmission) : forall st,
  let st' := fold_left finalize finished st in
  active_transmissions st' = active_transmissions st /\
  started st' = started st /\
  rng st' = rng st /\ frame st' = frame st /\
  max_population st' = max_population st /\
  completed st' = completed st ++ map tx_tower_h3 finished /\
  transmitted_towers st'
  = fold_left Py.add (map tx_tower_h3 finished) (transmitted_towers st).
Proof.
  induction finished as [|t rest IH]; intro st; cbn [fold_left map].
  - rewrite app_nil_r. repeat split; reflexivity.
  - destruct (IH (finalize st t)) as (Ha & Hs & Hr & Hf & Hm & Hc & Ht).
    cbv zeta. rewrite Ha, Hs, Hr, Hf, Hm, Hc, Ht. unfold finalize.
    cbn [active_transmissions started rng frame max_population completed
         transmitted_towers fold_left].
    rewrite <- app_assoc. repeat split; reflexivity.
Qed.
(** *** Each tower transmits once *)

Lemma eligible_towers_In (order : Z -> list string -> list string)
  (st : SimState) (active_towers blocked_towers : list string) (t : string) :
  In t (eligible_towers tower_hops order st active_towers blocked_towers) <->
  In t (order (frame st) (received_towers st)) /\
  Py.contains tower_hops t = true /\
  ~ In t (transmitted_towers st) /\
  ~ In t active_towers /\ ~ In t blocked_towers.
Proof.
  unfold eligible_towers. rewrite filter_In, !andb_true_iff, !negb_true_iff,
    !mem_not_In. tauto.
Qed.

Lemma start_transmission_lifecycle (st : SimState) (frame_time : Q)
  (next_tower : string) :
  dry_lifecycle st ->
  ~ In next_tower (map tx_tower_h3 (active_transmissions st)) ->
  ~ In next_tower (transmitted_towers st) ->
  dry_lifecycle
    (start_transmission tower_visibility visible_cells animation airtime_s
       st frame_time next_tower).
Proof.
  intros H Ha Ht. unfold start_transmission.
  destruct (String.eqb next_tower ""); [exact H|].
  unfold dry_lifecycle in *.
  cbn [Py.uniform active_transmissions completed started transmitted_towers].
  rewrite !map_app. cbn [map tx_tower_h3 event_tower fst].
  now apply lifecycle_start.
Qed.

Lemma lifecycle_perm (a a' completed started transmitted : list string) :
  Permutation a' a ->
  lifecycle a completed started transmitted ->
  lifecycle a' completed started transmitted.
Proof.
  intros Hp (Hperm & Hnd & Htx). split; [|split; assumption].
  eapply Permutation_trans; [|exact Hperm].
  apply Permutation_app_tail. exact Hp.
Qed.

Lemma frame_body_lifecycle (order : Z -> list string -> list string)
  (st : SimState) :
  dry_lifecycle st -> dry_lifecycle (fst (body order st)).
Proof.
  intro H. unfold frame_body. cbv zeta. cbn [fst].
  set (frame_time := (inject_Z (frame st) / inject_Z (fps animation))%Q).
  set (finished := filter (fun t => Qle_bool (tx_end t) frame_time)
                     (active_transmissions st)).
  set (active := filter (fun t => Py.Qltb frame_time (tx_end t))
                   (active_transmissions st)).
  set (st0 := {| received_cells := received_cells st;
                 received_towers := received_towers st;
                 received_quality := received_quality st;
                 transmitted_towers := transmitted_towers st;
                 active_transmissions := active;
                 max_population := max_population st;
                 frame := frame st; rng := rng st;
                 started := started st; completed := completed st |}).
  set (st1 := fold_left finalize finished st0).
  assert (H1 : dry_lifecycle st1).
  { destruct (finalize_all_fields finished st0)
      as (Ha & Hs & _ & _ & _ & Hc & Ht).
    unfold dry_lifecycle. fold st1 in Ha, Hs, Hc, Ht.
    rewrite Ha, Hs, Hc, Ht. cbn [st0 active_transmissions started completed
                                   transmitted_towers].
    apply lifecycle_finish.
    apply lifecycle_perm with (map tx_tower_h3 (active_transmissions st));
      [|exact H].
    rewrite <- map_app. apply Permutation_map. apply Permutation_sym.
    apply (filter_split_perm (fun t => Qle_bool (tx_end t) frame_time)). }
  assert (Hact : active_transmissions st1 = active).
  { destruct (finalize_all_fields finished st0) as (Ha & _). exact Ha. }
  set (st2 := if (0 <? frame st)%Z then _ else st1).
  assert (H2 : dry_lifecycle st2).
  { unfold st2. destruct (0 <? frame st)%Z; [|exact H1].
    destruct (select_next_transmitter _ _) as [next|] eqn:E; [|exact H1].
    apply select_next_transmitter_greatest in E. destruct E as [Hin _].
    apply eligible_towers_In in Hin.
    destruct Hin as (_ & _ & Hnt & Hna & _).
    apply start_transmission_lifecycle; [exact H1| |exact Hnt].
    rewrite Hact. exact Hna. }
  exact H2.
Qed.

Lemma initial_state_lifecycle (seed_h3 : string) (gen : Py.Random) :
  dry_lifecycle (initial_state seed_h3 gen).
Proof.
  split; [constructor|]. split; [constructor|]. intro t. reflexivity.
Qed.
(** *** Received cells only grow *)

Lemma keys_set_extends {V : Type} (d : Py.dict V) (k : string) (v : V) :
  exists extra, Py.keys (Py.set d k v) = Py.keys d ++ extra.
Proof.
  unfold Py.keys. induction d as [|[k' v'] rest IH]; simpl.
  - now exists [k].
  - destruct (String.eqb k' k); simpl.
    + exists []. now rewrite app_nil_r.
    + destruct IH as [extra IH]. exists extra. now rewrite IH.
Qed.

Lemma commit_cell_extends (d : Py.dict Q) (entry : string * Q) :
  exists extra, Py.keys (commit_cell d entry) = Py.keys d ++ extra.
Proof.
  unfold commit_cell. destruct entry as [cell_h3 path_loss_db].
  destruct (Py.get d cell_h3) as [best|].
  - destruct (Py.Qltb path_loss_db best); [apply keys_set_extends|].
    exists []. now rewrite app_nil_r.
  - apply keys_set_extends.
Qed.

Lemma commit_cells_extends (entries : list (string * Q)) : forall d,
  exists extra,
    Py.keys (fold_left commit_cell entries d) = Py.keys d ++ extra.
Proof.
  induction entries as [|e rest IH]; intro d; simpl.
  - exists []. now rewrite app_nil_r.
  - destruct (IH (commit_cell d e)) as [x1 H1].
    destruct (commit_cell_extends d e) as [x2 H2].
    exists (x2 ++ x1). now rewrite H1, H2, app_assoc.
Qed.

Lemma finalize_all_extends (finished : list Transmission) : forall st,
  exists extra,
    Py.keys (received_cells (fold_left finalize finished st))
    = Py.keys (received_cells st) ++ extra.
Proof.
  induction finished as [|t rest IH]; intro st; cbn [fold_left].
  - exists []. now rewrite app_nil_r.
  - destruct (IH (finalize st t)) as [x1 H1].
    destruct (commit_cells_extends (tx_cell_losses t) (received_cells st))
      as [x2 H2].
    exists (x2 ++ x1). rewrite H1. unfold finalize.
    cbn [received_cells]. now rewrite H2, app_assoc.
Qed.

Lemma start_transmission_cells (st : SimState) (frame_time : Q)
  (next_tower : string) :
  received_cells
    (start_transmission tower_visibility visible_cells animation airtime_s
       st frame_time next_tower)
  = received_cells st.
Proof.
  unfold start_transmission. destruct (String.eqb next_tower ""); reflexivity.
Qed.

Lemma frame_body_extends (order : Z -> list string -> list string)
  (st : SimState) :
  exists extra,
    Py.keys (received_cells (fst (body order st)))
    = Py.keys (received_cells st) ++ extra.
Proof.
  unfold frame_body. cbv zeta. cbn [fst received_cells].
  match goal with
  | |- context [fold_left finalize ?f ?s0] =>
      destruct (finalize_all_extends f s0) as [extra He];
      set (st1 := fold_left finalize f s0) in *
  end.
  cbn [received_cells] in He. exists extra. rewrite <- He.
  destruct (0 <? frame st)%Z; [|reflexivity].
  destruct (select_next_transmitter _ _); [|reflexivity].
  now rewrite start_transmission_cells.
Qed.

Lemma fold_Qplus_grows (xs : list Q) : forall a,
  (forall x, In x xs -> (0 <= x)%Q) -> (a <= fold_left Qplus xs a)%Q.
Proof.
  induction xs as [|x rest IH]; intros a Hpos; simpl.
  - apply Qle_refl.
  - eapply Qle_trans; [|apply IH; intros y Hy; apply Hpos; now right].
    rewrite <- (Qplus_0_r a) at 1. apply Qplus_le_r. apply Hpos. now left.
Qed.

Lemma cumulative_population_extends (cells : Py.dict Q) (cells' : Py.dict Q) :
  nonnegative population ->
  (exists extra, Py.keys cells' = Py.keys cells ++ extra) ->
  (cumulative_population population cells
   <= cumulative_population population cells')%Q.
Proof.
  intros Hpos [extra He]. unfold cumulative_population, Py.sum.
  rewrite He, map_app, fold_left_app. apply fold_Qplus_grows.
  intros x Hx. apply in_map_iff in Hx. destruct Hx as (k & <- & _).
  unfold Py.get_default. destruct (Py.get population k) eqn:E.
  - exact (Hpos _ _ E).
  - apply Qle_refl.
Qed.

(** *** The iteration order of the set does not matter *)

Lemma frame_body_order (order1 order2 : Z -> list string -> list string)
  (st : SimState) :
  visits_each_once order1 -> visits_each_once order2 ->
  body order1 st = body order2 st.
Proof.
  intros V1 V2. unfold frame_body. cbv zeta.
  match goal with
  | |- context [select_next_transmitter
                  (eligible_towers _ order1 ?s ?a ?b) ?q] =>
      assert (E : select_next_transmitter
                    (eligible_towers tower_hops order1 s a b) q
                  = select_next_transmitter
                      (eligible_towers tower_hops order2 s a b) q)
  end.
  { apply select_next_transmitter_order. intro x.
    rewrite !eligible_towers_In.
    assert (Hio : forall f l, In x (order1 f l) <-> In x (order2 f l)).
    { intros f l. split; intro Hx.
      - eapply Permutation_in; [apply Permutation_sym, V2|].
        eapply Permutation_in; [apply V1|exact Hx].
      - eapply Permutation_in; [apply Permutation_sym, V1|].
        eapply Permutation_in; [apply V2|exact Hx]. }
    rewrite Hio. reflexivity. }
  rewrite E. reflexivity.
Qed.

Lemma run_frames_order (order1 order2 : Z -> list string -> list string) :
  visits_each_once order1 -> visits_each_once order2 ->
  forall n st, run order1 n st = run order2 n st.
Proof.
  intros V1 V2 n. induction n as [|n IH]; intro st; [reflexivity|].
  cbn [run_frames]. rewrite (frame_body_order order1 order2 st V1 V2).
  destruct (body order2 st) as [st' []]; [reflexivity|apply IH].
Qed.
End DryPassFacts.

(** ** The render pass *)

Section RenderPassFacts.
Variable seed_h3 : string.
Variable tower_visibility : Py.dict (list (string * Q)).
Variable visible_cells : Py.dict (list (string * Q)).
Variable tower_hops : Py.dict Z.
Variable animation : AnimationConfig.
Variable airtime_s : Q.
Variable order : Z -> list string -> list string.

Abbreviation render_body :=
  (Render.frame_body seed_h3 tower_visibility visible_cells tower_hops
     animation airtime_s order).

Lemma render_finalize_fields (t : Render.Transmission) (st : Render.State) :
  Render.active_transmissions (Render.finalize st t)
  = Render.active_transmissions st /\
  Render.started (Render.finalize st t) = Render.started st /\
  Render.completed (Render.finalize st t)
  = Render.completed st ++ [Render.tx_tower_h3 t] /\
  Render.transmitted_towers (Render.finalize st t)
  = Py.add (Render.transmitted_towers st) (Render.tx_tower_h3 t).
Proof.
  unfold Render.finalize.
  destruct (fold_left (Render.commit_neighbor _ _) _ _) as [[[? ?] ?] ?].
  repeat split; reflexivity.
Qed.

Lemma render_finalize_all_fields (finished : list Render.Transmission) :
  forall st,
    Render.active_transmissions (fold_left Render.finalize finished st)
    = Render.active_transmissions st /\
    Render.started (fold_left Render.finalize finished st)
    = Render.started st /\
    Render.completed (fold_left Render.finalize finished st)
    = Render.completed st ++ map Render.tx_tower_h3 finished /\
    Render.transmitted_towers (fold_left Render.finalize finished st)
    = fold_left Py.add (map Render.tx_tower_h3 finished)
        (Render.transmitted_towers st).
Proof.
  induction finished as [|t rest IH]; intro st; cbn [fold_left map].
  - rewrite app_nil_r. repeat split; reflexivity.
  - destruct (IH (Render.finalize st t)) as (Ha & Hs & Hc & Ht).
    destruct (render_finalize_fields t st) as (Ha1 & Hs1 & Hc1 & Ht1).
    rewrite Ha, Hs, Hc, Ht, Ha1, Hs1, Hc1, Ht1, <- app_assoc.
    repeat split; reflexivity.
Qed.

Lemma render_eligible_towers_In (f : Z) (st : Render.State)
  (active_towers blocked_towers : list string) (t : string) :
  In t (Render.eligible_towers tower_hops order f st active_towers
          blocked_towers) ->
  ~ In t (Render.transmitted_towers st) /\ ~ In t active_towers.
Proof.
  unfold Render.eligible_towers.
  rewrite filter_In, !andb_true_iff, !negb_true_iff, !mem_not_In. tauto.
Qed.

Lemma render_start_lifecycle (f : Z) (st : Render.State) (frame_time : Q)
  (next_tower : string) :
  Render.lifecycle_holds st ->
  ~ In next_tower (map Render.tx_tower_h3 (Render.active_transmissions st)) ->
  ~ In next_tower (Render.transmitted_towers st) ->
  Render.lifecycle_holds
    (Render.start_transmission seed_h3 tower_visibility visible_cells
       tower_hops animation airtime_s f st frame_time next_tower).
Proof.
  intros H Ha Ht. unfold Render.start_transmission.
  destruct (String.eqb next_tower ""); [exact H|].
  destruct (fold_left _ _ _) as [tiered cell_tiers].
  unfold Render.lifecycle_holds in *.
  cbn [Py.uniform Render.active_transmissions Render.completed
       Render.started Render.transmitted_towers].
  rewrite !map_app. cbn [map Render.tx_tower_h3 event_tower fst].
  now apply lifecycle_start.
Qed.

Lemma fold_add_In (xs : list string) : forall s x,
  In x (fold_left Py.add xs s) <-> In x s \/ In x xs.
Proof.
  induction xs as [|y rest IH]; intros s x; simpl; [tauto|].
  rewrite IH, add_In. intuition.
Qed.

Lemma render_frame_body_lifecycle (st : Render.State) (f : Z) :
  Render.lifecycle_holds st -> Render.lifecycle_holds (render_body st f).
Proof.
  intro H. unfold Render.frame_body. cbv zeta.
  set (frame_time := (inject_Z f / inject_Z (fps animation))%Q).
  set (finished := filter (fun t => Qle_bool (Render.tx_end t) frame_time)
                     (Render.active_transmissions st)).
  set (active := match finished with
                 | [] => Render.active_transmissions st
                 | _ :: _ => filter (fun t => Py.Qltb frame_time (Render.tx_end t))
                               (Render.active_transmissions st)
                 end).
  match goal with
  | |- context [fold_left Render.finalize finished ?s0] =>
      set (st0 := s0); set (st1 := fold_left Render.finalize finished st0)
  end.
  assert (Hsplit : Permutation
                     (map Render.tx_tower_h3 finished
                      ++ map Render.tx_tower_h3 active)
                     (map Render.tx_tower_h3 (Render.active_transmissions st))).
  { unfold active. destruct finished as [|t0 rest] eqn:E.
    - reflexivity.
    - rewrite <- E. rewrite <- map_app. apply Permutation_map.
      apply Permutation_sym.
      apply (filter_split_perm
               (fun t => Qle_bool (Render.tx_end t) frame_time)). }
  destruct (render_finalize_all_fields finished st0) as (Ha & Hs & Hc & Ht).
  fold st1 in Ha, Hs, Hc, Ht.
  cbn [st0 Render.active_transmissions Render.started Render.completed
       Render.transmitted_towers] in Ha, Hs, Hc, Ht.
  assert (H1 : Render.lifecycle_holds st1).
  { unfold Render.lifecycle_holds. rewrite Ha, Hs, Hc, Ht.
    apply lifecycle_finish.
    eapply lifecycle_perm; [exact Hsplit|exact H]. }
  set (st2 := if (0 <? f)%Z then _ else st1).
  assert (H2 : Render.lifecycle_holds st2).
  { unfold st2. destruct (0 <? f)%Z; [|exact H1].
    destruct (select_next_transmitter _ _) as [next|] eqn:E; [|exact H1].
    apply select_next_transmitter_greatest in E. destruct E as [Hin _].
    apply render_eligible_towers_In in Hin. destruct Hin as (Hnt & Hna).
    apply render_start_lifecycle; [exact H1| |exact Hnt].
    rewrite Ha. intro Hx. apply Hna. apply fold_add_In. now right. }
  exact H2.
Qed.

Lemma render_frames_lifecycle (n : nat) (gen : Py.Random) :
  Render.lifecycle_holds
    (Render.render_frames seed_h3 tower_visibility visible_cells tower_hops
       animation airtime_s order n (Render.initial_state seed_h3 gen)).
Proof.
  induction n as [|n IH].
  - split; [constructor|]. split; [constructor|]. intro t. reflexivity.
  - cbn [Render.render_frames]. now apply render_frame_body_lifecycle.
Qed.
End RenderPassFacts.

(** ** Properties of whole runs *)

Lemma get_In {V : Type} (d : Py.dict V) (k : string) (v : V) :
  Py.get d k = Some v -> In (k, v) d.
Proof.
  induction d as [|[k' v'] rest IH]; simpl; [discriminate|].
  destruct (String.eqb k' k) eqn:E.
  - apply String.eqb_eq in E. subst. intro H. injection H as ->. now left.
  - intro H. right. now apply IH.
Qed.

Lemma sample_population_nonnegative : nonnegative sample_population.
Proof.
  intros cell value H. apply get_In in H. unfold sample_population in H.
  simpl in H.
  destruct H as [H|[H|[H|[]]]]; injection H as _ <-; discriminate.
Qed.

Lemma as_listed_visits_each_once : visits_each_once as_listed.
Proof. intros f s. apply Permutation_refl. Qed.

Lemma reversed_visits_each_once : visits_each_once reversed.
Proof. intros f s. apply Permutation_sym, Permutation_rev. Qed.

(** C3. Two runs of [simulate_propagation] on the same inputs, each with
    a fresh random source of the same seed, go through the same states,
    whatever the order in which each run iterates over the set
    [received_towers]: they start the same towers at the same frames
    with the same durations and return the same frame count and the same
    maximum population. *)
Theorem simulate_propagation_deterministic (seed_h3 : string)
  (tower_visibility visible_cells : Py.dict (list (string * Q)))
  (population : Py.dict Q) (tower_hops : Py.dict Z)
  (animation : AnimationConfig) (airtime_s : Q) (max_frames : Z)
  (order1 order2 : Z -> list string -> list string)
  (gen : Py.Random) (n : nat) :
  visits_each_once order1 -> visits_each_once order2 ->
  started (dry_run seed_h3 tower_visibility visible_cells population
             tower_hops animation airtime_s max_frames order1 gen n)
  = started (dry_run seed_h3 tower_visibility visible_cells population
               tower_hops animation airtime_s max_frames order2 gen n) /\
  dry_run seed_h3 tower_visibility visible_cells population tower_hops
    animation airtime_s max_frames order1 gen n
  = dry_run seed_h3 tower_visibility visible_cells population tower_hops
      animation airtime_s max_frames order2 gen n /\
  simulate_propagation seed_h3 tower_visibility visible_cells population
    tower_hops animation airtime_s max_frames order1 gen n
  = simulate_propagation seed_h3 tower_visibility visible_cells population
      tower_hops animation airtime_s max_frames order2 gen n.
Proof.
  intros V1 V2. unfold dry_run, simulate_propagation.
  rewrite (run_frames_order tower_visibility visible_cells population
             tower_hops animation airtime_s max_frames order1 order2 V1 V2).
  repeat split; reflexivity.
Qed.

Lemma simulate_propagation_deterministic_witness :
  visits_each_once as_listed /\ visits_each_once reversed /\
  simulate_propagation "A" sample_visibility sample_cells sample_population
    sample_hops sample_animation (14 # 10) 0 as_listed sample_rng 400
  = simulate_propagation "A" sample_visibility sample_cells sample_population
      sample_hops sample_animation (14 # 10) 0 reversed sample_rng 400.
Proof.
  split; [exact as_listed_visits_each_once|].
  split; [exact reversed_visits_each_once|].
  apply (simulate_propagation_deterministic "A" sample_visibility
           sample_cells sample_population sample_hops sample_animation
           (14 # 10) 0 as_listed reversed sample_rng 400
           as_listed_visits_each_once reversed_visits_each_once).
Defined.

(** C4. Throughout every run of the simulator, dry pass and render pass
    alike, each tower is added to [transmitted_towers] at most once and
    starts at most one transmission, the towers on air are pairwise
    distinct, and at no frame boundary is the transmitter of an entry of
    [active_transmissions] a member of [transmitted_towers]. *)
Theorem each_tower_transmits_at_most_once (seed_h3 : string)
  (tower_visibility visible_cells : Py.dict (list (string * Q)))
  (population : Py.dict Q) (tower_hops : Py.dict Z)
  (animation : AnimationConfig) (airtime_s : Q) (max_frames : Z)
  (order : Z -> list string -> list string) (gen : Py.Random) (n : nat) :
  (NoDup (completed
            (dry_run seed_h3 tower_visibility visible_cells population
               tower_hops animation airtime_s max_frames order gen n)) /\
   NoDup (map event_tower
            (started
               (dry_run seed_h3 tower_visibility visible_cells population
                  tower_hops animation airtime_s max_frames order gen n))) /\
   NoDup (map tx_tower_h3
            (active_transmissions
               (dry_run seed_h3 tower_visibility visible_cells population
                  tower_hops animation airtime_s max_frames order gen n))) /\
   forall t,
     In t (active_transmissions
             (dry_run seed_h3 tower_visibility visible_cells population
                tower_hops animation airtime_s max_frames order gen n)) ->
     ~ In (tx_tower_h3 t)
         (transmitted_towers
            (dry_run seed_h3 tower_visibility visible_cells population
               tower_hops animation airtime_s max_frames order gen n))) /\
  (NoDup (Render.completed
            (render_run seed_h3 tower_visibility visible_cells tower_hops
               animation airtime_s order gen n)) /\
   NoDup (map event_tower
            (Render.started
               (render_run seed_h3 tower_visibility visible_cells tower_hops
                  animation airtime_s order gen n))) /\
   NoDup (map Render.tx_tower_h3
            (Render.active_transmissions
               (render_run seed_h3 tower_visibility visible_cells tower_hops
                  animation airtime_s order gen n))) /\
   forall t,
     In t (Render.active_transmissions
             (render_run seed_h3 tower_visibility visible_cells tower_hops
                animation airtime_s order gen n)) ->
     ~ In (Render.tx_tower_h3 t)
         (Render.transmitted_towers
            (render_run seed_h3 tower_visibility visible_cells tower_hops
               animation airtime_s order gen n))).
Proof.
  split.
  - assert (H : dry_lifecycle
                  (dry_run seed_h3 tower_visibility visible_cells population
                     tower_hops animation airtime_s max_frames order gen n)).
    { unfold dry_run. apply run_frames_invariant.
      - intros st. apply frame_body_lifecycle.
      - apply initial_state_lifecycle. }
    destruct (lifecycle_facts _ _ _ _ H) as (Ha & Hc & Hdis).
    destruct H as (_ & Hs & _).
    repeat split; try assumption.
    intros t Ht. apply Hdis. now apply in_map.
  - pose proof (render_frames_lifecycle seed_h3 tower_visibility
                  visible_cells tower_hops animation airtime_s order n gen)
      as H.
    destruct (lifecycle_facts _ _ _ _ H) as (Ha & Hc & Hdis).
    destruct H as (_ & Hs & _).
    repeat split; try assumption.
    intros t Ht. apply Hdis. now apply in_map.
Qed.

(** C6. Within a run of [simulate_propagation] whose population map
    has only non-negative values, the cumulative population reached (the
    sum of population over the received cells) never decreases from one
    frame to the next. *)
Theorem cumulative_population_non_decreasing (seed_h3 : string)
  (tower_visibility visible_cells : Py.dict (list (string * Q)))
  (population : Py.dict Q) (tower_hops : Py.dict Z)
  (animation : AnimationConfig) (airtime_s : Q) (max_frames : Z)
  (order : Z -> list string -> list string) (gen : Py.Random) (n : nat) :
  nonnegative population ->
  (cumulative_population population
     (received_cells
        (dry_run seed_h3 tower_visibility visible_cells population
           tower_hops animation airtime_s max_frames order gen n))
   <= cumulative_population population
        (received_cells
           (dry_run seed_h3 tower_visibility visible_cells population
              tower_hops animation airtime_s max_frames order gen (S n))))%Q.
Proof.
  intro Hpos. unfold dry_run. rewrite run_frames_S.
  destruct (run_frames _ _ _ _ _ _ _ _ n _) as [st stop].
  destruct stop; cbn [fst]; [apply Qle_refl|].
  apply cumulative_population_extends; [exact Hpos|].
  apply frame_body_extends.
Qed.

Lemma cumulative_population_non_decreasing_witness :
  nonnegative sample_population /\
  (cumulative_population sample_population
     (received_cells
        (dry_run "A" sample_visibility sample_cells sample_population
           sample_hops sample_animation (14 # 10) 0 as_listed sample_rng 39))
   <= cumulative_population sample_population
        (received_cells
           (dry_run "A" sample_visibility sample_cells sample_population
              sample_hops sample_animation (14 # 10) 0 as_listed sample_rng
              40)))%Q.
Proof.
  split; [exact sample_population_nonnegative|].
  apply (cumulative_population_non_decreasing "A" sample_visibility
           sample_cells sample_population sample_hops sample_animation
           (14 # 10) 0 as_listed sample_rng 39
           sample_population_nonnegative).
Defined.

(** ** The lone seed *)

Lemma build_waves_no_adjacency (seed_h3 : string) (hop_limit : Z) :
  (0 <= hop_limit)%Z ->
  build_waves seed_h3 (adjacency_of []) hop_limit = [[seed_h3]].
Proof.
  intro H. unfold build_waves.
  destruct (Z.to_nat (hop_limit + 1)) as [|k] eqn:E; [lia|reflexivity].
Qed.

Lemma get_keys_None {V : Type} (d : Py.dict V) (k : string) :
  Py.get d k = None <-> ~ In k (Py.keys d).
Proof.
  unfold Py.keys. induction d as [|[k' v'] rest IH]; simpl.
  - tauto.
  - destruct (String.eqb k' k) eqn:E.
    + apply String.eqb_eq in E. split; [discriminate|tauto].
    + apply String.eqb_neq in E. rewrite IH. tauto.
Qed.

Lemma keys_set {V : Type} (d : Py.dict V) (k : string) (v : V) :
  Py.keys (Py.set d k v) = Py.add (Py.keys d) k.
Proof.
  unfold Py.keys, Py.add. induction d as [|[k' v'] rest IH]; simpl.
  - reflexivity.
  - rewrite (String.eqb_sym k k').
    destruct (String.eqb k' k) eqn:E; simpl; [reflexivity|].
    rewrite IH. destruct (Py.mem k (map fst rest)); reflexivity.
Qed.

Lemma commit_cell_keys (d : Py.dict Q) (entry : string * Q) :
  Py.keys (commit_cell d entry) = Py.add (Py.keys d) (fst entry).
Proof.
  destruct entry as [c pl]. unfold commit_cell. cbn [fst].
  destruct (Py.get d c) as [best|] eqn:E.
  - destruct (Py.Qltb pl best); [apply keys_set|].
    unfold Py.add.
    assert (Hin : Py.mem c (Py.keys d) = true).
    { destruct (Py.mem c (Py.keys d)) eqn:M; [reflexivity|].
      apply mem_not_In, get_keys_None in M. congruence. }
    now rewrite Hin.
  - apply keys_set.
Qed.

Lemma commit_cells_keys (entries : list (string * Q)) : forall d,
  Py.keys (fold_left commit_cell entries d)
  = fold_left Py.add (map fst entries) (Py.keys d).
Proof.
  induction entries as [|e rest IH]; intro d; simpl; [reflexivity|].
  now rewrite IH, commit_cell_keys.
Qed.

(** ** The lone seed: the run itself *)

(** Unfolds one iteration of the loop on a state given field by field. *)
Ltac frame_step :=
  unfold frame_body, eligible_towers; cbv zeta;
  cbn [filter fold_left map flat_map app fst snd negb andb orb forallb
       received_cells received_towers received_quality transmitted_towers
       active_transmissions max_population frame rng started completed
       Z.ltb Z.leb Z.eqb Z.compare Z.add Pos.add Pos.compare Pos.succ].

Section LoneSeed.
Variable seed_h3 : string.
Variable visible_cells : Py.dict (list (string * Q)).
Variable population : Py.dict Q.
Variable animation : AnimationConfig.
Variable airtime_s : Q.
Variable order : Z -> list string -> list string.
Variable gen : Py.Random.
Hypothesis seed_named : seed_h3 <> "".
Hypothesis order_fair : visits_each_once order.

Abbreviation lone_body :=
  (frame_body [] visible_cells population [(seed_h3, 0%Z)] animation
     airtime_s 0 order).
Abbreviation lone_run :=
  (run_frames [] visible_cells population [(seed_h3, 0%Z)] animation
     airtime_s 0 order).
Abbreviation lone_cells := (Py.get_default visible_cells seed_h3 []).
Abbreviation lone_duration :=
  (airtime_s + fst (Py.uniform gen 0 (jitter_s animation)))%Q.
Abbreviation lone_state :=
  (on_air seed_h3 animation lone_cells lone_duration
     (snd (Py.uniform gen 0 (jitter_s animation)))).

Lemma order_singleton (f : Z) : order f [seed_h3] = [seed_h3].
Proof.
  apply Permutation_length_1_inv. apply Permutation_sym. apply order_fair.
Qed.

Lemma seed_has_hop : Py.contains [(seed_h3, 0%Z)] seed_h3 = true.
Proof. unfold Py.contains, Py.get. now rewrite String.eqb_refl. Qed.

Lemma seed_not_empty : String.eqb seed_h3 "" = false.
Proof. now apply String.eqb_neq. Qed.

(** Frame 0 is idle and the loop goes on; at frame 1 the seed starts. *)
Lemma lone_first_frames :
  lone_run 1 (initial_state seed_h3 gen)
  = ({| received_cells := [];
        received_towers := [seed_h3];
        received_quality := [(seed_h3, 0%Q)];
        transmitted_towers := [];
        active_transmissions := [];
        max_population := 0%Q;
        frame := 1%Z;
        rng := gen;
        started := [];
        completed := [] |}, false) /\
  lone_run 2 (initial_state seed_h3 gen) = (lone_state 2%Z, false).
Proof.
  assert (H0 : lone_body (initial_state seed_h3 gen)
               = ({| received_cells := [];
                     received_towers := [seed_h3];
                     received_quality := [(seed_h3, 0%Q)];
                     transmitted_towers := [];
                     active_transmissions := [];
                     max_population := 0%Q;
                     frame := 1%Z;
                     rng := gen;
                     started := [];
                     completed := [] |}, false)).
  { unfold frame_body, initial_state. cbn -[Qdiv inject_Z].
    now rewrite seed_has_hop. }
  split; cbn [run_frames]; rewrite H0; [reflexivity|].
  frame_step. rewrite order_singleton.
  cbn [filter Py.mem existsb negb andb]. rewrite seed_has_hop.
  cbn [andb select_next_transmitter max_by].
  unfold start_transmission. rewrite seed_not_empty.
  unfold Py.uniform. frame_step.
  change (cumulative_population population []) with 0%Q.
  change (Py.max2 0 0) with 0%Q.
  reflexivity.
Qed.

(** While the transmission is on air nothing else can start. *)
Lemma lone_waiting (f : Z) :
  (0 < f)%Z ->
  Qle_bool (tx_end (lone_transmission seed_h3 animation lone_cells
                      lone_duration))
    (inject_Z f / inject_Z (fps animation)) = false ->
  lone_body (lone_state f) = (lone_state (f + 1)%Z, false).
Proof.
  intros Hf Hend. assert (Hpos : (0 <? f)%Z = true) by now apply Z.ltb_lt.
  unfold on_air. frame_step. unfold Py.Qltb. rewrite Hend.
  frame_step. rewrite Hpos, order_singleton.
  cbn [filter Py.mem existsb negb andb orb tx_tower_h3 lone_transmission].
  rewrite String.eqb_refl, seed_has_hop.
  cbn [negb andb orb select_next_transmitter active_transmissions
       received_cells max_population frame rng started completed
       received_towers received_quality transmitted_towers].
  change (cumulative_population population []) with 0%Q.
  change (Py.max2 0 0) with 0%Q.
  rewrite andb_false_r. reflexivity.
Qed.

(** The frame at which the transmission has ended commits its cells and
    leaves the loop. *)
Lemma lone_finishing (f : Z) :
  (0 < f)%Z ->
  Qle_bool (tx_end (lone_transmission seed_h3 animation lone_cells
                      lone_duration))
    (inject_Z f / inject_Z (fps animation)) = true ->
  exists final,
    lone_body (lone_state f) = (final, true) /\
    frame final = (f + 1)%Z /\
    started final = [(seed_h3, 1%Z, lone_duration)] /\
    completed final = [seed_h3] /\
    max_population final
    = Py.max2 0 (population_of population lone_cells).
Proof.
  intros Hf Hend. assert (Hpos : (0 <? f)%Z = true) by now apply Z.ltb_lt.
  assert (Hbody : lone_body (lone_state f)
            = ({| received_cells := fold_left commit_cell lone_cells [];
                  received_towers := [seed_h3];
                  received_quality := [(seed_h3, 0%Q)];
                  transmitted_towers := [seed_h3];
                  active_transmissions := [];
                  max_population :=
                    Py.max2 0
                      (cumulative_population population
                         (fold_left commit_cell lone_cells []));
                  frame := (f + 1)%Z;
                  rng := snd (Py.uniform gen 0 (jitter_s animation));
                  started := [(seed_h3, 1%Z, lone_duration)];
                  completed := [seed_h3] |}, true)).
  { unfold on_air. frame_step. unfold Py.Qltb. rewrite Hend.
    frame_step. unfold finalize, lone_transmission.
    cbn [tx_tower_h3 tx_cell_losses tx_audible_pairs tx_audible_towers
         fold_left fst snd app Py.add Py.mem existsb
         received_cells received_towers received_quality transmitted_towers
         active_transmissions max_population frame rng started completed].
    rewrite Hpos, order_singleton.
    cbn [filter Py.mem existsb]. rewrite String.eqb_refl, seed_has_hop.
    cbn [negb andb orb select_next_transmitter forallb Py.mem existsb
         received_cells received_towers received_quality transmitted_towers
         active_transmissions max_population frame rng started completed].
    rewrite String.eqb_refl. cbn [negb andb orb]. rewrite andb_true_r.
    assert (Hp : (0 <? f + 1)%Z = true) by (apply Z.ltb_lt; lia).
    rewrite Hp. reflexivity. }
  eexists. split; [exact Hbody|]. split; [reflexivity|].
  split; [reflexivity|]. split; [reflexivity|].
  cbn [max_population]. unfold cumulative_population, population_of,
    distinct_cells. now rewrite commit_cells_keys.
Qed.

(** From a frame [f] at which the transmission is on air the loop
    leaves at the first frame [last] whose time has reached the end of
    the transmission. *)
Lemma lone_runs_out (k : nat) : forall f,
  (0 < f)%Z ->
  Qle_bool (tx_end (lone_transmission seed_h3 animation lone_cells
                      lone_duration))
    (inject_Z (f + Z.of_nat k) / inject_Z (fps animation)) = true ->
  exists fuel last final,
    lone_run fuel (lone_state f) = (final, true) /\
    (f <= last)%Z /\
    Qle_bool (tx_end (lone_transmission seed_h3 animation lone_cells
                        lone_duration))
      (inject_Z last / inject_Z (fps animation)) = true /\
    (forall g, (f <= g < last)%Z ->
       Qle_bool (tx_end (lone_transmission seed_h3 animation lone_cells
                           lone_duration))
         (inject_Z g / inject_Z (fps animation)) = false) /\
    frame final = (last + 1)%Z /\
    started final = [(seed_h3, 1%Z, lone_duration)] /\
    completed final = [seed_h3] /\
    max_population final
    = Py.max2 0 (population_of population lone_cells).
Proof.
  induction k as [|k IH]; intros f Hf Hend.
  - rewrite Z.add_0_r in Hend.
    destruct (lone_finishing f Hf Hend)
      as (final & Hb & Hfr & Hst & Hco & Hmax).
    exists 1, f, final. cbn [run_frames]. rewrite Hb.
    split; [reflexivity|]. split; [lia|]. split; [exact Hend|].
    split; [intros g Hg; lia|]. tauto.
  - destruct (Qle_bool
                (tx_end (lone_transmission seed_h3 animation lone_cells
                           lone_duration))
                (inject_Z f / inject_Z (fps animation))) eqn:E.
    + destruct (lone_finishing f Hf E)
        as (final & Hb & Hfr & Hst & Hco & Hmax).
      exists 1, f, final. cbn [run_frames]. rewrite Hb.
      split; [reflexivity|]. split; [lia|]. split; [exact E|].
      split; [intros g Hg; lia|]. tauto.
    + replace (f + Z.of_nat (S k))%Z with (f + 1 + Z.of_nat k)%Z in Hend
        by lia.
      destruct (IH (f + 1)%Z ltac:(lia) Hend)
        as (fuel & last & final & Hrun & Hle & Hlast & Hmin & Hrest).
      exists (S fuel), last, final. cbn [run_frames].
      rewrite (lone_waiting f Hf E).
      split; [exact Hrun|]. split; [lia|]. split; [exact Hlast|].
      split; [|exact Hrest].
      intros g Hg. destruct (Z.eq_dec g f) as [-> | Hne]; [exact E|].
      apply Hmin. lia.
Qed.

Lemma lone_transmission_ends :
  (0 < fps animation)%Z ->
  exists k,
    Qle_bool (tx_end (lone_transmission seed_h3 animation lone_cells
                        lone_duration))
      (inject_Z (2 + Z.of_nat k) / inject_Z (fps animation)) = true.
Proof.
  intro Hfps.
  set (e := tx_end (lone_transmission seed_h3 animation lone_cells
                      lone_duration)).
  exists (Z.to_nat (Qceiling (e * inject_Z (fps animation)))).
  apply Qle_bool_iff. apply Qle_shift_div_l.
  - change 0%Q with (inject_Z 0). rewrite <- Zlt_Qlt. exact Hfps.
  - eapply Qle_trans; [apply Qle_ceiling|]. rewrite <- Zle_Qle. lia.
Qed.

(** The whole run of the lone seed. *)
Lemma lone_seed_returns :
  (0 < fps animation)%Z ->
  exists fuel last,
    simulate_propagation seed_h3 [] visible_cells population
      [(seed_h3, 0%Z)] animation airtime_s 0 order gen fuel
    = Returned (last + 1)
        (Py.max2 0 (population_of population lone_cells)) /\
    (2 <= last)%Z /\
    (inject_Z 1 / inject_Z (fps animation) + lone_duration
     <= inject_Z last / inject_Z (fps animation))%Q /\
    (forall g, (2 <= g < last)%Z ->
       (inject_Z g / inject_Z (fps animation)
        < inject_Z 1 / inject_Z (fps animation) + lone_duration)%Q) /\
    started (fst (lone_run fuel (initial_state seed_h3 gen)))
    = [(seed_h3, 1%Z, lone_duration)] /\
    completed (fst (lone_run fuel (initial_state seed_h3 gen)))
    = [seed_h3].
Proof.
  intro Hfps. destruct lone_first_frames as [H1 H2].
  destruct (lone_transmission_ends Hfps) as [k Hk].
  destruct (lone_runs_out k 2%Z ltac:(lia) Hk)
    as (fuel & last & final & Hrun & Hle & Hlast & Hmin & Hfr & Hst & Hco
        & Hmax).
  assert (Hall : lone_run (S (S fuel)) (initial_state seed_h3 gen)
                 = (final, true)).
  { cbn [run_frames] in H2 |- *.
    destruct (lone_body (initial_state seed_h3 gen)) as [s0 [|]];
      [discriminate|].
    destruct (lone_body s0) as [s1 [|]]; [discriminate|].
    injection H2 as ->. exact Hrun. }
  exists (S (S fuel)), last. split; [|split; [exact Hle|split; [|split]]].
  - unfold simulate_propagation.
    assert (Hz : (fps animation =? 0)%Z = false) by (apply Z.eqb_neq; lia).
    rewrite Hz, Hall, Hmax, Hfr. reflexivity.
  - apply Qle_bool_iff. exact Hlast.
  - intros g Hg. apply Qle_bool_false. now apply Hmin.
  - rewrite Hall. split; [exact Hst|exact Hco].
Qed.
End LoneSeed.

Lemma population_of_nonnegative (population : Py.dict Q)
  (cells : list (string * Q)) :
  nonnegative population -> (0 <= population_of population cells)%Q.
Proof.
  intro Hpos. unfold population_of, Py.sum. apply fold_Qplus_grows.
  intros x Hx. apply in_map_iff in Hx. destruct Hx as (k & <- & _).
  unfold Py.get_default. destruct (Py.get population k) eqn:E.
  - exact (Hpos _ _ E).
  - apply Qle_refl.
Qed.




(** * Further properties of the code *)

(** ** Tiers *)

Lemma assign_tier_from_shift (v : Q) (ths : list Q) : forall index,
  assign_tier_from index v ths = index + assign_tier_from 0 v ths.
Proof.
  induction ths as [|t rest IH]; intro index; simpl.
  - lia.
  - destruct (Qle_bool v t); [lia|].
    rewrite (IH (S index)), (IH 1). lia.
Qed.

Lemma assign_tier_cons (v t : Q) (rest : list Q) :
  assign_tier v (t :: rest)
  = if Qle_bool v t then 0 else S (assign_tier v rest).
Proof.
  unfold assign_tier. simpl. destruct (Qle_bool v t); [reflexivity|].
  now rewrite assign_tier_from_shift.
Qed.

(** X1. A higher path loss never gets a lower tier: [assign_tier] is
    monotone in the path loss, whatever the thresholds. *)
Theorem assign_tier_monotone (v1 v2 : Q) (thresholds : list Q) :
  (v1 <= v2)%Q ->
  assign_tier v1 thresholds <= assign_tier v2 thresholds.
Proof.
  intro Hle. induction thresholds as [|t rest IH].
  - reflexivity.
  - rewrite !assign_tier_cons.
    destruct (Qle_bool v1 t) eqn:E1; [lia|].
    destruct (Qle_bool v2 t) eqn:E2; [|lia].
    exfalso. apply Qle_bool_false in E1. apply Qle_bool_iff in E2.
    apply (Qlt_not_le _ _ E1). eapply Qle_trans; eassumption.
Qed.

Lemma assign_tier_monotone_witness :
  (105 <= 125)%Q /\
  assign_tier 105 [100; 110; 120; 130; 140; 150]%Q
  <= assign_tier 125 [100; 110; 120; 130; 140; 150]%Q.
Proof.
  assert (H : (105 <= 125)%Q) by (unfold Qle; simpl; lia).
  split; [exact H|].
  exact (assign_tier_monotone 105 125 [100; 110; 120; 130; 140; 150]%Q H).
Defined.

Lemma interleave_tier (v : Q) (l : list Q) :
  Sorted Qle l ->
  assign_tier v l = (assign_tier v (interleave l) + 1) / 2.
Proof.
  induction l as [|a l IH]; intro Hs.
  - reflexivity.
  - destruct l as [|b r].
    + simpl interleave. rewrite assign_tier_cons.
      destruct (Qle_bool v a); reflexivity.
    + change (interleave (a :: b :: r))
        with (a :: ((a + b) / 2)%Q :: interleave (b :: r)).
      inversion Hs as [|? ? Hs' Hhd]; subst.
      inversion Hhd as [|? ? Hab]; subst.
      destruct (midpoint_between a b Hab) as [_ Hmb].
      rewrite (assign_tier_cons v a (b :: r)).
      rewrite (assign_tier_cons v a (_ :: _)).
      destruct (Qle_bool v a) eqn:Ea; [reflexivity|].
      rewrite (assign_tier_cons v ((a + b) / 2)%Q).
      destruct (Qle_bool v ((a + b) / 2)%Q) eqn:Em.
      * rewrite assign_tier_cons.
        assert (Eb : Qle_bool v b = true).
        { apply Qle_bool_iff. apply Qle_bool_iff in Em.
          eapply Qle_trans; eassumption. }
        rewrite Eb. reflexivity.
      * rewrite (IH Hs').
        set (k := assign_tier v (interleave (b :: r))).
        replace (S (S k) + 1) with (k + 1 + 1 * 2) by lia.
        rewrite Nat.div_add by lia. lia.
Qed.

(** X2. On ascending thresholds the fine classification refines the
    coarse one: the coarse tier of a path loss is the fine tier, plus
    one, halved; so fine tiers 2k-1 and 2k both lie in coarse tier k. *)
Theorem fine_tier_refines_coarse (v : Q) (thresholds : list Q) :
  Sorted Qle thresholds ->
  assign_tier v thresholds
  = (assign_tier v (build_fine_thresholds thresholds) + 1) / 2.
Proof.
  intro Hs. unfold build_fine_thresholds.
  destruct thresholds as [|a [|b r]].
  - reflexivity.
  - cbn [List.length Nat.ltb Nat.leb]. rewrite assign_tier_cons.
    destruct (Qle_bool v a); reflexivity.
  - cbn [List.length Nat.ltb Nat.leb]. now apply interleave_tier.
Qed.

Lemma fine_tier_refines_coarse_witness :
  Sorted Qle [112; 118; 124; 130; 136; 142]%Q /\
  assign_tier 127 [112; 118; 124; 130; 136; 142]%Q = 3 /\
  assign_tier 127 (build_fine_thresholds [112; 118; 124; 130; 136; 142]%Q)
  = 5.
Proof.
  assert (Hs : Sorted Qle [112; 118; 124; 130; 136; 142]%Q)
    by (repeat (constructor; try (unfold Qle; simpl; lia))).
  split; [exact Hs|].
  pose proof (fine_tier_refines_coarse 127 _ Hs) as H.
  split; [|reflexivity]. rewrite H. reflexivity.
Defined.

(** ** Airtime *)

Lemma symbol_duration_positive (radio : RadioConfig) :
  (0 < bandwidth_khz radio)%Z -> (0 < symbol_duration radio)%Q.
Proof.
  intro Hbw. unfold symbol_duration, Qdiv. apply Qmult_lt_0_compat.
  - apply Qpower_0_lt. reflexivity.
  - apply Qinv_lt_0_compat. change 0%Q with (inject_Z 0).
    rewrite <- Zlt_Qlt. unfold bandwidth_hz. lia.
Qed.

(** For SF 0 and SF 2 a symbol lasts at most 4 ms on any non-zero
    bandwidth, so the low-data-rate optimisation stays off. *)
Lemma low_data_rate_opt_short_symbol (radio : RadioConfig) :
  bandwidth_khz radio <> 0%Z ->
  spreading_factor radio = 0%Z \/ spreading_factor radio = 2%Z ->
  low_data_rate_opt radio = 0%Z.
Proof.
  intros Hbw Hsf. unfold low_data_rate_opt.
  assert (E : Py.Qltb (16 # 1000) (symbol_duration radio) = false).
  { apply Qltb_false. unfold symbol_duration, bandwidth_hz.
    destruct (bandwidth_khz radio) as [|p|p]; [congruence| |];
      destruct Hsf as [-> | ->]; unfold Qle; simpl; lia. }
  now rewrite E.
Qed.

(** X3. [estimate_airtime_seconds] fails with a division by zero exactly
    when the bandwidth is 0 or the spreading factor is 0 (spreading
    factors between -1000 and 1000, where the power does not overflow);
    every other configuration gets an airtime. *)
Theorem estimate_airtime_seconds_division_by_zero (radio : RadioConfig) :
  (-1000 <= spreading_factor radio <= 1000)%Z ->
  (estimate_airtime_seconds radio = None <->
   bandwidth_khz radio = 0%Z \/ spreading_factor radio = 0%Z).
Proof.
  intros _. unfold estimate_airtime_seconds.
  destruct (Z.eq_dec (bandwidth_khz radio) 0) as [Hbw|Hbw].
  - assert (E : (bandwidth_hz radio =? 0)%Z = true)
      by (apply Z.eqb_eq; unfold bandwidth_hz; lia).
    rewrite E. split; [now left|reflexivity].
  - assert (E : (bandwidth_hz radio =? 0)%Z = false)
      by (apply Z.eqb_neq; unfold bandwidth_hz; lia).
    rewrite E. pose proof (low_data_rate_opt_range radio) as Hr.
    destruct (denominator radio =? 0)%Z eqn:Ed.
    + apply Z.eqb_eq in Ed. unfold denominator in Ed.
      split; [intros _|reflexivity]. right.
      destruct (Z.eq_dec (spreading_factor radio) 2) as [H2|H2].
      * pose proof (low_data_rate_opt_short_symbol radio Hbw (or_intror H2)).
        lia.
      * lia.
    + apply Z.eqb_neq in Ed. unfold denominator in Ed.
      split; [discriminate|]. intros [H|H]; [contradiction|].
      pose proof (low_data_rate_opt_short_symbol radio Hbw (or_introl H)).
      lia.
Qed.

Lemma estimate_airtime_seconds_division_by_zero_witness :
  (-1000 <= spreading_factor (with_payload_bytes
                                {| spreading_factor := 0; bandwidth_khz := 250;
                                   coding_rate := 5; payload_bytes := 160;
                                   preamble_symbols := 8; crc_enabled := 1;
                                   implicit_header := 0 |} 160) <= 1000)%Z /\
  estimate_airtime_seconds
    (with_payload_bytes
       {| spreading_factor := 0; bandwidth_khz := 250; coding_rate := 5;
          payload_bytes := 160; preamble_symbols := 8; crc_enabled := 1;
          implicit_header := 0 |} 160) = None.
Proof.
  split; [simpl; lia|].
  apply estimate_airtime_seconds_division_by_zero; [simpl; lia|].
  right. reflexivity.
Defined.

Lemma payload_term_nonnegative (radio : RadioConfig) :
  (0 <= payload_term radio)%Z.
Proof. unfold payload_term. lia. Qed.

(** X4. For a radio configuration in range with a non-negative preamble
    length the airtime is strictly positive: it is at least the 12.25
    fixed symbols plus the preamble, times the symbol duration. *)
Theorem estimate_airtime_seconds_positive (radio : RadioConfig) :
  radio_in_range radio -> (0 <= preamble_symbols radio)%Z ->
  exists airtime,
    estimate_airtime_seconds radio = Some airtime /\
    (0 < airtime)%Q /\
    ((inject_Z (preamble_symbols radio) + (49 # 4)) * symbol_duration radio
     <= airtime)%Q.
Proof.
  intros (Hsf & Hbw & Hcr & Hpl) Hpre.
  pose proof (low_data_rate_opt_range radio) as Hldo.
  pose proof (symbol_duration_positive radio Hbw) as Hsym.
  pose proof (payload_term_nonnegative radio) as Hpt.
  unfold estimate_airtime_seconds.
  assert (Hb : (bandwidth_hz radio =? 0)%Z = false)
    by (apply Z.eqb_neq; unfold bandwidth_hz; lia).
  assert (Hd : (denominator radio =? 0)%Z = false)
    by (apply Z.eqb_neq; unfold denominator; lia).
  rewrite Hb, Hd. eexists. split; [reflexivity|].
  assert (Hlow : (inject_Z (preamble_symbols radio) + (49 # 4)
                  <= inject_Z (preamble_symbols radio) + (17 # 4)
                     + inject_Z (payload_symbols radio))%Q).
  { unfold payload_symbols. rewrite inject_Z_plus, <- Qplus_assoc.
    apply Qplus_le_r.
    setoid_replace (49 # 4)%Q with ((17 # 4) + inject_Z 8 + 0)%Q
      by reflexivity.
    rewrite <- Qplus_assoc. apply Qplus_le_r, Qplus_le_r.
    change 0%Q with (inject_Z 0). rewrite <- Zle_Qle. exact Hpt. }
  split.
  - apply Qmult_lt_0_compat; [|exact Hsym].
    eapply Qlt_le_trans; [|exact Hlow].
    apply Qlt_le_trans with (0 + (49 # 4))%Q; [reflexivity|].
    apply Qplus_le_l. change 0%Q with (inject_Z 0). rewrite <- Zle_Qle.
    exact Hpre.
  - apply Qmult_le_compat_r; [exact Hlow|]. now apply Qlt_le_weak.
Qed.

Lemma estimate_airtime_seconds_positive_witness :
  radio_in_range longfast_radio /\
  (0 <= preamble_symbols longfast_radio)%Z /\
  exists airtime,
    estimate_airtime_seconds longfast_radio = Some airtime /\
    (0 < airtime)%Q.
Proof.
  assert (Hr : radio_in_range longfast_radio)
    by (unfold radio_in_range, longfast_radio; simpl; lia).
  assert (Hp : (0 <= preamble_symbols longfast_radio)%Z) by (simpl; lia).
  split; [exact Hr|]. split; [exact Hp|].
  destruct (estimate_airtime_seconds_positive longfast_radio Hr Hp)
    as (airtime & Hsome & Hpos & _).
  exists airtime. split; assumption.
Defined.

Lemma airtime_of_payload_term (radio : RadioConfig) (airtime : Q) :
  estimate_airtime_seconds radio = Some airtime ->
  airtime
  = ((inject_Z (preamble_symbols radio) + (17 # 4)
      + inject_Z (8 + payload_term radio)) * symbol_duration radio)%Q.
Proof.
  unfold estimate_airtime_seconds, payload_symbols.
  destruct (bandwidth_hz radio =? 0)%Z; [discriminate|].
  destruct (denominator radio =? 0)%Z; [discriminate|].
  intro H. injection H as <-. reflexivity.
Qed.

(** Two configurations that differ in their payload term only. *)
Lemma airtime_payload_term_le (r1 r2 : RadioConfig) (a1 a2 : Q) :
  estimate_airtime_seconds r1 = Some a1 ->
  estimate_airtime_seconds r2 = Some a2 ->
  preamble_symbols r1 = preamble_symbols r2 ->
  symbol_duration r1 = symbol_duration r2 ->
  (0 < bandwidth_khz r1)%Z ->
  (payload_term r1 <= payload_term r2)%Z ->
  (a1 <= a2)%Q.
Proof.
  intros H1 H2 Hpre Hsym Hbw Hle.
  rewrite (airtime_of_payload_term r1 a1 H1),
    (airtime_of_payload_term r2 a2 H2), <- Hpre, <- Hsym.
  apply Qmult_le_compat_r.
  - apply Qplus_le_r. rewrite <- Zle_Qle. lia.
  - apply Qlt_le_weak. now apply symbol_duration_positive.
Qed.

(** X5. On a positive bandwidth a higher coding-rate numerator never
    shortens the airtime (values below 5 count as 5, values above 8 as
    8), the other parameters being equal. *)
Theorem estimate_airtime_seconds_coding_rate (radio : RadioConfig)
  (cr1 cr2 : Z) (a1 a2 : Q) :
  (0 < bandwidth_khz radio)%Z -> (cr1 <= cr2)%Z ->
  estimate_airtime_seconds (with_coding_rate radio cr1) = Some a1 ->
  estimate_airtime_seconds (with_coding_rate radio cr2) = Some a2 ->
  (a1 <= a2)%Q.
Proof.
  intros Hbw Hcr H1 H2.
  apply (airtime_payload_term_le _ _ _ _ H1 H2); try reflexivity;
    [exact Hbw|].
  unfold payload_term. unfold cr_value at 1 2.
  change (denominator (with_coding_rate radio cr1))
    with (denominator (with_coding_rate radio cr2)).
  change (numerator (with_coding_rate radio cr1))
    with (numerator (with_coding_rate radio cr2)).
  cbn [coding_rate with_coding_rate].
  set (c := Qceiling _). nia.
Qed.

Lemma estimate_airtime_seconds_coding_rate_witness :
  (0 < bandwidth_khz longfast_radio)%Z /\ (5 <= 8)%Z /\
  exists a1 a2,
    estimate_airtime_seconds (with_coding_rate longfast_radio 5) = Some a1 /\
    estimate_airtime_seconds (with_coding_rate longfast_radio 8) = Some a2 /\
    (a1 <= a2)%Q.
Proof.
  assert (Hbw : (0 < bandwidth_khz longfast_radio)%Z) by reflexivity.
  assert (Hcr : (5 <= 8)%Z) by lia.
  split; [exact Hbw|]. split; [exact Hcr|].
  eexists. eexists. split; [vm_compute; reflexivity|].
  split; [vm_compute; reflexivity|].
  apply (estimate_airtime_seconds_coding_rate longfast_radio 5 8 _ _ Hbw Hcr);
    vm_compute; reflexivity.
Defined.

(** X6. For a spreading factor of 7 to 12 on a positive bandwidth a
    longer payload never shortens the airtime, the other parameters
    being equal. *)
Theorem estimate_airtime_seconds_payload (radio : RadioConfig)
  (bytes1 bytes2 : Z) (a1 a2 : Q) :
  (7 <= spreading_factor radio <= 12)%Z -> (0 < bandwidth_khz radio)%Z ->
  (bytes1 <= bytes2)%Z ->
  estimate_airtime_seconds (with_payload_bytes radio bytes1) = Some a1 ->
  estimate_airtime_seconds (with_payload_bytes radio bytes2) = Some a2 ->
  (a1 <= a2)%Q.
Proof.
  intros Hsf Hbw Hb H1 H2.
  apply (airtime_payload_term_le _ _ _ _ H1 H2); try reflexivity;
    [exact Hbw|].
  unfold payload_term.
  change (cr_value (with_payload_bytes radio bytes1))
    with (cr_value (with_payload_bytes radio bytes2)).
  change (denominator (with_payload_bytes radio bytes1))
    with (denominator (with_payload_bytes radio bytes2)).
  set (d := denominator _).
  assert (Hd : (0 < d)%Z).
  { unfold d, denominator.
    pose proof (low_data_rate_opt_range (with_payload_bytes radio bytes2)).
    cbn [spreading_factor with_payload_bytes]. lia. }
  assert (Hc : (Qceiling (inject_Z (numerator (with_payload_bytes radio bytes1))
                          / inject_Z d)
                <= Qceiling (inject_Z (numerator
                                         (with_payload_bytes radio bytes2))
                             / inject_Z d))%Z).
  { apply Qceiling_resp_le. unfold Qdiv. apply Qmult_le_compat_r.
    - rewrite <- Zle_Qle. unfold numerator.
      cbn [payload_bytes spreading_factor crc_enabled implicit_header
           with_payload_bytes]. lia.
    - apply Qinv_le_0_compat. change 0%Q with (inject_Z 0).
      rewrite <- Zle_Qle. lia. }
  unfold cr_value. nia.
Qed.

Lemma estimate_airtime_seconds_payload_witness :
  (7 <= spreading_factor longfast_radio <= 12)%Z /\
  (0 < bandwidth_khz longfast_radio)%Z /\ (20 <= 160)%Z /\
  exists a1 a2,
    estimate_airtime_seconds (with_payload_bytes longfast_radio 20)
    = Some a1 /\
    estimate_airtime_seconds (with_payload_bytes longfast_radio 160)
    = Some a2 /\
    (a1 <= a2)%Q.
Proof.
  assert (Hsf : (7 <= spreading_factor longfast_radio <= 12)%Z)
    by (simpl; lia).
  assert (Hbw : (0 < bandwidth_khz longfast_radio)%Z) by reflexivity.
  assert (Hb : (20 <= 160)%Z) by lia.
  split; [exact Hsf|]. split; [exact Hbw|]. split; [exact Hb|].
  eexists. eexists. split; [vm_compute; reflexivity|].
  split; [vm_compute; reflexivity|].
  apply (estimate_airtime_seconds_payload longfast_radio 20 160 _ _
           Hsf Hbw Hb); vm_compute; reflexivity.
Defined.

(** ** Schedule builder: timing *)

Lemma sorted_snoc (l : list Q) (a b : Q) :
  Sorted Qle (l ++ [a]) -> (a <= b)%Q -> Sorted Qle (l ++ [a; b]).
Proof.
  induction l as [|x l IH]; intros Hs Hab; simpl in *.
  - repeat constructor. exact Hab.
  - inversion Hs as [|? ? Hs' Hhd]; subst. constructor; [now apply IH|].
    destruct l; simpl in *; inversion Hhd; subst; now constructor.
Qed.

Lemma sorted_raise (l : list Q) (a b : Q) :
  Sorted Qle (l ++ [a]) -> (a <= b)%Q -> Sorted Qle (l ++ [b]).
Proof.
  induction l as [|x l IH]; intros Hs Hab; simpl in *.
  - repeat constructor.
  - inversion Hs as [|? ? Hs' Hhd]; subst. constructor; [now apply IH|].
    destruct l; simpl in *; inversion Hhd; subst; constructor;
      [eapply Qle_trans; eassumption|assumption].
Qed.

Lemma sorted_drop_last (l : list Q) (a : Q) :
  Sorted Qle (l ++ [a]) -> Sorted Qle l.
Proof.
  induction l as [|x l IH]; intro Hs; simpl in *; [constructor|].
  inversion Hs as [|? ? Hs' Hhd]; subst. constructor; [now apply IH|].
  destruct l; simpl in *; [constructor|].
  inversion Hhd; subst. now constructor.
Qed.

Lemma uniform_above (gen : Py.Random) (a b : Q) :
  unit_draws gen -> (a <= b)%Q ->
  (a <= fst (Py.uniform gen a b))%Q /\ unit_draws (snd (Py.uniform gen a b)).
Proof.
  intros Hu Hab. split; [|exact Hu]. unfold Py.uniform. cbn [fst].
  rewrite <- (Qplus_0_r a) at 1. apply Qplus_le_r.
  apply Qmult_le_0_compat; [|apply Hu].
  apply (Qplus_le_l _ _ a). ring_simplify. exact Hab.
Qed.

Lemma timeline_snoc (schedule : list schedule_entry) (tower : string)
  (start_time end_time : Q) (hop_index : Z) :
  timeline (schedule ++ [(tower, start_time, end_time, hop_index)])
  = timeline schedule ++ [start_time; end_time].
Proof. unfold timeline. rewrite flat_map_app. reflexivity. Qed.

Section ScheduleTiming.
Variable airtime_s : Q.
Variable config : AnimationConfig.
Hypothesis airtime_nonneg : (0 <= airtime_s)%Q.
Hypothesis jitter_nonneg : (0 <= jitter_s config)%Q.

Lemma schedule_wave_ordered (hop_index : Z) (wave_start : Q)
  (wave : list string) :
  forall schedule current_time wave_time gen schedule' current' wave_time'
         gen',
    schedule_wave airtime_s config hop_index wave_start wave schedule
      current_time wave_time gen
    = (schedule', current', wave_time', gen') ->
    unit_draws gen ->
    Sorted Qle (timeline schedule ++ [current_time]) ->
    Sorted Qle (timeline schedule' ++ [current']) /\ unit_draws gen' /\
    List.length schedule' = List.length schedule + List.length wave.
Proof.
  induction wave as [|tower rest IH];
    intros schedule current wt gen s' c' wt' gen' H Hu Hs.
  - simpl in H. injection H as <- <- _ <-. simpl. now rewrite Nat.add_0_r.
  - cbn [schedule_wave] in H.
    destruct (uniform_above gen 0 (jitter_s config) Hu jitter_nonneg)
      as [Hj Hu'].
    destruct (Py.uniform gen 0 (jitter_s config)) as [jitter gen1].
    cbn [fst snd] in Hj, Hu'.
    assert (Hd : (current <= current + (airtime_s + jitter))%Q).
    { rewrite <- (Qplus_0_r current) at 1. apply Qplus_le_r.
      rewrite <- (Qplus_0_r 0). apply Qplus_le_compat; assumption. }
    destruct (IH _ _ _ _ _ _ _ _ H Hu') as (Hs' & Hu'' & Hlen).
    + rewrite timeline_snoc, <- app_assoc. cbn [app].
      change [current; (current + (airtime_s + jitter))%Q;
              (current + (airtime_s + jitter))%Q]
        with ([current] ++ [(current + (airtime_s + jitter))%Q;
                           (current + (airtime_s + jitter))%Q]).
      rewrite app_assoc. apply sorted_snoc; [|apply Qle_refl].
      rewrite <- app_assoc. cbn [app]. now apply sorted_snoc.
    + split; [exact Hs'|]. split; [exact Hu''|].
      rewrite Hlen, length_app. simpl. lia.
Qed.

Lemma schedule_waves_ordered (waves : list (list string)) :
  forall hop_index schedule current_time gen,
    unit_draws gen ->
    Sorted Qle (timeline schedule ++ [current_time]) ->
    Sorted Qle
      (timeline (fst (schedule_waves airtime_s config hop_index waves
                        schedule current_time gen))) /\
    List.length (fst (schedule_waves airtime_s config hop_index waves
                        schedule current_time gen))
    = List.length schedule + List.length (List.concat waves).
Proof.
  induction waves as [|wave rest IH];
    intros hop_index schedule current gen Hu Hs.
  - simpl. split; [now apply sorted_drop_last in Hs|lia].
  - cbn [schedule_waves].
    destruct (schedule_wave airtime_s config hop_index current wave schedule
                current 0%Q gen)
      as [[[s1 c1] wt1] gen1] eqn:E.
    destruct (schedule_wave_ordered _ _ _ _ _ _ _ _ _ _ _ E Hu Hs)
      as (Hs1 & Hu1 & Hlen1).
    assert (Hrest : forall c2 gen2,
              unit_draws gen2 -> (c1 <= c2)%Q ->
              Sorted Qle
                (timeline (fst (schedule_waves airtime_s config
                                  (hop_index + 1) rest s1 c2 gen2))) /\
              List.length (fst (schedule_waves airtime_s config
                                  (hop_index + 1) rest s1 c2 gen2))
              = List.length schedule + List.length (List.concat (wave :: rest))).
    { intros c2 gen2 Hu2 Hc. destruct (IH (hop_index + 1)%Z s1 c2 gen2 Hu2)
        as [Hsorted Hlen]; [now apply sorted_raise with c1|].
      split; [exact Hsorted|]. rewrite Hlen, Hlen1. simpl.
      rewrite length_app. lia. }
    destruct (Py.Qltb wt1 (wave_min_s config)) eqn:Emin.
    + apply Hrest; [exact Hu1|]. apply Qltb_true in Emin.
      rewrite <- (Qplus_0_r c1) at 1. apply Qplus_le_r.
      apply (Qplus_le_l _ _ wt1). ring_simplify. now apply Qlt_le_weak.
    + destruct (Py.Qltb wt1 (wave_max_s config)) eqn:Emax.
      * apply Qltb_true in Emax.
        assert (Hgap : (0 <= wave_max_s config - wt1)%Q).
        { apply (Qplus_le_l _ _ wt1). ring_simplify. now apply Qlt_le_weak. }
        destruct (uniform_above gen1 0 _ Hu1 Hgap) as [Hg Hu2].
        destruct (Py.uniform gen1 0 (wave_max_s config - wt1)) as [gap gen2].
        cbn [fst snd] in Hg, Hu2. apply Hrest; [exact Hu2|].
        rewrite <- (Qplus_0_r c1) at 1. now apply Qplus_le_r.
      * apply Hrest; [exact Hu1|apply Qle_refl].
Qed.
End ScheduleTiming.

(** X7. With a non-negative airtime and jitter bound and draws in the
    unit interval, [build_schedule] lays the transmissions out in time
    order without overlap: every entry ends no earlier than it starts
    and no later than the next one starts; there is one entry per tower
    of the waves. *)
Theorem build_schedule_in_time_order (waves : list (list string))
  (airtime_s : Q) (config : AnimationConfig) (gen : Py.Random) :
  (0 <= airtime_s)%Q -> (0 <= jitter_s config)%Q -> unit_draws gen ->
  Sorted Qle (timeline (fst (build_schedule waves airtime_s config gen))) /\
  List.length (fst (build_schedule waves airtime_s config gen))
  = List.length (List.concat waves).
Proof.
  intros Ha Hj Hu. unfold build_schedule.
  apply (schedule_waves_ordered airtime_s config Ha Hj waves 1 [] 0%Q gen Hu).
  repeat constructor.
Qed.

Lemma sample_unit_rng_unit_draws : unit_draws sample_unit_rng.
Proof.
  intro n. unfold sample_unit_rng, Py.draws, Qle, Qlt. cbn [Qnum Qden].
  rewrite Zpos_P_of_succ_nat. lia.
Qed.

Lemma build_schedule_in_time_order_witness :
  (0 <= 14 # 10)%Q /\ (0 <= jitter_s sample_animation)%Q /\
  unit_draws sample_unit_rng /\
  Sorted Qle
    (timeline (fst (build_schedule [["A"]; ["B"; "C"]; ["D"]] (14 # 10)
                      sample_animation sample_unit_rng))).
Proof.
  assert (Ha : (0 <= 14 # 10)%Q) by discriminate.
  assert (Hj : (0 <= jitter_s sample_animation)%Q) by discriminate.
  split; [exact Ha|]. split; [exact Hj|].
  split; [exact sample_unit_rng_unit_draws|].
  apply (build_schedule_in_time_order [["A"]; ["B"; "C"]; ["D"]] (14 # 10)
           sample_animation sample_unit_rng Ha Hj
           sample_unit_rng_unit_draws).
Defined.

(** ** Wave builder: shape of the waves and the hop map *)

Lemma get_set {V : Type} (d : Py.dict V) (k k' : string) (v : V) :
  Py.get (Py.set d k v) k'
  = if String.eqb k k' then Some v else Py.get d k'.
Proof.
  induction d as [|[k0 v0] rest IH]; simpl.
  - reflexivity.
  - destruct (String.eqb k0 k) eqn:E0; simpl.
    + apply String.eqb_eq in E0. subst k0.
      destruct (String.eqb k k'); reflexivity.
    + rewrite IH. destruct (String.eqb k0 k') eqn:E1; [|reflexivity].
      apply String.eqb_eq in E1. subst k0. now rewrite String.eqb_sym, E0.
Qed.

Lemma get_assign_wave (hop_index : Z) (wave : list string) :
  forall tower_hops x,
    Py.get (fold_left (fun hops t => Py.set hops t hop_index) wave tower_hops)
      x
    = if Py.mem x wave then Some hop_index else Py.get tower_hops x.
Proof.
  induction wave as [|t rest IH]; intros hops x; simpl; [reflexivity|].
  rewrite IH, get_set, (String.eqb_sym x t).
  destruct (Py.mem x rest); [now rewrite orb_true_r|].
  rewrite orb_false_r. reflexivity.
Qed.

Lemma get_assign_hops_outside (waves : list (list string)) :
  forall hop_index tower_hops x,
    ~ In x (List.concat waves) ->
    Py.get (assign_hops hop_index waves tower_hops) x = Py.get tower_hops x.
Proof.
  induction waves as [|w rest IH]; intros h hops x Hx; simpl; [reflexivity|].
  simpl in Hx. rewrite IH, get_assign_wave.
  - destruct (Py.mem x w) eqn:E; [|reflexivity].
    apply mem_In in E. exfalso. apply Hx, in_or_app. now left.
  - intro H. apply Hx, in_or_app. now right.
Qed.

Lemma get_assign_hops_inside (waves : list (list string)) :
  forall hop_index tower_hops i wave x,
    NoDup (List.concat waves) ->
    nth_error waves i = Some wave -> In x wave ->
    Py.get (assign_hops hop_index waves tower_hops) x
    = Some (hop_index + Z.of_nat i)%Z.
Proof.
  induction waves as [|w rest IH]; intros h hops i wave x Hnd Hi Hx.
  - destruct i; discriminate.
  - simpl in Hnd. destruct i as [|i]; simpl in Hi.
    + injection Hi as ->. cbn [assign_hops].
      rewrite get_assign_hops_outside, get_assign_wave.
      * apply mem_In in Hx. rewrite Hx. f_equal. lia.
      * intro Hin. revert Hnd Hx Hin. clear.
        induction wave as [|a l IHl]; simpl; [tauto|].
        intros Hnd [->|Hx] Hin.
        -- inversion Hnd as [|? ? Hnot _]; subst. apply Hnot.
           apply in_or_app. now right.
        -- inversion Hnd; subst. now apply IHl.
    + cbn [assign_hops]. rewrite (IH (h + 1)%Z _ i wave x); try assumption.
      * f_equal. lia.
      * now apply NoDup_app_remove_l in Hnd.
Qed.

Section WavesShape.
Variable adjacency : Py.dict (list string).
Variable seed_h3 : string.

Abbreviation adj u := (Py.get_default adjacency u []).
Abbreviation dist := (bfs_distance adjacency seed_h3).
Abbreviation reach := (walk adjacency seed_h3).
Abbreviation level := (wave_level adjacency seed_h3).

Lemma waves_loop_nonempty (iterations : nat) :
  forall visited current_wave wave,
    current_wave <> [] ->
    In wave (waves_loop iterations adjacency [] visited current_wave) ->
    wave <> [].
Proof.
  induction iterations as [|k IH]; intros visited current wave Hc Hin.
  - destruct Hin.
  - simpl in Hin.
    destruct (expand_wave adjacency current visited []) as [v n].
    destruct n as [|y n].
    + destruct Hin as [<-|[]]. exact Hc.
    + rewrite waves_loop_acc in Hin. destruct Hin as [<-|Hin]; [exact Hc|].
      apply (IH v (y :: n) wave); [discriminate|exact Hin].
Qed.

Lemma waves_loop_head (iterations : nat) (visited current_wave : list string) :
  exists rest,
    waves_loop (S iterations) adjacency [] visited current_wave
    = current_wave :: rest.
Proof.
  simpl. destruct (expand_wave adjacency current_wave visited []) as [v n].
  destruct n as [|y n]; [now exists []|].
  rewrite waves_loop_acc. eexists. reflexivity.
Qed.

(** A tower at distance d+1 has a neighbour at distance d towards the
    seed. *)
Lemma dist_predecessor (t : string) (d : nat) :
  dist t (S d) -> exists u, dist u d /\ In t (adj u).
Proof.
  intros [Hw Hmin]. inversion Hw as [|n u v Hu Ht]; subst.
  exists u. split; [|exact Ht]. split; [exact Hu|].
  intros n Hn Hshort. apply (Hmin (S n)); [lia|].
  econstructor; eassumption.
Qed.

Lemma dist_on_the_way (j : nat) : forall i t,
  dist t (i + j) -> exists u, dist u i.
Proof.
  induction j as [|j IH]; intros i t H.
  - rewrite Nat.add_0_r in H. now exists t.
  - replace (i + S j) with (S (i + j)) in H by lia.
    destruct (dist_predecessor _ _ H) as (u & Hu & _). now apply (IH i u).
Qed.

Lemma waves_loop_complete (iterations : nat) :
  forall i visited current_wave j t,
    level i visited current_wave ->
    j < iterations -> dist t (i + j) ->
    exists wave,
      nth_error (waves_loop iterations adjacency [] visited current_wave) j
      = Some wave /\ In t wave.
Proof.
  induction iterations as [|k IH];
    intros i visited current j t Hlev Hj Hd; [lia|].
  simpl.
  destruct (expand_wave adjacency current visited []) as [v n] eqn:E.
  pose proof (level_next adjacency seed_h3 _ _ _ _ _ Hlev E) as Hnext.
  destruct j as [|j].
  - exists current. rewrite Nat.add_0_r in Hd.
    split; [destruct n; [reflexivity|now rewrite waves_loop_acc]|].
    now apply Hlev.
  - replace (i + S j) with (S i + j) in Hd by lia.
    destruct n as [|y n].
    + exfalso. destruct (dist_on_the_way j (S i) t Hd) as [u Hu].
      destruct Hnext as (Hn & _). apply Hn in Hu. destruct Hu.
    + rewrite waves_loop_acc. simpl.
      apply (IH (S i) v (y :: n) j t Hnext); [lia|exact Hd].
Qed.
End WavesShape.

(** X8. [build_waves] never returns an empty wave; for a hop limit of at
    least 0 the first wave is the seed alone, and for a negative hop
    limit there is no wave at all. *)
Theorem build_waves_shape (seed_h3 : string)
  (adjacency : Py.dict (list string)) (hop_limit : Z) :
  (forall wave, In wave (build_waves seed_h3 adjacency hop_limit) ->
     wave <> []) /\
  ((0 <= hop_limit)%Z ->
   exists rest, build_waves seed_h3 adjacency hop_limit = [seed_h3] :: rest) /\
  ((hop_limit < 0)%Z -> build_waves seed_h3 adjacency hop_limit = []).
Proof.
  unfold build_waves. split; [|split].
  - intros wave Hin.
    apply (waves_loop_nonempty adjacency (Z.to_nat (hop_limit + 1))
             [seed_h3] [seed_h3] wave); [discriminate|exact Hin].
  - intro H. destruct (Z.to_nat (hop_limit + 1)) as [|k] eqn:E; [lia|].
    apply waves_loop_head.
  - intro H. replace (Z.to_nat (hop_limit + 1)) with 0 by lia. reflexivity.
Qed.

(** X9. The hop map that [main] derives from the waves assigns a tower
    the hop h exactly when h is between 0 and the hop limit and is the
    BFS distance of the tower from the seed; towers farther away or
    unreachable have no hop. *)
Theorem tower_hops_bfs_distance (seed_h3 : string)
  (adjacency : Py.dict (list string)) (hop_limit : Z) (t : string) (h : Z) :
  Py.get (build_tower_hops (build_waves seed_h3 adjacency hop_limit)) t
  = Some h <->
  (0 <= h <= hop_limit)%Z /\
  bfs_distance adjacency seed_h3 t (Z.to_nat h).
Proof.
  unfold build_tower_hops, build_waves.
  set (waves := waves_loop (Z.to_nat (hop_limit + 1)) adjacency []
                  [seed_h3] [seed_h3]).
  pose proof (waves_loop_levels adjacency seed_h3
                (Z.to_nat (hop_limit + 1)) 0 [seed_h3] [seed_h3]
                (level_start adjacency seed_h3)) as Hlev.
  fold waves in Hlev.
  assert (Hnd : NoDup (List.concat waves))
    by (apply (ranked_waves_NoDup adjacency seed_h3 _ 0); exact Hlev).
  pose proof (waves_loop_length adjacency (Z.to_nat (hop_limit + 1))
                [seed_h3] [seed_h3]) as Hlen.
  fold waves in Hlen.
  split.
  - intro Hget.
    destruct (in_dec string_dec t (List.concat waves)) as [Hin|Hout].
    + apply in_concat in Hin. destruct Hin as (w & Hw & Ht).
      apply In_nth_error in Hw. destruct Hw as [i Hi].
      rewrite (get_assign_hops_inside waves 0 [] i w t Hnd Hi Ht) in Hget.
      injection Hget as <-.
      assert (Hil : i < List.length waves)
        by (apply nth_error_Some; congruence).
      split; [lia|].
      match goal with
      | |- bfs_distance _ _ _ (Z.to_nat ?z) =>
          replace (Z.to_nat z) with i by lia
      end.
      now apply (Hlev i w Hi).
    + rewrite (get_assign_hops_outside waves 0 [] t Hout) in Hget.
      discriminate.
  - intros [Hh Hd].
    destruct (waves_loop_complete adjacency seed_h3
                (Z.to_nat (hop_limit + 1)) 0 [seed_h3] [seed_h3]
                (Z.to_nat h) t (level_start adjacency seed_h3))
      as (w & Hw & Ht); [lia|exact Hd|].
    fold waves in Hw.
    rewrite (get_assign_hops_inside waves 0 [] (Z.to_nat h) w t Hnd Hw Ht).
    f_equal. lia.
Qed.

(** ** The dry pass, phase by phase *)

Section DryPhases.
Variable tower_visibility : Py.dict (list (string * Q)).
Variable visible_cells : Py.dict (list (string * Q)).
Variable population : Py.dict Q.
Variable tower_hops : Py.dict Z.
Variable animation : AnimationConfig.
Variable airtime_s : Q.
Variable max_frames : Z.
Variable order : Z -> list string -> list string.

Abbreviation body :=
  (frame_body tower_visibility visible_cells population tower_hops animation
     airtime_s max_frames order).
Abbreviation run :=
  (run_frames tower_visibility visible_cells population tower_hops animation
     airtime_s max_frames order).
Abbreviation started_phase :=
  (after_start tower_visibility visible_cells tower_hops animation airtime_s
     order).
Abbreviation tx_of := (transmission_of tower_visibility visible_cells animation).

(** The state an iteration leaves is the state after the selection, with
    the frame counter and the running maximum updated. *)
Lemma frame_body_phases (st : SimState) :
  received_cells (fst (body st)) = received_cells (started_phase st) /\
  received_towers (fst (body st)) = received_towers (started_phase st) /\
  received_quality (fst (body st)) = received_quality (started_phase st) /\
  transmitted_towers (fst (body st)) = transmitted_towers (started_phase st) /\
  active_transmissions (fst (body st))
  = active_transmissions (started_phase st) /\
  rng (fst (body st)) = rng (started_phase st) /\
  started (fst (body st)) = started (started_phase st) /\
  completed (fst (body st)) = completed (started_phase st) /\
  frame (fst (body st)) = (frame st + 1)%Z /\
  max_population (fst (body st))
  = Py.max2 (max_population (started_phase st))
      (cumulative_population population (received_cells (started_phase st))).
Proof. repeat split; reflexivity. Qed.

Lemma frame_body_stop (st : SimState) :
  snd (body st)
  = (negb (max_frames =? 0)%Z && (max_frames <=? frame st + 1)%Z)
    || ((0 <? frame st + 1)%Z
        && match active_transmissions (started_phase st) with
           | [] => true
           | _ :: _ => false
           end
        && forallb
             (fun t =>
                Py.mem t (transmitted_towers (started_phase st))
                || negb (Py.contains tower_hops t))
             (received_towers (started_phase st))).
Proof. reflexivity. Qed.

Lemma after_finalize_fields (st : SimState) :
  active_transmissions (after_finalize animation st) = active_of animation st /\
  started (after_finalize animation st) = started st /\
  rng (after_finalize animation st) = rng st /\
  frame (after_finalize animation st) = frame st /\
  max_population (after_finalize animation st) = max_population st /\
  completed (after_finalize animation st)
  = completed st ++ map tx_tower_h3 (finished_of animation st) /\
  transmitted_towers (after_finalize animation st)
  = fold_left Py.add (map tx_tower_h3 (finished_of animation st))
      (transmitted_towers st).
Proof.
  unfold after_finalize.
  match goal with
  | |- context [fold_left finalize ?f ?s0] =>
      destruct (finalize_all_fields f s0) as (Ha & Hs & Hr & Hf & Hm & Hc & Ht)
  end.
  cbv zeta in Ha, Hs, Hr, Hf, Hm, Hc, Ht.
  rewrite Ha, Hs, Hr, Hf, Hm, Hc, Ht. repeat split; reflexivity.
Qed.

(** What a start changes: one more entry on air, one more event in the
    log, one more draw taken. *)
Lemma start_transmission_fields (st : SimState) (frame_time : Q)
  (next_tower : string) :
  next_tower <> "" ->
  let st' := start_transmission tower_visibility visible_cells animation
               airtime_s st frame_time next_tower in
  let duration :=
    (airtime_s + fst (Py.uniform (rng st) 0 (jitter_s animation)))%Q in
  received_cells st' = received_cells st /\
  received_towers st' = received_towers st /\
  received_quality st' = received_quality st /\
  transmitted_towers st' = transmitted_towers st /\
  completed st' = completed st /\
  frame st' = frame st /\
  max_population st' = max_population st /\
  rng st' = snd (Py.uniform (rng st) 0 (jitter_s animation)) /\
  started st' = started st ++ [(next_tower, frame st, duration)] /\
  active_transmissions st'
  = active_transmissions st
    ++ [{| tx_tower_h3 := next_tower;
           tx_end := (frame_time + duration)%Q;
           tx_cell_losses := Py.get_default visible_cells next_tower [];
           tx_audible_pairs := Py.get_default tower_visibility next_tower [];
           tx_audible_towers :=
             map fst (Py.get_default tower_visibility next_tower []) |}].
Proof.
  intro Hne. unfold start_transmission.
  apply String.eqb_neq in Hne. rewrite Hne.
  repeat split; reflexivity.
Qed.

(** The selection either leaves the state as the finalization left it,
    or starts one eligible tower with a non-empty key. *)
Lemma after_start_cases (st : SimState) :
  started_phase st = after_finalize animation st \/
  exists next_tower,
    (0 < frame st)%Z /\ next_tower <> "" /\
    In next_tower
      (eligible_towers tower_hops order (after_finalize animation st)
         (map tx_tower_h3 (active_of animation st))
         (flat_map tx_audible_towers (active_of animation st))) /\
    started_phase st
    = start_transmission tower_visibility visible_cells animation airtime_s
        (after_finalize animation st) (frame_time_of animation st)
        next_tower.
Proof.
  unfold after_start. cbv zeta.
  destruct (0 <? frame st)%Z eqn:Ef; [|now left].
  destruct (select_next_transmitter _ _) as [next|] eqn:E; [|now left].
  destruct (String.eqb next "") eqn:En.
  - left. unfold start_transmission. now rewrite En.
  - right. exists next. apply Z.ltb_lt in Ef. apply String.eqb_neq in En.
    apply select_next_transmitter_greatest in E. destruct E as [Hin _].
    repeat split; assumption.
Qed.

Lemma frame_body_frame (st : SimState) :
  frame (fst (body st)) = (frame st + 1)%Z.
Proof. reflexivity. Qed.

(** *** The frame cap *)

Lemma frame_body_capped (st : SimState) :
  max_frames <> 0%Z -> (max_frames <= frame st + 1)%Z ->
  snd (body st) = true.
Proof.
  intros Hne Hle. rewrite frame_body_stop.
  apply Z.eqb_neq in Hne. apply Z.leb_le in Hle. now rewrite Hne, Hle.
Qed.

Lemma run_frames_capped (n : nat) : forall st,
  max_frames <> 0%Z -> (max_frames <= frame st + Z.of_nat (S n))%Z ->
  exists final,
    run (S n) st = (final, true) /\
    (frame st + 1 <= frame final <= frame st + Z.of_nat (S n))%Z.
Proof.
  induction n as [|n IH]; intros st Hne Hle.
  - cbn [run_frames]. pose proof (frame_body_capped st Hne) as Hstop.
    pose proof (frame_body_frame st) as Hf.
    destruct (body st) as [s b]. cbn [fst snd] in *.
    rewrite Hstop by lia. exists s. split; [reflexivity|lia].
  - change (run (S (S n)) st)
      with (let (st', stop) := body st in
            if stop then (st', true) else run (S n) st').
    pose proof (frame_body_frame st) as Hf.
    destruct (body st) as [s b]. cbn [fst] in Hf. destruct b.
    + exists s. split; [reflexivity|lia].
    + destruct (IH s Hne) as (final & Hrun & Hfr); [lia|].
      exists final. split; [exact Hrun|lia].
Qed.
End DryPhases.

(** X10. A non-zero frame cap bounds the dry pass: with [max_frames]
    different from 0 and a non-zero frame rate, [simulate_propagation]
    returns within max(max_frames, 1) iterations, and the frame count it
    returns is between 1 and max(max_frames, 1); a negative cap acts as
    a cap of one frame. *)
Theorem simulate_propagation_frame_cap (seed_h3 : string)
  (tower_visibility visible_cells : Py.dict (list (string * Q)))
  (population : Py.dict Q) (tower_hops : Py.dict Z)
  (animation : AnimationConfig) (airtime_s : Q) (max_frames : Z)
  (order : Z -> list string -> list string) (gen : Py.Random) :
  max_frames <> 0%Z -> fps animation <> 0%Z ->
  exists frames max_pop,
    simulate_propagation seed_h3 tower_visibility visible_cells population
      tower_hops animation airtime_s max_frames order gen
      (Z.to_nat (Z.max max_frames 1))
    = Returned frames max_pop /\
    (1 <= frames <= Z.max max_frames 1)%Z.
Proof.
  intros Hcap Hfps. unfold simulate_propagation.
  apply Z.eqb_neq in Hfps. rewrite Hfps.
  destruct (Z.to_nat (Z.max max_frames 1)) as [|n] eqn:En; [lia|].
  destruct (run_frames_capped tower_visibility visible_cells population
              tower_hops animation airtime_s max_frames order n
              (initial_state seed_h3 gen) Hcap)
    as (final & Hrun & Hfr).
  - cbn [frame initial_state]. lia.
  - rewrite Hrun. exists (frame final), (max_population final).
    split; [reflexivity|]. cbn [frame initial_state] in Hfr. lia.
Qed.

Lemma simulate_propagation_frame_cap_witness :
  (24 <> 0)%Z /\ fps sample_animation <> 0%Z /\
  exists frames max_pop,
    simulate_propagation "A" sample_visibility sample_cells sample_population
      sample_hops sample_animation (14 # 10) 24 as_listed sample_unit_rng
      (Z.to_nat (Z.max 24 1))
    = Returned frames max_pop /\
    (1 <= frames <= Z.max 24 1)%Z.
Proof.
  assert (Hc : (24 <> 0)%Z) by discriminate.
  assert (Hf : fps sample_animation <> 0%Z) by discriminate.
  split; [exact Hc|]. split; [exact Hf|].
  apply (simulate_propagation_frame_cap "A" sample_visibility sample_cells
           sample_population sample_hops sample_animation (14 # 10) 24
           as_listed sample_unit_rng Hc Hf).
Defined.

(** ** The event log of the dry pass *)

Lemma sorted_lt_snoc (l : list Z) (a : Z) :
  Sorted Z.lt l -> (forall x, In x l -> (x < a)%Z) -> Sorted Z.lt (l ++ [a]).
Proof.
  induction l as [|x l IH]; intros Hs Hlt; simpl.
  - repeat constructor.
  - inversion Hs as [|? ? Hs' Hhd]; subst. constructor.
    + apply IH; [exact Hs'|]. intros y Hy. apply Hlt. now right.
    + destruct l as [|y l]; simpl.
      * constructor. apply Hlt. now left.
      * inversion Hhd; subst. now constructor.
Qed.

Lemma commit_neighbors_received (pairs : list (string * Q)) :
  forall heard t,
    In t (fst heard) -> In t (fst (fold_left commit_neighbor pairs heard)).
Proof.
  induction pairs as [|[n pl] rest IH]; intros [rt rq] t Ht; [exact Ht|].
  cbn [fold_left]. apply IH. unfold commit_neighbor.
  destruct (negb (Py.mem n rt)); cbn [fst] in *; [|exact Ht].
  apply add_In. now left.
Qed.

Lemma finalize_all_received (finished : list Transmission) : forall st t,
  In t (received_towers st) ->
  In t (received_towers (fold_left finalize finished st)).
Proof.
  induction finished as [|tx rest IH]; intros st t Ht; [exact Ht|].
  cbn [fold_left]. apply IH. unfold finalize. cbn [received_towers].
  now apply commit_neighbors_received.
Qed.

Section EventLog.
Variable tower_visibility : Py.dict (list (string * Q)).
Variable visible_cells : Py.dict (list (string * Q)).
Variable population : Py.dict Q.
Variable tower_hops : Py.dict Z.
Variable animation : AnimationConfig.
Variable airtime_s : Q.
Variable max_frames : Z.
Variable order : Z -> list string -> list string.

Abbreviation body :=
  (frame_body tower_visibility visible_cells population tower_hops animation
     airtime_s max_frames order).
Abbreviation started_phase :=
  (after_start tower_visibility visible_cells tower_hops animation airtime_s
     order).
Abbreviation tx_of := (transmission_of tower_visibility visible_cells animation).

(** The event a start logs, and the fields it leaves. *)
Abbreviation new_event st next :=
  (next, frame st,
   (airtime_s + fst (Py.uniform (rng st) 0 (jitter_s animation)))%Q).

Lemma after_start_log (st : SimState) :
  (started (started_phase st) = started st /\
   active_transmissions (started_phase st) = active_of animation st /\
   received_towers (started_phase st)
   = received_towers (after_finalize animation st)) \/
  exists next,
    (0 < frame st)%Z /\ next <> "" /\
    In next
      (eligible_towers tower_hops order (after_finalize animation st)
         (map tx_tower_h3 (active_of animation st))
         (flat_map tx_audible_towers (active_of animation st))) /\
    started (started_phase st) = started st ++ [new_event st next] /\
    active_transmissions (started_phase st)
    = active_of animation st ++ [tx_of (new_event st next)] /\
    received_towers (started_phase st)
    = received_towers (after_finalize animation st).
Proof.
  destruct (after_finalize_fields animation st)
    as (Ha & Hs & Hr & Hf & _).
  destruct (after_start_cases tower_visibility visible_cells tower_hops
              animation airtime_s order st)
    as [E|(next & Hpos & Hne & Hin & E)].
  - left. rewrite E, Hs, Ha. repeat split; reflexivity.
  - right. exists next.
    destruct (start_transmission_fields tower_visibility visible_cells
                animation airtime_s (after_finalize animation st)
                (frame_time_of animation st) next Hne)
      as (_ & Hrt & _ & _ & _ & _ & _ & _ & Hst & Hact).
    rewrite E, Hst, Hact, Hrt, Hs, Ha, Hr, Hf.
    repeat split; try assumption; reflexivity.
Qed.

Lemma frame_body_log_in_order (st : SimState) :
  log_in_order tower_visibility visible_cells animation st ->
  log_in_order tower_visibility visible_cells animation (fst (body st)).
Proof.
  intros (Hsorted & Hbound & Hact).
  destruct (frame_body_phases tower_visibility visible_cells population
              tower_hops animation airtime_s max_frames order st)
    as (_ & _ & _ & _ & Ea & _ & Es & _ & Ef & _).
  unfold log_in_order. rewrite Ea, Es, Ef.
  assert (Hkeep : forall t, In t (active_of animation st) ->
            exists e, In e (started st) /\ t = tx_of e).
  { intros t Ht. apply Hact. unfold active_of in Ht.
    apply filter_In in Ht. tauto. }
  destruct (after_start_log st)
    as [(Hs & Ha & _)|(next & Hpos & _ & _ & Hs & Ha & _)];
    rewrite Hs, Ha.
  - split; [exact Hsorted|]. split; [|exact Hkeep].
    intros e He. specialize (Hbound e He). lia.
  - split; [|split].
    + rewrite map_app. apply sorted_lt_snoc; [exact Hsorted|].
      intros x Hx. apply in_map_iff in Hx. destruct Hx as (e & <- & He).
      apply (Hbound e He).
    + intros e He. apply in_app_or in He. destruct He as [He|[<-|[]]].
      * specialize (Hbound e He). lia.
      * cbn [event_frame fst snd]. lia.
    + intros t Ht. apply in_app_or in Ht. destruct Ht as [Ht|[<-|[]]].
      * destruct (Hkeep t Ht) as (e & He & ->). exists e.
        split; [apply in_or_app; now left|reflexivity].
      * eexists. split; [apply in_or_app; right; now left|reflexivity].
Qed.

Lemma frame_body_log_of_received (st : SimState) :
  visits_each_once order ->
  log_of_received tower_hops st ->
  log_of_received tower_hops (fst (body st)).
Proof.
  intros Hfair Hwho.
  destruct (frame_body_phases tower_visibility visible_cells population
              tower_hops animation airtime_s max_frames order st)
    as (_ & Er & _ & _ & _ & _ & Es & _).
  unfold log_of_received. rewrite Er, Es.
  assert (Hgrow : forall t, In t (received_towers st) ->
            In t (received_towers (after_finalize animation st))).
  { intros t Ht. unfold after_finalize. now apply finalize_all_received. }
  destruct (after_start_log st)
    as [(Hs & _ & Hr)|(next & _ & Hne & Hin & Hs & _ & Hr)];
    rewrite Hs, Hr.
  - intros e He. destruct (Hwho e He) as (H1 & H2 & H3).
    repeat split; auto.
  - intros e He. apply in_app_or in He. destruct He as [He|[<-|[]]].
    + destruct (Hwho e He) as (H1 & H2 & H3). repeat split; auto.
    + cbn [event_tower fst]. apply eligible_towers_In in Hin.
      destruct Hin as (Hord & Hhop & _).
      split; [exact Hne|]. split; [exact Hhop|].
      eapply Permutation_in; [apply Hfair|exact Hord].
Qed.

Lemma frame_time_grows (a b : Z) :
  (0 < fps animation)%Z -> (a <= b)%Z ->
  (inject_Z a / inject_Z (fps animation)
   <= inject_Z b / inject_Z (fps animation))%Q.
Proof.
  intros Hfps Hab. unfold Qdiv. apply Qmult_le_compat_r.
  - now rewrite <- Zle_Qle.
  - apply Qinv_le_0_compat. change 0%Q with (inject_Z 0).
    rewrite <- Zle_Qle. lia.
Qed.

Lemma frame_body_log_without_contention (st : SimState) :
  (0 < fps animation)%Z ->
  log_in_order tower_visibility visible_cells animation st ->
  log_without_contention tower_visibility visible_cells animation st ->
  log_without_contention tower_visibility visible_cells animation
    (fst (body st)).
Proof.
  intros Hfps (_ & Hbound & _) (Hair & Hquiet).
  destruct (frame_body_phases tower_visibility visible_cells population
              tower_hops animation airtime_s max_frames order st)
    as (_ & _ & _ & _ & Ea & _ & Es & _ & Ef & _).
  unfold log_without_contention. rewrite Ea, Es, Ef.
  replace (frame st + 1 - 1)%Z with (frame st) by lia.
  (* where every logged transmission stands once the frame has
     finalized the ones that ended *)
  assert (Hnow : forall e, In e (started st) ->
            In (tx_of e) (active_of animation st) \/
            (event_end animation e
             <= inject_Z (frame st) / inject_Z (fps animation))%Q).
  { intros e He. destruct (Hair e He) as [Hin|Hover].
    - destruct (Qle_bool (event_end animation e)
                  (frame_time_of animation st)) eqn:E.
      + right. now apply Qle_bool_iff in E.
      + left. unfold active_of. apply filter_In. split; [exact Hin|].
        unfold Py.Qltb. cbn [tx_end transmission_of]. now rewrite E.
    - right. eapply Qle_trans; [exact Hover|].
      apply frame_time_grows; [exact Hfps|lia]. }
  destruct (after_start_log st)
    as [(Hs & Ha & _)|(next & Hpos & _ & Hin & Hs & Ha & _)];
    rewrite Hs, Ha.
  - split; [exact Hnow|exact Hquiet].
  - split.
    + intros e He. apply in_app_or in He. destruct He as [He|[<-|[]]].
      * destruct (Hnow e He) as [H|H]; [left|now right].
        apply in_or_app. now left.
      * left. apply in_or_app. right. now left.
    + intros e1 e2 H1 H2 Hlt Hhear.
      apply in_app_or in H1. apply in_app_or in H2.
      destruct H2 as [H2|[<-|[]]].
      * destruct H1 as [H1|[<-|[]]]; [now apply Hquiet|].
        specialize (Hbound e2 H2). cbn [event_frame fst snd] in Hlt. lia.
      * destruct H1 as [H1|[<-|[]]]; [|cbn [event_frame fst snd] in Hlt; lia].
        cbn [event_frame event_tower fst snd] in *.
        destruct (Hnow e1 H1) as [Hon|Hover]; [|exact Hover].
        exfalso. apply eligible_towers_In in Hin.
        destruct Hin as (_ & _ & _ & _ & Hfree). apply Hfree.
        apply in_flat_map. exists (tx_of e1). split; [exact Hon|exact Hhear].
Qed.

Lemma initial_state_logs (seed_h3 : string) (gen : Py.Random) :
  log_in_order tower_visibility visible_cells animation
    (initial_state seed_h3 gen) /\
  log_of_received tower_hops (initial_state seed_h3 gen) /\
  log_without_contention tower_visibility visible_cells animation
    (initial_state seed_h3 gen).
Proof.
  split; [|split].
  - split; [constructor|]. split; intros ? [].
  - intros ? [].
  - split; [intros ? []|intros ? ? []].
Qed.

Lemma run_frames_logs (seed_h3 : string) (gen : Py.Random) (n : nat) :
  log_in_order tower_visibility visible_cells animation
    (dry_run seed_h3 tower_visibility visible_cells population tower_hops
       animation airtime_s max_frames order gen n) /\
  (visits_each_once order ->
   log_of_received tower_hops
     (dry_run seed_h3 tower_visibility visible_cells population tower_hops
        animation airtime_s max_frames order gen n)) /\
  ((0 < fps animation)%Z ->
   log_without_contention tower_visibility visible_cells animation
     (dry_run seed_h3 tower_visibility visible_cells population tower_hops
        animation airtime_s max_frames order gen n)).
Proof.
  destruct (initial_state_logs seed_h3 gen) as (H1 & H2 & H3).
  unfold dry_run. split; [|split].
  - apply run_frames_invariant; [|exact H1].
    intros st. apply frame_body_log_in_order.
  - intro Hfair. apply run_frames_invariant; [|exact H2].
    intros st. now apply frame_body_log_of_received.
  - intro Hfps.
    pose proof (run_frames_invariant tower_visibility visible_cells
                  population tower_hops animation airtime_s max_frames order
                  (fun st =>
                     log_in_order tower_visibility visible_cells animation st
                     /\ log_without_contention tower_visibility visible_cells
                          animation st)) as Hinv.
    apply Hinv; [|now split].
    intros st [Ha Hb]. split.
    + now apply frame_body_log_in_order.
    + now apply frame_body_log_without_contention.
Qed.
End EventLog.

(** X11. In every run of the dry pass the frames at which transmissions
    start increase strictly along the log: at most one transmission
    starts per frame; none starts at frame 0, and none is logged for a
    frame the loop has not reached. *)
Theorem one_start_per_frame (seed_h3 : string)
  (tower_visibility visible_cells : Py.dict (list (string * Q)))
  (population : Py.dict Q) (tower_hops : Py.dict Z)
  (animation : AnimationConfig) (airtime_s : Q) (max_frames : Z)
  (order : Z -> list string -> list string) (gen : Py.Random) (n : nat) :
  Sorted Z.lt
    (map event_frame
       (started
          (dry_run seed_h3 tower_visibility visible_cells population
             tower_hops animation airtime_s max_frames order gen n))) /\
  forall e,
    In e (started
            (dry_run seed_h3 tower_visibility visible_cells population
               tower_hops animation airtime_s max_frames order gen n)) ->
    (1 <= event_frame e
     < frame (dry_run seed_h3 tower_visibility visible_cells population
                tower_hops animation airtime_s max_frames order gen n))%Z.
Proof.
  destruct (run_frames_logs tower_visibility visible_cells population
              tower_hops animation airtime_s max_frames order seed_h3 gen n)
    as ((Hs & Hb & _) & _).
  split; assumption.
Qed.

(** X12. Whatever the inputs, a tower that is on air or has transmitted
    has a non-empty key, has a hop assignment and is among the towers
    that received the message: towers outside the hop map never
    transmit, even when they hear the broadcast. *)
Theorem only_received_hop_towers_transmit (seed_h3 : string)
  (tower_visibility visible_cells : Py.dict (list (string * Q)))
  (population : Py.dict Q) (tower_hops : Py.dict Z)
  (animation : AnimationConfig) (airtime_s : Q) (max_frames : Z)
  (order : Z -> list string -> list string) (gen : Py.Random) (n : nat)
  (t : string) :
  visits_each_once order ->
  In t (transmitted_towers
          (dry_run seed_h3 tower_visibility visible_cells population
             tower_hops animation airtime_s max_frames order gen n)) \/
  In t (map tx_tower_h3
          (active_transmissions
             (dry_run seed_h3 tower_visibility visible_cells population
                tower_hops animation airtime_s max_frames order gen n))) ->
  t <> "" /\ Py.contains tower_hops t = true /\
  In t (received_towers
          (dry_run seed_h3 tower_visibility visible_cells population
             tower_hops animation airtime_s max_frames order gen n)).
Proof.
  intros Hfair Ht.
  destruct (run_frames_logs tower_visibility visible_cells population
              tower_hops animation airtime_s max_frames order seed_h3 gen n)
    as (_ & Hwho & _).
  specialize (Hwho Hfair).
  assert (Hlife : dry_lifecycle
                    (dry_run seed_h3 tower_visibility visible_cells
                       population tower_hops animation airtime_s max_frames
                       order gen n)).
  { unfold dry_run. apply run_frames_invariant.
    - intros st. apply frame_body_lifecycle.
    - apply initial_state_lifecycle. }
  destruct Hlife as (Hperm & _ & Htx).
  assert (Hlog : In t (map event_tower
                         (started
                            (dry_run seed_h3 tower_visibility visible_cells
                               population tower_hops animation airtime_s
                               max_frames order gen n)))).
  { apply (Permutation_in _ Hperm). apply in_or_app.
    destruct Ht as [Ht|Ht]; [right; now apply Htx|now left]. }
  apply in_map_iff in Hlog. destruct Hlog as (e & <- & He).
  exact (Hwho e He).
Qed.

Lemma only_received_hop_towers_transmit_witness :
  visits_each_once as_listed /\
  In "B" (transmitted_towers
            (dry_run "A" sample_visibility sample_cells sample_population
               sample_hops sample_animation (14 # 10) 0 as_listed
               sample_unit_rng 90)) /\
  Py.contains sample_hops "B" = true.
Proof.
  assert (Hin : In "B" (transmitted_towers
                          (dry_run "A" sample_visibility sample_cells
                             sample_population sample_hops sample_animation
                             (14 # 10) 0 as_listed sample_unit_rng 90)))
    by (vm_compute; tauto).
  split; [exact as_listed_visits_each_once|]. split; [exact Hin|].
  destruct (only_received_hop_towers_transmit "A" sample_visibility
              sample_cells sample_population sample_hops sample_animation
              (14 # 10) 0 as_listed sample_unit_rng 90 "B"
              as_listed_visits_each_once (or_introl Hin))
    as (_ & Hhop & _).
  exact Hhop.
Defined.

(** X13. Contention: with a positive frame rate, a tower that a
    transmitter can reach (a key of the transmitter's visibility list)
    and that starts at a later frame starts only once that transmission
    has ended; it never starts while the transmission is on air. *)
Theorem no_start_while_hearing (seed_h3 : string)
  (tower_visibility visible_cells : Py.dict (list (string * Q)))
  (population : Py.dict Q) (tower_hops : Py.dict Z)
  (animation : AnimationConfig) (airtime_s : Q) (max_frames : Z)
  (order : Z -> list string -> list string) (gen : Py.Random) (n : nat)
  (e1 e2 : string * Z * Q) :
  (0 < fps animation)%Z ->
  In e1 (started
           (dry_run seed_h3 tower_visibility visible_cells population
              tower_hops animation airtime_s max_frames order gen n)) ->
  In e2 (started
           (dry_run seed_h3 tower_visibility visible_cells population
              tower_hops animation airtime_s max_frames order gen n)) ->
  (event_frame e1 < event_frame e2)%Z ->
  In (event_tower e2)
    (map fst (Py.get_default tower_visibility (event_tower e1) [])) ->
  (event_end animation e1
   <= inject_Z (event_frame e2) / inject_Z (fps animation))%Q.
Proof.
  intros Hfps H1 H2 Hlt Hhear.
  destruct (run_frames_logs tower_visibility visible_cells population
              tower_hops animation airtime_s max_frames order seed_h3 gen n)
    as (_ & _ & Hquiet).
  destruct (Hquiet Hfps) as [_ Hq]. now apply (Hq e1 e2).
Qed.

Lemma no_start_while_hearing_witness :
  (0 < fps sample_animation)%Z /\
  In ("A", 1%Z, 300 # 200)
    (started
       (dry_run "A" sample_visibility sample_cells sample_population
          sample_hops sample_animation (14 # 10) 0 as_listed
          sample_unit_rng 90)) /\
  In ("C", 37%Z, 440 # 300)
    (started
       (dry_run "A" sample_visibility sample_cells sample_population
          sample_hops sample_animation (14 # 10) 0 as_listed
          sample_unit_rng 90)) /\
  (event_end sample_animation ("A", 1%Z, 300 # 200)
   <= inject_Z 37 / inject_Z (fps sample_animation))%Q.
Proof.
  assert (Hf : (0 < fps sample_animation)%Z) by reflexivity.
  assert (H1 : In ("A", 1%Z, 300 # 200)
                 (started
                    (dry_run "A" sample_visibility sample_cells
                       sample_population sample_hops sample_animation
                       (14 # 10) 0 as_listed sample_unit_rng 90)))
    by (vm_compute; tauto).
  assert (H2 : In ("C", 37%Z, 440 # 300)
                 (started
                    (dry_run "A" sample_visibility sample_cells
                       sample_population sample_hops sample_animation
                       (14 # 10) 0 as_listed sample_unit_rng 90)))
    by (vm_compute; tauto).
  split; [exact Hf|]. split; [exact H1|]. split; [exact H2|].
  refine (no_start_while_hearing "A" sample_visibility sample_cells
            sample_population sample_hops sample_animation (14 # 10) 0
            as_listed sample_unit_rng 90 ("A", 1%Z, 300 # 200)
            ("C", 37%Z, 440 # 300) Hf H1 H2 _ _).
  - reflexivity.
  - vm_compute. tauto.
Defined.

(** ** Received cells and the population counter *)

Lemma commit_cell_get (d : Py.dict Q) (c c' : string) (pl : Q) :
  Py.get (commit_cell d (c, pl)) c'
  = if String.eqb c c' then
      match Py.get d c with
      | None => Some pl
      | Some best => if Py.Qltb pl best then Some pl else Some best
      end
    else Py.get d c'.
Proof.
  unfold commit_cell. destruct (Py.get d c) as [best|] eqn:E.
  - destruct (Py.Qltb pl best); [apply get_set|].
    destruct (String.eqb c c') eqn:Ec; [|reflexivity].
    apply String.eqb_eq in Ec. now subst.
  - apply get_set.
Qed.

Lemma commit_cells_spec (entries : list (string * Q)) : forall d,
  (forall c v, Py.get (fold_left commit_cell entries d) c = Some v ->
     Py.get d c = Some v \/ In (c, v) entries) /\
  (forall c v, Py.get d c = Some v ->
     exists v', Py.get (fold_left commit_cell entries d) c = Some v' /\
                (v' <= v)%Q) /\
  (forall c pl, In (c, pl) entries ->
     exists v', Py.get (fold_left commit_cell entries d) c = Some v' /\
                (v' <= pl)%Q).
Proof.
  induction entries as [|[c0 pl0] rest IH]; intro d; cbn [fold_left].
  - split; [|split].
    + intros c v H. now left.
    + intros c v H. exists v. split; [exact H|apply Qle_refl].
    + intros c pl [].
  - destruct (IH (commit_cell d (c0, pl0))) as (Ha & Hb & Hc).
    assert (Hstep : forall c v, Py.get d c = Some v ->
              exists v1, Py.get (commit_cell d (c0, pl0)) c = Some v1 /\
                         (v1 <= v)%Q).
    { intros c v H. rewrite commit_cell_get.
      destruct (String.eqb c0 c) eqn:Ec.
      - apply String.eqb_eq in Ec. subst c0. rewrite H.
        destruct (Py.Qltb pl0 v) eqn:El.
        + exists pl0. split; [reflexivity|].
          apply Qlt_le_weak. now apply Qltb_true.
        + exists v. split; [reflexivity|apply Qle_refl].
      - exists v. split; [exact H|apply Qle_refl]. }
    assert (Hhere : exists v1, Py.get (commit_cell d (c0, pl0)) c0 = Some v1
                               /\ (v1 <= pl0)%Q).
    { rewrite commit_cell_get, String.eqb_refl.
      destruct (Py.get d c0) as [best|].
      - destruct (Py.Qltb pl0 best) eqn:El.
        + exists pl0. split; [reflexivity|apply Qle_refl].
        + exists best. split; [reflexivity|now apply Qltb_false].
      - exists pl0. split; [reflexivity|apply Qle_refl]. }
    split; [|split].
    + intros c v H. destruct (Ha c v H) as [H1|H1]; [|right; now right].
      rewrite commit_cell_get in H1.
      destruct (String.eqb c0 c) eqn:Ec; [|now left].
      apply String.eqb_eq in Ec. subst c0.
      destruct (Py.get d c) as [best|].
      * destruct (Py.Qltb pl0 best); injection H1 as <-;
          [right; now left|now left].
      * injection H1 as <-. right. now left.
    + intros c v H. destruct (Hstep c v H) as (v1 & H1 & Hle1).
      destruct (Hb c v1 H1) as (v' & H' & Hle'). exists v'.
      split; [exact H'|eapply Qle_trans; eassumption].
    + intros c pl [E|Hin]; [|now apply Hc].
      injection E as <- <-. destruct Hhere as (v1 & H1 & Hle1).
      destruct (Hb c0 v1 H1) as (v' & H' & Hle'). exists v'.
      split; [exact H'|eapply Qle_trans; eassumption].
Qed.

Lemma finalize_cells_from_completed
  (visible_cells : Py.dict (list (string * Q))) (st : SimState)
  (tx : Transmission) :
  tx_cell_losses tx = Py.get_default visible_cells (tx_tower_h3 tx) [] ->
  cells_from_completed visible_cells st ->
  cells_from_completed visible_cells (finalize st tx).
Proof.
  intros Hcells (Hfrom & Hbest).
  destruct (commit_cells_spec (tx_cell_losses tx) (received_cells st))
    as (Ha & Hb & Hc).
  unfold cells_from_completed, finalize. cbn [received_cells completed].
  split.
  - intros c v H. destruct (Ha c v H) as [H1|H1].
    + destruct (Hfrom c v H1) as (t & Ht & Hin). exists t.
      split; [apply in_or_app; now left|exact Hin].
    + exists (tx_tower_h3 tx).
      split; [apply in_or_app; right; now left|now rewrite <- Hcells].
  - intros t c pl Ht Hin. apply in_app_or in Ht.
    destruct Ht as [Ht|[<-|[]]].
    + destruct (Hbest t c pl Ht Hin) as (v & Hv & Hle).
      destruct (Hb c v Hv) as (v' & Hv' & Hle'). exists v'.
      split; [exact Hv'|eapply Qle_trans; eassumption].
    + rewrite <- Hcells in Hin. now apply Hc.
Qed.

Lemma finalize_all_cells_from_completed
  (visible_cells : Py.dict (list (string * Q)))
  (finished : list Transmission) : forall st,
  (forall tx, In tx finished ->
     tx_cell_losses tx = Py.get_default visible_cells (tx_tower_h3 tx) []) ->
  cells_from_completed visible_cells st ->
  cells_from_completed visible_cells (fold_left finalize finished st).
Proof.
  induction finished as [|tx rest IH]; intros st Hall H; [exact H|].
  cbn [fold_left]. apply IH.
  - intros t Ht. apply Hall. now right.
  - apply finalize_cells_from_completed; [apply Hall; now left|exact H].
Qed.

Section CellsAndPopulation.
Variable tower_visibility : Py.dict (list (string * Q)).
Variable visible_cells : Py.dict (list (string * Q)).
Variable population : Py.dict Q.
Variable tower_hops : Py.dict Z.
Variable animation : AnimationConfig.
Variable airtime_s : Q.
Variable max_frames : Z.
Variable order : Z -> list string -> list string.

Abbreviation body :=
  (frame_body tower_visibility visible_cells population tower_hops animation
     airtime_s max_frames order).
Abbreviation started_phase :=
  (after_start tower_visibility visible_cells tower_hops animation airtime_s
     order).

(** The selection leaves the cells, the completed towers and the running
    maximum as the finalization left them. *)
Lemma after_start_keeps (st : SimState) :
  received_cells (started_phase st)
  = received_cells (after_finalize animation st) /\
  completed (started_phase st) = completed (after_finalize animation st) /\
  max_population (started_phase st) = max_population st.
Proof.
  destruct (after_finalize_fields animation st) as (_ & _ & _ & _ & Hm & _).
  destruct (after_start_cases tower_visibility visible_cells tower_hops
              animation airtime_s order st)
    as [E|(next & _ & Hne & _ & E)]; rewrite E.
  - repeat split; [exact Hm].
  - destruct (start_transmission_fields tower_visibility visible_cells
                animation airtime_s (after_finalize animation st)
                (frame_time_of animation st) next Hne)
      as (Hc & _ & _ & _ & Hd & _ & Hmax & _).
    rewrite Hc, Hd, Hmax. repeat split; [exact Hm].
Qed.

Lemma frame_body_cells_from_completed (st : SimState) :
  log_in_order tower_visibility visible_cells animation st ->
  cells_from_completed visible_cells st ->
  cells_from_completed visible_cells (fst (body st)).
Proof.
  intros (_ & _ & Hact) H.
  destruct (frame_body_phases tower_visibility visible_cells population
              tower_hops animation airtime_s max_frames order st)
    as (Ec & _ & _ & _ & _ & _ & _ & Ed & _).
  destruct (after_start_keeps st) as (Kc & Kd & _).
  unfold cells_from_completed. rewrite Ec, Ed, Kc, Kd.
  apply finalize_all_cells_from_completed; [|exact H].
  intros tx Htx. unfold finished_of in Htx. apply filter_In in Htx.
  destruct (Hact tx (proj1 Htx)) as (e & _ & ->). reflexivity.
Qed.

Lemma frame_body_max_population (st : SimState) :
  nonnegative population ->
  (max_population st
   == cumulative_population population (received_cells st))%Q ->
  (max_population (fst (body st))
   == cumulative_population population (received_cells (fst (body st))))%Q.
Proof.
  intros Hpos Heq.
  pose proof (cumulative_population_extends population (received_cells st)
                (received_cells (fst (body st))) Hpos
                (frame_body_extends tower_visibility visible_cells population
                   tower_hops animation airtime_s max_frames order st))
    as Hgrow.
  destruct (frame_body_phases tower_visibility visible_cells population
              tower_hops animation airtime_s max_frames order st)
    as (Ec & _ & _ & _ & _ & _ & _ & _ & _ & Em).
  destruct (after_start_keeps st) as (_ & _ & Km).
  rewrite Em, Km. rewrite Ec in Hgrow |- *.
  unfold Py.max2.
  destruct (Py.Qltb (max_population st) _) eqn:E; [reflexivity|].
  apply Qltb_false in E. apply Qle_antisym; [|exact E].
  now rewrite Heq.
Qed.
End CellsAndPopulation.

(** X14. The path loss recorded for a received cell is the lowest one
    among the towers that completed a transmission and see the cell: it
    is the entry of one such tower, and no such tower has a lower entry;
    in particular every cell a completed tower sees is received. *)
Theorem received_cells_keep_best_path_loss (seed_h3 : string)
  (tower_visibility visible_cells : Py.dict (list (string * Q)))
  (population : Py.dict Q) (tower_hops : Py.dict Z)
  (animation : AnimationConfig) (airtime_s : Q) (max_frames : Z)
  (order : Z -> list string -> list string) (gen : Py.Random) (n : nat) :
  (forall cell_h3 loss,
     Py.get (received_cells
               (dry_run seed_h3 tower_visibility visible_cells population
                  tower_hops animation airtime_s max_frames order gen n))
       cell_h3 = Some loss ->
     exists t,
       In t (completed
               (dry_run seed_h3 tower_visibility visible_cells population
                  tower_hops animation airtime_s max_frames order gen n)) /\
       In (cell_h3, loss) (Py.get_default visible_cells t [])) /\
  (forall t cell_h3 path_loss_db,
     In t (completed
             (dry_run seed_h3 tower_visibility visible_cells population
                tower_hops animation airtime_s max_frames order gen n)) ->
     In (cell_h3, path_loss_db) (Py.get_default visible_cells t []) ->
     exists loss,
       Py.get (received_cells
                 (dry_run seed_h3 tower_visibility visible_cells population
                    tower_hops animation airtime_s max_frames order gen n))
         cell_h3 = Some loss /\
       (loss <= path_loss_db)%Q).
Proof.
  pose proof (run_frames_invariant tower_visibility visible_cells
                population tower_hops animation airtime_s max_frames order
                (fun st =>
                   log_in_order tower_visibility visible_cells animation st
                   /\ cells_from_completed visible_cells st)) as Hinv.
  assert (H : log_in_order tower_visibility visible_cells animation
                (dry_run seed_h3 tower_visibility visible_cells population
                   tower_hops animation airtime_s max_frames order gen n)
              /\ cells_from_completed visible_cells
                   (dry_run seed_h3 tower_visibility visible_cells population
                      tower_hops animation airtime_s max_frames order gen n)).
  { unfold dry_run. apply Hinv.
    - intros st [Ha Hb]. split.
      + now apply frame_body_log_in_order.
      + now apply frame_body_cells_from_completed.
    - split.
      + apply (initial_state_logs tower_visibility visible_cells tower_hops
                 animation seed_h3 gen).
      + split; [intros c v H; discriminate|intros t c pl []]. }
  exact (proj2 H).
Qed.

(** X15. When no population value is negative, the running maximum kept
    by the dry pass equals the cumulative population of the cells
    received so far at every frame boundary; the maximum that
    [simulate_propagation] returns is the population reached when the
    run ends. *)
Theorem max_population_is_final_population (seed_h3 : string)
  (tower_visibility visible_cells : Py.dict (list (string * Q)))
  (population : Py.dict Q) (tower_hops : Py.dict Z)
  (animation : AnimationConfig) (airtime_s : Q) (max_frames : Z)
  (order : Z -> list string -> list string) (gen : Py.Random) (n : nat) :
  nonnegative population ->
  (max_population
     (dry_run seed_h3 tower_visibility visible_cells population tower_hops
        animation airtime_s max_frames order gen n)
   == cumulative_population population
        (received_cells
           (dry_run seed_h3 tower_visibility visible_cells population
              tower_hops animation airtime_s max_frames order gen n)))%Q /\
  forall frames max_pop,
    simulate_propagation seed_h3 tower_visibility visible_cells population
      tower_hops animation airtime_s max_frames order gen n
    = Returned frames max_pop ->
    (max_pop
     == cumulative_population population
          (received_cells
             (dry_run seed_h3 tower_visibility visible_cells population
                tower_hops animation airtime_s max_frames order gen n)))%Q.
Proof.
  intro Hpos.
  assert (H : (max_population
                 (dry_run seed_h3 tower_visibility visible_cells population
                    tower_hops animation airtime_s max_frames order gen n)
               == cumulative_population population
                    (received_cells
                       (dry_run seed_h3 tower_visibility visible_cells
                          population tower_hops animation airtime_s
                          max_frames order gen n)))%Q).
  { unfold dry_run.
    apply (run_frames_invariant tower_visibility visible_cells population
             tower_hops animation airtime_s max_frames order
             (fun st =>
                (max_population st
                 == cumulative_population population (received_cells st))%Q)).
    - intros st. now apply frame_body_max_population.
    - reflexivity. }
  split; [exact H|].
  intros frames max_pop Hret. unfold simulate_propagation in Hret.
  destruct (fps animation =? 0)%Z; [discriminate|].
  unfold dry_run in H |- *.
  destruct (run_frames _ _ _ _ _ _ _ _ n _) as [st [|]];
    [|discriminate].
  injection Hret as _ <-. exact H.
Qed.

Lemma max_population_is_final_population_witness :
  nonnegative sample_population /\
  (max_population
     (dry_run "A" sample_visibility sample_cells sample_population
        sample_hops sample_animation (14 # 10) 0 as_listed sample_unit_rng
        120)
   == 35)%Q.
Proof.
  split; [exact sample_population_nonnegative|].
  destruct (max_population_is_final_population "A" sample_visibility
              sample_cells sample_population sample_hops sample_animation
              (14 # 10) 0 as_listed sample_unit_rng 120
              sample_population_nonnegative) as [H _].
  rewrite H. vm_compute. reflexivity.
Defined.

(** ** The render pass follows the dry pass *)

Lemma map_filter_comm {A B : Type} (f : A -> B) (p : B -> bool) (l : list A) :
  map f (filter (fun x => p (f x)) l) = filter p (map f l).
Proof.
  induction l as [|a l IH]; simpl; [reflexivity|].
  destruct (p (f a)); simpl; now rewrite IH.
Qed.

Lemma filter_none_keeps_rest {A : Type} (p : A -> bool) (l : list A) :
  filter p l = [] -> filter (fun x => negb (p x)) l = l.
Proof.
  induction l as [|a l IH]; simpl; [reflexivity|].
  destruct (p a); [discriminate|]. intro H. simpl. now rewrite IH.
Qed.

Lemma render_commit_cells (tiers : list (string * nat * Z * Q)) :
  forall cells hop_reached,
    fst (fold_left Render.commit_cell tiers (cells, hop_reached))
    = fold_left commit_cell (map cell_loss tiers) cells.
Proof.
  induction tiers as [|[[[c tier] hop] pl] rest IH]; intros cells hr;
    [reflexivity|].
  cbn [fold_left map cell_loss]. unfold Render.commit_cell at 2.
  unfold commit_cell at 2.
  destruct (Py.get cells c) as [best|]; [|apply IH].
  destruct (Py.Qltb pl best); apply IH.
Qed.

Lemma render_commit_neighbors (tower : string) (transmitted : list string)
  (pairs : list (string * Q)) :
  forall towers quality links version,
    (fst (fst (fst (fold_left (Render.commit_neighbor tower transmitted)
                      pairs (towers, quality, links, version)))),
     snd (fst (fst (fold_left (Render.commit_neighbor tower transmitted)
                      pairs (towers, quality, links, version)))))
    = fold_left commit_neighbor pairs (towers, quality).
Proof.
  induction pairs as [|[n pl] rest IH]; intros towers quality links version;
    [reflexivity|].
  cbn [fold_left]. unfold Render.commit_neighbor at 2 4.
  unfold commit_neighbor at 2.
  destruct (negb (Py.mem n towers));
    destruct (negb (Py.mem n transmitted));
    try destruct (existsb _ links); apply IH.
Qed.

Lemma render_finalize_same (rs : Render.State) (ds : SimState)
  (t : Render.Transmission) :
  same_schedule rs ds ->
  same_schedule (Render.finalize rs t) (finalize ds (render_to_dry t)).
Proof.
  intros (Hc & Ht & Hq & Hx & Ha & Hr & Hs & Hd).
  pose proof (render_commit_cells (Render.tx_cell_tiers t)
                (Render.received_cells rs) (Render.hop_reached rs)) as Ec.
  pose proof (render_commit_neighbors (Render.tx_tower_h3 t)
                (Py.add (Render.transmitted_towers rs) (Render.tx_tower_h3 t))
                (Render.tx_audible_pairs t) (Render.received_towers rs)
                (Render.received_quality rs) (Render.seen_links rs)
                (Render.seen_links_version rs)) as En.
  unfold Render.finalize, finalize, same_schedule.
  destruct (fold_left (Render.commit_neighbor _ _) _ _)
    as [[[towers quality] links] version].
  cbn [fst snd] in En.
  cbn [Render.received_cells Render.received_towers Render.received_quality
       Render.transmitted_towers Render.active_transmissions
       Render.render_rng Render.started Render.completed
       received_cells received_towers received_quality transmitted_towers
       active_transmissions rng started completed
       render_to_dry tx_tower_h3 tx_cell_losses tx_audible_pairs].
  rewrite Ec, <- Hc, <- Ht, <- Hq, <- Hx, <- Hd, <- En.
  repeat split; assumption.
Qed.

Lemma render_finalize_all_same (finished : list Render.Transmission) :
  forall rs ds,
    same_schedule rs ds ->
    same_schedule (fold_left Render.finalize finished rs)
      (fold_left finalize (map render_to_dry finished) ds).
Proof.
  induction finished as [|t rest IH]; intros rs ds H; [exact H|].
  cbn [fold_left map]. apply IH. now apply render_finalize_same.
Qed.

Lemma render_bucket_cells (animation : AnimationConfig) (hop_index : Z)
  (cells : list (string * Q)) :
  forall tiered cell_tiers,
    map cell_loss
      (snd (fold_left (Render.bucket_cell animation hop_index) cells
              (tiered, cell_tiers)))
    = map cell_loss cell_tiers ++ cells.
Proof.
  induction cells as [|[c pl] rest IH]; intros tiered cell_tiers.
  - cbn [fold_left snd]. now rewrite app_nil_r.
  - cbn [fold_left]. unfold Render.bucket_cell at 2. rewrite IH, map_app.
    cbn [map cell_loss]. now rewrite <- app_assoc.
Qed.

Section RenderFollowsDry.
Variable seed_h3 : string.
Variable tower_visibility : Py.dict (list (string * Q)).
Variable visible_cells : Py.dict (list (string * Q)).
Variable population : Py.dict Q.
Variable tower_hops : Py.dict Z.
Variable animation : AnimationConfig.
Variable airtime_s : Q.
Variable max_frames : Z.
Variable order : Z -> list string -> list string.

Abbreviation body :=
  (frame_body tower_visibility visible_cells population tower_hops animation
     airtime_s max_frames order).
Abbreviation run :=
  (run_frames tower_visibility visible_cells population tower_hops animation
     airtime_s max_frames order).
Abbreviation render_body :=
  (Render.frame_body seed_h3 tower_visibility visible_cells tower_hops
     animation airtime_s order).

Lemma render_start_same (rs : Render.State) (ds : SimState) (frame_time : Q)
  (next_tower : string) :
  same_schedule rs ds ->
  same_schedule
    (Render.start_transmission seed_h3 tower_visibility visible_cells
       tower_hops animation airtime_s (frame ds) rs frame_time next_tower)
    (start_transmission tower_visibility visible_cells animation airtime_s
       ds frame_time next_tower).
Proof.
  intros (Hc & Ht & Hq & Hx & Ha & Hr & Hs & Hd).
  unfold Render.start_transmission, start_transmission.
  destruct (String.eqb next_tower ""); [repeat split; assumption|].
  match goal with
  | |- context [fold_left (Render.bucket_cell animation ?h) ?cells ([], [])] =>
      pose proof (render_bucket_cells animation h cells [] []) as Eb;
      destruct (fold_left (Render.bucket_cell animation h) cells ([], []))
        as [tiered cell_tiers]
  end.
  cbn [snd map app] in Eb. rewrite Hr. unfold Py.uniform.
  unfold same_schedule.
  cbn [Render.received_cells Render.received_towers Render.received_quality
       Render.transmitted_towers Render.active_transmissions
       Render.render_rng Render.started Render.completed
       received_cells received_towers received_quality transmitted_towers
       active_transmissions rng started completed].
  rewrite map_app, Ha, Hs. cbn [map]. unfold render_to_dry at 1.
  cbn [Render.tx_tower_h3 Render.tx_end Render.tx_cell_tiers
       Render.tx_audible_pairs Render.tx_audible_towers].
  rewrite Eb. repeat split; assumption.
Qed.

Lemma render_eligible_same (rs : Render.State) (ds : SimState)
  (active : list Render.Transmission) :
  same_schedule rs ds ->
  Render.eligible_towers tower_hops order (frame ds) rs
    (fold_left Py.add (map Render.tx_tower_h3 active) [])
    (flat_map Render.tx_audible_towers active)
  = eligible_towers tower_hops order ds
      (map tx_tower_h3 (map render_to_dry active))
      (flat_map tx_audible_towers (map render_to_dry active)).
Proof.
  intros (_ & Ht & _ & Hx & _).
  unfold Render.eligible_towers, eligible_towers. rewrite Ht, Hx.
  apply filter_ext. intro t. f_equal; [f_equal|].
  - f_equal. rewrite map_map. cbn [render_to_dry tx_tower_h3].
    destruct (Py.mem t (map _ active)) eqn:E.
    + apply mem_In. apply fold_add_In. right. now apply mem_In.
    + apply mem_not_In. apply mem_not_In in E. intro H. apply E.
      apply fold_add_In in H. destruct H as [[]|H]. exact H.
  - f_equal. f_equal. rewrite flat_map_concat_map, flat_map_concat_map.
    now rewrite map_map.
Qed.

(** One frame of the render pass against one iteration of the dry pass. *)
Lemma render_frame_body_same (rs : Render.State) (ds : SimState) :
  same_schedule rs ds ->
  same_schedule (render_body rs (frame ds)) (fst (body ds)).
Proof.
  intro H. pose proof H as (Hc & Ht & Hq & Hx & Ha & Hr & Hs & Hd).
  destruct (frame_body_phases tower_visibility visible_cells population
              tower_hops animation airtime_s max_frames order ds)
    as (E1 & E2 & E3 & E4 & E5 & E6 & E7 & E8 & _).
  unfold same_schedule. rewrite E1, E2, E3, E4, E5, E6, E7, E8.
  unfold Render.frame_body. cbv zeta.
  cbn [Render.received_cells Render.received_towers Render.received_quality
       Render.transmitted_towers Render.active_transmissions
       Render.render_rng Render.started Render.completed].
  set (ft := (inject_Z (frame ds) / inject_Z (fps animation))%Q).
  set (finished := filter (fun t => Qle_bool (Render.tx_end t) ft)
                     (Render.active_transmissions rs)).
  set (active := match finished with
                 | [] => Render.active_transmissions rs
                 | _ :: _ =>
                     filter (fun t => Py.Qltb ft (Render.tx_end t))
                       (Render.active_transmissions rs)
                 end).
  assert (Hfin : map render_to_dry finished = finished_of animation ds).
  { unfold finished, finished_of, frame_time_of. fold ft. rewrite <- Ha.
    apply (map_filter_comm render_to_dry (fun t => Qle_bool (tx_end t) ft)). }
  assert (Hact : map render_to_dry active = active_of animation ds).
  { unfold active_of, frame_time_of. fold ft. rewrite <- Ha.
    rewrite <- (map_filter_comm render_to_dry
                  (fun t => Py.Qltb ft (tx_end t))).
    f_equal. unfold active. destruct finished as [|t0 l] eqn:Ef;
      [|reflexivity].
    symmetry. apply (filter_none_keeps_rest
                       (fun t => Qle_bool (Render.tx_end t) ft)).
    exact Ef. }
  match goal with
  | |- context [fold_left Render.finalize finished ?s0] =>
      set (rs0 := s0); set (rs1 := fold_left Render.finalize finished rs0)
  end.
  assert (H1 : same_schedule rs1 (after_finalize animation ds)).
  { unfold rs1, after_finalize. rewrite <- Hfin.
    apply render_finalize_all_same. unfold same_schedule, rs0.
    cbn [Render.received_cells Render.received_towers
         Render.received_quality Render.transmitted_towers
         Render.active_transmissions Render.render_rng Render.started
         Render.completed received_cells received_towers received_quality
         transmitted_towers active_transmissions rng started completed].
    repeat split; assumption. }
  assert (Hf1 : frame (after_finalize animation ds) = frame ds).
  { now destruct (after_finalize_fields animation ds) as (_ & _ & _ & Hf & _). }
  assert (H2 : same_schedule
                 (if (0 <? frame ds)%Z then
                    match select_next_transmitter
                            (Render.eligible_towers tower_hops order
                               (frame ds) rs1
                               (fold_left Py.add
                                  (map Render.tx_tower_h3 active) [])
                               (flat_map Render.tx_audible_towers active))
                            (Render.received_quality rs1) with
                    | Some next_tower =>
                        Render.start_transmission seed_h3 tower_visibility
                          visible_cells tower_hops animation airtime_s
                          (frame ds) rs1 ft next_tower
                    | None => rs1
                    end
                  else rs1)
                 (after_start tower_visibility visible_cells tower_hops
                    animation airtime_s order ds)).
  { unfold after_start. cbv zeta.
    destruct (0 <? frame ds)%Z; [|exact H1].
    pose proof (render_eligible_same rs1 (after_finalize animation ds)
                  active H1) as Eel.
    rewrite Hf1, Hact in Eel. rewrite Eel.
    pose proof H1 as (_ & _ & Hq1 & _). rewrite Hq1.
    destruct (select_next_transmitter _ _) as [next|]; [|exact H1].
    pose proof (render_start_same rs1 (after_finalize animation ds) ft next
                  H1) as Hst.
    rewrite Hf1 in Hst. exact Hst. }
  exact H2.
Qed.
End RenderFollowsDry.

Section RenderFollowsDryRun.
Variable seed_h3 : string.
Variable tower_visibility : Py.dict (list (string * Q)).
Variable visible_cells : Py.dict (list (string * Q)).
Variable population : Py.dict Q.
Variable tower_hops : Py.dict Z.
Variable animation : AnimationConfig.
Variable airtime_s : Q.
Variable max_frames : Z.
Variable order : Z -> list string -> list string.
Variable gen : Py.Random.

Abbreviation run :=
  (run_frames tower_visibility visible_cells population tower_hops animation
     airtime_s max_frames order).
Abbreviation dry n :=
  (dry_run seed_h3 tower_visibility visible_cells population tower_hops
     animation airtime_s max_frames order gen n).
Abbreviation rendered n :=
  (render_run seed_h3 tower_visibility visible_cells tower_hops animation
     airtime_s order gen n).

Lemma run_frames_still_running (n : nat) :
  snd (run (S n) (initial_state seed_h3 gen)) = false ->
  snd (run n (initial_state seed_h3 gen)) = false.
Proof.
  rewrite run_frames_S.
  destruct (run n (initial_state seed_h3 gen)) as [s [|]]; [discriminate|].
  reflexivity.
Qed.

Lemma dry_run_next (n : nat) :
  snd (run n (initial_state seed_h3 gen)) = false ->
  dry (S n)
  = fst (frame_body tower_visibility visible_cells population tower_hops
           animation airtime_s max_frames order (dry n)).
Proof.
  intro H. unfold dry_run. rewrite run_frames_S.
  destruct (run n (initial_state seed_h3 gen)) as [s [|]]; [discriminate|].
  reflexivity.
Qed.

Lemma render_follows_dry (n : nat) :
  snd (run n (initial_state seed_h3 gen)) = false ->
  same_schedule (rendered n) (dry n) /\ frame (dry n) = Z.of_nat n.
Proof.
  induction n as [|n IH]; intro H.
  - split; [repeat split|reflexivity].
  - pose proof (run_frames_still_running n H) as Hn.
    destruct (IH Hn) as [Hsame Hframe].
    rewrite (dry_run_next n Hn). split.
    + unfold render_run. cbn [Render.render_frames]. rewrite <- Hframe.
      now apply render_frame_body_same.
    + rewrite frame_body_frame, Hframe. lia.
Qed.
End RenderFollowsDryRun.

(** X16. The render pass replays the dry pass. As long as the dry pass,
    given a random source of the same seed, has not left its loop after
    n iterations, the frame loop of [main] holds after n+1 frames the
    scheduling state the dry pass holds after n+1 iterations: the same
    received cells, towers and qualities, the same transmitted towers,
    the same transmissions on air, and the same towers started at the
    same frames with the same durations. *)
Theorem render_pass_replays_dry_pass (seed_h3 : string)
  (tower_visibility visible_cells : Py.dict (list (string * Q)))
  (population : Py.dict Q) (tower_hops : Py.dict Z)
  (animation : AnimationConfig) (airtime_s : Q) (max_frames : Z)
  (order : Z -> list string -> list string) (gen : Py.Random) (n : nat) :
  snd (run_frames tower_visibility visible_cells population tower_hops
         animation airtime_s max_frames order n (initial_state seed_h3 gen))
  = false ->
  same_schedule
    (render_run seed_h3 tower_visibility visible_cells tower_hops animation
       airtime_s order gen (S n))
    (dry_run seed_h3 tower_visibility visible_cells population tower_hops
       animation airtime_s max_frames order gen (S n)) /\
  Render.started
    (render_run seed_h3 tower_visibility visible_cells tower_hops animation
       airtime_s order gen (S n))
  = started
      (dry_run seed_h3 tower_visibility visible_cells population tower_hops
         animation airtime_s max_frames order gen (S n)).
Proof.
  intro H.
  destruct (render_follows_dry seed_h3 tower_visibility visible_cells
              population tower_hops animation airtime_s max_frames order gen
              n H) as [Hsame Hframe].
  assert (Hnext : same_schedule
                    (render_run seed_h3 tower_visibility visible_cells
                       tower_hops animation airtime_s order gen (S n))
                    (dry_run seed_h3 tower_visibility visible_cells
                       population tower_hops animation airtime_s max_frames
                       order gen (S n))).
  { rewrite (dry_run_next seed_h3 tower_visibility visible_cells population
               tower_hops animation airtime_s max_frames order gen n H).
    unfold render_run. cbn [Render.render_frames]. rewrite <- Hframe.
    now apply render_frame_body_same. }
  split; [exact Hnext|]. now destruct Hnext as (_ & _ & _ & _ & _ & _ & Hs & _).
Qed.

Lemma render_pass_replays_dry_pass_witness :
  snd (run_frames sample_visibility sample_cells sample_population
         sample_hops sample_animation (14 # 10) 0 as_listed 80
         (initial_state "A" sample_unit_rng)) = false /\
  Render.started
    (render_run "A" sample_visibility sample_cells sample_hops
       sample_animation (14 # 10) as_listed sample_unit_rng 81)
  = started
      (dry_run "A" sample_visibility sample_cells sample_population
         sample_hops sample_animation (14 # 10) 0 as_listed sample_unit_rng
         81).
Proof.
  assert (H : snd (run_frames sample_visibility sample_cells
                     sample_population sample_hops sample_animation
                     (14 # 10) 0 as_listed 80
                     (initial_state "A" sample_unit_rng)) = false)
    by (vm_compute; reflexivity).
  split; [exact H|].
  destruct (render_pass_replays_dry_pass "A" sample_visibility sample_cells
              sample_population sample_hops sample_animation (14 # 10) 0
              as_listed sample_unit_rng 80 H) as [_ Hs].
  exact Hs.
Defined.

(** ** The render pass, phase by phase *)

Section RenderPhases.
Variable seed_h3 : string.
Variable tower_visibility : Py.dict (list (string * Q)).
Variable visible_cells : Py.dict (list (string * Q)).
Variable tower_hops : Py.dict Z.
Variable animation : AnimationConfig.
Variable airtime_s : Q.
Variable order : Z -> list string -> list string.

Abbreviation render_body :=
  (Render.frame_body seed_h3 tower_visibility visible_cells tower_hops
     animation airtime_s order).
Abbreviation render_started_phase :=
  (render_after_start seed_h3 tower_visibility visible_cells tower_hops
     animation airtime_s order).

Lemma render_frame_body_phases (st : Render.State) (f : Z) :
  Render.received_cells (render_body st f)
  = Render.received_cells (render_started_phase st f) /\
  Render.hop_reached (render_body st f)
  = Render.hop_reached (render_started_phase st f) /\
  Render.received_towers (render_body st f)
  = Render.received_towers (render_started_phase st f) /\
  Render.received_quality (render_body st f)
  = Render.received_quality (render_started_phase st f) /\
  Render.transmitted_towers (render_body st f)
  = Render.transmitted_towers (render_started_phase st f) /\
  Render.received_version (render_body st f)
  = Render.received_version (render_started_phase st f) /\
  Render.seen_links (render_body st f)
  = Render.seen_links (render_started_phase st f) /\
  Render.seen_links_version (render_body st f)
  = Render.seen_links_version (render_started_phase st f) /\
  Render.active_transmissions (render_body st f)
  = Render.active_transmissions (render_started_phase st f) /\
  Render.started (render_body st f)
  = Render.started (render_started_phase st f) /\
  Render.completed (render_body st f)
  = Render.completed (render_started_phase st f) /\
  Render.last_state_key (render_body st f)
  = Some (render_key_of (render_active_of animation st f)
            (render_started_phase st f)) /\
  Render.needs_render (render_body st f)
  = match Render.last_state_key (render_started_phase st f) with
    | None => true
    | Some previous =>
        negb (Render.state_key_eqb
                (render_key_of (render_active_of animation st f)
                   (render_started_phase st f))
                previous)
    end.
Proof. repeat split; reflexivity. Qed.

(** The selection of the render pass changes nothing but the
    transmissions on air, the log of starts and the random source. *)
Lemma render_start_keeps (f : Z) (st : Render.State) (frame_time : Q)
  (next_tower : string) :
  let st' := Render.start_transmission seed_h3 tower_visibility visible_cells
               tower_hops animation airtime_s f st frame_time next_tower in
  Render.received_cells st' = Render.received_cells st /\
  Render.hop_reached st' = Render.hop_reached st /\
  Render.received_towers st' = Render.received_towers st /\
  Render.received_quality st' = Render.received_quality st /\
  Render.transmitted_towers st' = Render.transmitted_towers st /\
  Render.received_version st' = Render.received_version st /\
  Render.seen_links st' = Render.seen_links st /\
  Render.seen_links_version st' = Render.seen_links_version st /\
  Render.completed st' = Render.completed st /\
  Render.last_state_key st' = Render.last_state_key st /\
  (Render.started st' = Render.started st ->
   Render.active_transmissions st' = Render.active_transmissions st).
Proof.
  unfold Render.start_transmission.
  destruct (String.eqb next_tower ""); [repeat split; reflexivity|].
  destruct (fold_left _ _ _) as [tiered cell_tiers].
  cbn [Py.uniform]. repeat split; try reflexivity.
  cbn [Render.started]. intro H. exfalso.
  apply (f_equal (@List.length _)) in H. rewrite length_app in H.
  simpl in H. lia.
Qed.

Lemma render_after_start_keeps (st : Render.State) (f : Z) :
  Render.received_cells (render_started_phase st f)
  = Render.received_cells (render_after_finalize animation st f) /\
  Render.hop_reached (render_started_phase st f)
  = Render.hop_reached (render_after_finalize animation st f) /\
  Render.received_towers (render_started_phase st f)
  = Render.received_towers (render_after_finalize animation st f) /\
  Render.received_quality (render_started_phase st f)
  = Render.received_quality (render_after_finalize animation st f) /\
  Render.transmitted_towers (render_started_phase st f)
  = Render.transmitted_towers (render_after_finalize animation st f) /\
  Render.received_version (render_started_phase st f)
  = Render.received_version (render_after_finalize animation st f) /\
  Render.seen_links (render_started_phase st f)
  = Render.seen_links (render_after_finalize animation st f) /\
  Render.seen_links_version (render_started_phase st f)
  = Render.seen_links_version (render_after_finalize animation st f) /\
  Render.completed (render_started_phase st f)
  = Render.completed (render_after_finalize animation st f) /\
  Render.last_state_key (render_started_phase st f)
  = Render.last_state_key (render_after_finalize animation st f) /\
  (Render.started (render_started_phase st f)
   = Render.started (render_after_finalize animation st f) ->
   Render.active_transmissions (render_started_phase st f)
   = Render.active_transmissions (render_after_finalize animation st f)).
Proof.
  unfold render_after_start. cbv zeta.
  destruct (0 <? f)%Z; [|repeat split; reflexivity].
  destruct (select_next_transmitter _ _) as [next|];
    [|repeat split; reflexivity].
  apply render_start_keeps.
Qed.
End RenderPhases.

(** ** The version counters of the render pass *)

Lemma NoDup_append {A : Type} (l1 l2 : list A) :
  NoDup l1 /\ NoDup l2 /\ (forall a, In a l1 -> ~ In a l2) ->
  NoDup (l1 ++ l2).
Proof.
  intros (H1 & H2 & H). induction l1 as [|a l1 IH]; [exact H2|].
  cbn [app]. inversion H1; subst. constructor.
  - rewrite in_app_iff. intros [Hin | Hin]; [tauto|].
    apply (H a); [now left|exact Hin].
  - apply IH; [assumption|]. intros b Hb. apply H. now right.
Qed.

Lemma link_eqb_eq (a b : Render.link) : Render.link_eqb a b = true <-> a = b.
Proof.
  destruct a as [a1 a2], b as [b1 b2]. unfold Render.link_eqb.
  cbn [fst snd]. rewrite andb_true_iff, !String.eqb_eq.
  split; [intros [-> ->]; reflexivity|intro H; now inversion H].
Qed.

Lemma existsb_link_eqb_In (x : Render.link) (l : list Render.link) :
  existsb (Render.link_eqb x) l = true <-> In x l.
Proof.
  rewrite existsb_exists. split.
  - intros (y & Hy & E). apply link_eqb_eq in E. now subst.
  - intro H. exists x. split; [exact H|now apply link_eqb_eq].
Qed.

Lemma commit_neighbor_links_counted (tower_h3 : string)
  (transmitted : list string) (entry : string * Q)
  (acc : list string * Py.dict Q * list Render.link * Z) :
  links_counted (snd (fst acc)) (snd acc) ->
  links_counted
    (snd (fst (Render.commit_neighbor tower_h3 transmitted acc entry)))
    (snd (Render.commit_neighbor tower_h3 transmitted acc entry)).
Proof.
  destruct acc as [[[towers quality] links] version], entry as [neighbor pl].
  cbn [fst snd]. intros [Hv Hn]. unfold Render.commit_neighbor.
  destruct (negb (Py.mem neighbor towers));
    (destruct (negb (Py.mem neighbor transmitted)); [|now split]);
    (destruct (existsb _ links) eqn:E; [now split|]);
    cbn [fst snd]; (split;
      [rewrite length_app; cbn [List.length]; lia|]);
    apply NoDup_append; (split; [exact Hn|]);
    (split; [constructor; [intros []|constructor]|]);
    intros x Hx [<- | []];
    apply existsb_link_eqb_In in Hx; congruence.
Qed.

Lemma commit_neighbors_links_counted (tower_h3 : string)
  (transmitted : list string) (pairs : list (string * Q)) :
  forall acc,
    links_counted (snd (fst acc)) (snd acc) ->
    links_counted
      (snd (fst (fold_left (Render.commit_neighbor tower_h3 transmitted)
                   pairs acc)))
      (snd (fold_left (Render.commit_neighbor tower_h3 transmitted)
              pairs acc)).
Proof.
  induction pairs as [|p rest IH]; intros acc H; cbn [fold_left];
    [exact H|].
  apply IH. now apply commit_neighbor_links_counted.
Qed.

Lemma render_finalize_counters (st : Render.State) (t : Render.Transmission) :
  counters_hold st -> counters_hold (Render.finalize st t).
Proof.
  intros (Hv & Hn & Hr). unfold Render.finalize.
  pose proof (commit_neighbors_links_counted (Render.tx_tower_h3 t)
                (Py.add (Render.transmitted_towers st) (Render.tx_tower_h3 t))
                (Render.tx_audible_pairs t)
                (Render.received_towers st, Render.received_quality st,
                 Render.seen_links st, Render.seen_links_version st)
                (conj Hv Hn)) as H.
  destruct (fold_left (Render.commit_neighbor _ _) _ _)
    as [[[towers quality] links] version].
  cbn [fst snd] in H. destruct H as [Hv' Hn'].
  unfold counters_hold.
  cbn [Render.seen_links_version Render.seen_links Render.received_version
       Render.completed].
  split; [exact Hv'|]. split; [exact Hn'|].
  rewrite length_app. cbn [List.length]. lia.
Qed.

Lemma render_finalize_all_counters (finished : list Render.Transmission) :
  forall st, counters_hold st ->
             counters_hold (fold_left Render.finalize finished st).
Proof.
  induction finished as [|t rest IH]; intros st H; cbn [fold_left];
    [exact H|].
  apply IH. now apply render_finalize_counters.
Qed.

Section RenderCounters.
Variable seed_h3 : string.
Variable tower_visibility : Py.dict (list (string * Q)).
Variable visible_cells : Py.dict (list (string * Q)).
Variable tower_hops : Py.dict Z.
Variable animation : AnimationConfig.
Variable airtime_s : Q.
Variable order : Z -> list string -> list string.

Lemma render_frame_body_counters (st : Render.State) (f : Z) :
  counters_hold st ->
  counters_hold
    (Render.frame_body seed_h3 tower_visibility visible_cells tower_hops
       animation airtime_s order st f).
Proof.
  intro H.
  destruct (render_frame_body_phases seed_h3 tower_visibility visible_cells
              tower_hops animation airtime_s order st f)
    as (_ & _ & _ & _ & _ & Hrv & Hsl & Hsv & _ & _ & Hc & _).
  destruct (render_after_start_keeps seed_h3 tower_visibility visible_cells
              tower_hops animation airtime_s order st f)
    as (_ & _ & _ & _ & _ & Hrv' & Hsl' & Hsv' & Hc' & _).
  unfold counters_hold. rewrite Hrv, Hsl, Hsv, Hc, Hrv', Hsl', Hsv', Hc'.
  apply render_finalize_all_counters. exact H.
Qed.
End RenderCounters.

(** X17. The two version counters of the frame loop count what they
    stand for: after any number of frames, [seen_links_version] is the
    number of links in [seen_links], which holds no link twice, and
    [received_version] is the number of transmissions completed so
    far. *)
Theorem render_version_counters (seed_h3 : string)
  (tower_visibility visible_cells : Py.dict (list (string * Q)))
  (tower_hops : Py.dict Z) (animation : AnimationConfig) (airtime_s : Q)
  (order : Z -> list string -> list string) (gen : Py.Random) (n : nat) :
  counters_hold
    (render_run seed_h3 tower_visibility visible_cells tower_hops animation
       airtime_s order gen n).
Proof.
  unfold render_run. induction n as [|n IH].
  - repeat split. constructor.
  - cbn [Render.render_frames]. now apply render_frame_body_counters.
Qed.

(** ** The hop buckets *)

Lemma setdefault_put_keys (d : list (Z * list string)) (k : Z) (x : string) :
  NoDup (map fst d) ->
  NoDup (map fst (Render.setdefault_put Z.eqb Py.add d k x)) /\
  (forall k', In k' (map fst (Render.setdefault_put Z.eqb Py.add d k x))
              <-> In k' (map fst d) \/ k' = k).
Proof.
  induction d as [|[k0 xs] rest IH]; intro H; cbn [Render.setdefault_put].
  - split; [repeat constructor; intros []|].
    intro k'. simpl. intuition.
  - destruct (Z.eqb_spec k0 k) as [-> | Hne].
    + split; [exact H|]. intro k'. simpl. intuition.
    + inversion H as [|? ? Hnin Hrest]; subst.
      destruct (IH Hrest) as [Hn Hin]. cbn [map fst]. split.
      * constructor; [|exact Hn]. rewrite Hin. intros [Hx | Hx];
          [contradiction|congruence].
      * intro k'. simpl. rewrite Hin. intuition.
Qed.

Lemma setdefault_put_cells (d : list (Z * list string)) (k : Z) (x : string) :
  ~ In x (List.concat (map snd d)) ->
  Permutation (List.concat (map snd (Render.setdefault_put Z.eqb Py.add d k x)))
    (List.concat (map snd d) ++ [x]).
Proof.
  induction d as [|[k0 xs] rest IH]; intro H; cbn [Render.setdefault_put].
  - reflexivity.
  - cbn [map snd List.concat] in H. rewrite in_app_iff in H.
    destruct (Z.eqb k0 k); cbn [map snd List.concat].
    + unfold Py.add. destruct (Py.mem x xs) eqn:E.
      * apply mem_In in E. tauto.
      * rewrite <- !app_assoc. apply Permutation_app_head.
        apply Permutation_app_comm.
    + rewrite <- app_assoc. apply Permutation_app_head. apply IH. tauto.
Qed.

Lemma setdefault_empty_cells (d : list (Z * list string)) (k : Z) :
  List.concat (map snd (setdefault_empty d k)) = List.concat (map snd d).
Proof.
  induction d as [|[k0 xs] rest IH]; cbn [setdefault_empty].
  - reflexivity.
  - destruct (Z.eqb k0 k); [reflexivity|].
    cbn [map snd List.concat]. now rewrite IH.
Qed.

Lemma setdefault_empty_keys (d : list (Z * list string)) (k : Z) :
  NoDup (map fst d) -> NoDup (map fst (setdefault_empty d k)).
Proof.
  intro H.
  assert (Hin : forall k', In k' (map fst (setdefault_empty d k))
                           <-> In k' (map fst d) \/ k' = k).
  { clear H. induction d as [|[k0 xs] rest IH]; intro k';
      cbn [setdefault_empty].
    - simpl. intuition.
    - destruct (Z.eqb_spec k0 k) as [-> | Hne]; simpl; [intuition|].
      rewrite IH. intuition. }
  induction d as [|[k0 xs] rest IH]; cbn [setdefault_empty].
  - repeat constructor. intros [].
  - destruct (Z.eqb_spec k0 k) as [-> | Hne]; [exact H|].
    inversion H as [|? ? Hnin Hrest]; subst. cbn [map fst].
    constructor.
    + clear IH Hin. intro Hx. apply Hnin. clear Hnin H Hrest.
      induction rest as [|[k1 ys] rest IH]; cbn [setdefault_empty] in Hx.
      * destruct Hx as [Hx | []]. cbn [fst] in Hx. congruence.
      * destruct (Z.eqb k1 k); [exact Hx|].
        destruct Hx as [Hx | Hx]; [now left|right; now apply IH].
    + apply IH; [exact Hrest|].
      clear. induction rest as [|[k1 ys] rest IH]; intro k';
        cbn [setdefault_empty].
      * simpl. intuition.
      * destruct (Z.eqb_spec k1 k) as [-> | Hne]; simpl; [intuition|].
        rewrite IH. intuition.
Qed.

(** Putting a new cell into a bucket keeps the buckets a split. *)
Lemma buckets_split_put (buckets : list (Z * list string))
  (cells : list string) (k : Z) (x : string) :
  buckets_split buckets cells -> ~ In x cells ->
  buckets_split (Render.setdefault_put Z.eqb Py.add buckets k x)
    (Py.add cells x).
Proof.
  intros (Hp & Hn & Hk) Hx. split; [|split].
  - rewrite setdefault_put_cells.
    + unfold Py.add. apply mem_not_In in Hx. rewrite Hx.
      now apply Permutation_app_tail.
    + intro Hin. apply Hx. eapply Permutation_in; eassumption.
  - now apply add_NoDup.
  - now apply setdefault_put_keys.
Qed.

Lemma add_member (s : list string) (x : string) : In x s -> Py.add s x = s.
Proof. intro H. unfold Py.add. apply mem_In in H. now rewrite H. Qed.

Lemma render_commit_cell_split (entry : string * nat * Z * Q)
  (acc : Py.dict Q * list (Z * list string)) :
  buckets_split (snd acc) (Py.keys (fst acc)) ->
  buckets_split (snd (Render.commit_cell acc entry))
    (Py.keys (fst (Render.commit_cell acc entry))).
Proof.
  destruct acc as [cells buckets], entry as [[[c tier] hop] pl].
  cbn [fst snd]. intro H. unfold Render.commit_cell.
  destruct (Py.get cells c) as [best|] eqn:E.
  - destruct (Py.Qltb pl best); cbn [fst snd]; [|exact H].
    rewrite keys_set, add_member; [exact H|].
    apply Decidable.not_not; [|rewrite <- get_keys_None; congruence].
    destruct (in_dec string_dec c (Py.keys cells)); [now left|now right].
  - cbn [fst snd]. rewrite keys_set. apply buckets_split_put; [exact H|].
    now apply get_keys_None.
Qed.

Lemma render_commit_cells_split (entries : list (string * nat * Z * Q)) :
  forall acc,
    buckets_split (snd acc) (Py.keys (fst acc)) ->
    buckets_split (snd (fold_left Render.commit_cell entries acc))
      (Py.keys (fst (fold_left Render.commit_cell entries acc))).
Proof.
  induction entries as [|e rest IH]; intros acc H; cbn [fold_left];
    [exact H|].
  apply IH. now apply render_commit_cell_split.
Qed.

Lemma render_finalize_split (st : Render.State) (t : Render.Transmission) :
  hops_split_cells st -> hops_split_cells (Render.finalize st t).
Proof.
  intro H. unfold Render.finalize.
  destruct (fold_left (Render.commit_neighbor _ _) _ _) as [[[? ?] ?] ?].
  unfold hops_split_cells. cbn [Render.hop_reached Render.received_cells].
  apply (render_commit_cells_split (Render.tx_cell_tiers t)
           (Render.received_cells st, Render.hop_reached st)).
  exact H.
Qed.

Lemma render_finalize_all_split (finished : list Render.Transmission) :
  forall st, hops_split_cells st ->
             hops_split_cells (fold_left Render.finalize finished st).
Proof.
  induction finished as [|t rest IH]; intros st H; cbn [fold_left];
    [exact H|].
  apply IH. now apply render_finalize_split.
Qed.

Section HopBuckets.
Variable seed_h3 : string.
Variable tower_visibility : Py.dict (list (string * Q)).
Variable visible_cells : Py.dict (list (string * Q)).
Variable tower_hops : Py.dict Z.
Variable animation : AnimationConfig.
Variable airtime_s : Q.
Variable order : Z -> list string -> list string.

Lemma render_frame_body_split (st : Render.State) (f : Z) :
  hops_split_cells st ->
  hops_split_cells
    (Render.frame_body seed_h3 tower_visibility visible_cells tower_hops
       animation airtime_s order st f).
Proof.
  intro H.
  destruct (render_frame_body_phases seed_h3 tower_visibility visible_cells
              tower_hops animation airtime_s order st f)
    as (Hc & Hh & _).
  destruct (render_after_start_keeps seed_h3 tower_visibility visible_cells
              tower_hops animation airtime_s order st f)
    as (Hc' & Hh' & _).
  unfold hops_split_cells. rewrite Hc, Hh, Hc', Hh'.
  apply render_finalize_all_split. exact H.
Qed.

Lemma render_run_split (gen : Py.Random) (n : nat) :
  hops_split_cells
    (render_run seed_h3 tower_visibility visible_cells tower_hops animation
       airtime_s order gen n).
Proof.
  unfold render_run. induction n as [|n IH].
  - split; [reflexivity|]. split; constructor.
  - cbn [Render.render_frames]. now apply render_frame_body_split.
Qed.
End HopBuckets.

(** The overlay of the transmissions on air *)

Lemma effective_cell_split (received_cells : Py.dict Q) (hop_index : Z)
  (entry : string * nat * Z * Q) (acc : list string * list (Z * list string)) :
  buckets_split (snd acc) (fst acc) ->
  buckets_split (snd (effective_cell received_cells hop_index acc entry))
    (fst (effective_cell received_cells hop_index acc entry)).
Proof.
  destruct acc as [cells buckets], entry as [[[c tier] hop] pl].
  cbn [fst snd]. intro H. unfold effective_cell.
  destruct (Py.contains received_cells c || Py.mem c cells) eqn:E;
    cbn [fst snd]; [exact H|].
  apply orb_false_iff in E. destruct E as [_ E]. apply mem_not_In in E.
  now apply buckets_split_put.
Qed.

Lemma effective_transmission_split (received_cells : Py.dict Q)
  (t : Render.Transmission) (acc : list string * list (Z * list string)) :
  buckets_split (snd acc) (fst acc) ->
  buckets_split (snd (effective_transmission received_cells acc t))
    (fst (effective_transmission received_cells acc t)).
Proof.
  destruct acc as [cells buckets]. cbn [fst snd]. intros (Hp & Hn & Hk).
  unfold effective_transmission.
  assert (H0 : buckets_split
                 (snd (cells, setdefault_empty buckets (Render.tx_hop t)))
                 (fst (cells, setdefault_empty buckets (Render.tx_hop t)))).
  { cbn [fst snd]. split; [|split].
    - now rewrite setdefault_empty_cells.
    - exact Hn.
    - now apply setdefault_empty_keys. }
  revert H0.
  generalize (cells, setdefault_empty buckets (Render.tx_hop t)).
  induction (Render.tx_cell_tiers t) as [|e rest IH]; intros acc H;
    cbn [fold_left]; [exact H|].
  apply IH. now apply effective_cell_split.
Qed.

Lemma effective_coverage_split (st : Render.State) :
  hops_split_cells st ->
  buckets_split (effective_hop_reached st) (effective_cells st).
Proof.
  intro H. unfold effective_hop_reached, effective_cells, effective_coverage.
  assert (H0 : buckets_split
                 (snd (Py.keys (Render.received_cells st),
                       Render.hop_reached st))
                 (fst (Py.keys (Render.received_cells st),
                       Render.hop_reached st))) by exact H.
  revert H0.
  generalize (Py.keys (Render.received_cells st), Render.hop_reached st).
  induction (Render.active_transmissions st) as [|t rest IH]; intros acc H0;
    cbn [fold_left]; [exact H0|].
  apply IH. now apply effective_transmission_split.
Qed.

(** Sums of rationals *)

Lemma fold_Qplus_shift (xs : list Q) : forall a,
  (fold_left Qplus xs a == a + fold_left Qplus xs 0)%Q.
Proof.
  induction xs as [|x rest IH]; intro a; cbn [fold_left].
  - ring.
  - rewrite (IH (a + x)%Q), (IH (0 + x)%Q). ring.
Qed.

Lemma sum_cons (x : Q) (xs : list Q) : (Py.sum (x :: xs) == x + Py.sum xs)%Q.
Proof.
  unfold Py.sum. cbn [fold_left]. rewrite fold_Qplus_shift. ring.
Qed.

Lemma sum_app (xs ys : list Q) :
  (Py.sum (xs ++ ys) == Py.sum xs + Py.sum ys)%Q.
Proof.
  induction xs as [|x rest IH]; cbn [app].
  - unfold Py.sum at 2. cbn [fold_left]. ring.
  - rewrite !sum_cons, IH. ring.
Qed.

Lemma sum_Permutation (xs ys : list Q) :
  Permutation xs ys -> (Py.sum xs == Py.sum ys)%Q.
Proof.
  induction 1.
  - reflexivity.
  - rewrite !sum_cons. now rewrite IHPermutation.
  - rewrite !sum_cons. ring.
  - etransitivity; eassumption.
Qed.

Lemma hop_values_sum (population : Py.dict Q)
  (buckets : list (Z * list string)) :
  (Py.sum (map snd (hop_values population buckets))
   == population_sum population (List.concat (map snd buckets)))%Q.
Proof.
  induction buckets as [|[k xs] rest IH]; cbn [hop_values map snd List.concat].
  - reflexivity.
  - rewrite sum_cons. fold (hop_values population rest). rewrite IH.
    unfold population_sum. rewrite map_app, sum_app. reflexivity.
Qed.

(** X18. The hop breakdown of the label overlay adds up.  In every frame
    each cell counted as reached -- received, or covered by a
    transmission on air -- lies in exactly one hop bucket, no hop has
    two buckets, and (with exact sums) the populations of the hop
    buckets add up to the population reached. *)
Theorem hop_breakdown_adds_up (seed_h3 : string)
  (tower_visibility visible_cells : Py.dict (list (string * Q)))
  (population : Py.dict Q) (tower_hops : Py.dict Z)
  (animation : AnimationConfig) (airtime_s : Q)
  (order : Z -> list string -> list string) (gen : Py.Random) (n : nat) :
  let st := render_run seed_h3 tower_visibility visible_cells tower_hops
              animation airtime_s order gen n in
  buckets_split (effective_hop_reached st) (effective_cells st) /\
  (Py.sum (map snd (hop_values population (effective_hop_reached st)))
   == population_sum population (effective_cells st))%Q.
Proof.
  intro st.
  assert (H : buckets_split (effective_hop_reached st) (effective_cells st)).
  { apply effective_coverage_split. apply render_run_split. }
  split; [exact H|].
  rewrite hop_values_sum. unfold population_sum.
  apply sum_Permutation. apply Permutation_map. apply H.
Qed.

(** ** Which frames are drawn anew *)

Lemma state_key_eqb_refl (key : Render.state_key) :
  Render.state_key_eqb key key = true.
Proof.
  destruct key as [[[towers received] links] seen]. unfold Render.state_key_eqb.
  destruct (list_eq_dec string_dec towers towers) as [_ | H]; [|congruence].
  rewrite !Z.eqb_refl, Nat.eqb_refl. cbn [andb]. rewrite andb_true_r.
  induction links as [|l rest IH]; [reflexivity|].
  cbn [combine forallb fst snd]. rewrite IH, andb_true_r.
  now apply link_eqb_eq.
Qed.

Lemma state_key_eqb_received (towers towers' : list string)
  (received received' : Z) (links links' : list Render.link)
  (seen seen' : Z) :
  received <> received' ->
  Render.state_key_eqb (towers, received, links, seen)
    (towers', received', links', seen') = false.
Proof.
  intro H. unfold Render.state_key_eqb.
  apply Z.eqb_neq in H. rewrite H.
  now rewrite andb_false_r.
Qed.

Lemma render_finalize_all_version (finished : list Render.Transmission) :
  forall st,
    Render.received_version (fold_left Render.finalize finished st)
    = (Render.received_version st + Z.of_nat (List.length finished))%Z /\
    Render.last_state_key (fold_left Render.finalize finished st)
    = Render.last_state_key st.
Proof.
  induction finished as [|t rest IH]; intro st; cbn [fold_left List.length].
  - split; [lia|reflexivity].
  - destruct (IH (Render.finalize st t)) as [Hv Hk]. rewrite Hv, Hk.
    unfold Render.finalize.
    destruct (fold_left (Render.commit_neighbor _ _) _ _) as [[[? ?] ?] ?].
    cbn [Render.received_version Render.last_state_key]. split; [lia|reflexivity].
Qed.

Section DrawnFrames.
Variable seed_h3 : string.
Variable tower_visibility : Py.dict (list (string * Q)).
Variable visible_cells : Py.dict (list (string * Q)).
Variable tower_hops : Py.dict Z.
Variable animation : AnimationConfig.
Variable airtime_s : Q.
Variable order : Z -> list string -> list string.

Abbreviation drawn_body :=
  (Render.frame_body seed_h3 tower_visibility visible_cells tower_hops
     animation airtime_s order).
Abbreviation drawn_started_phase :=
  (render_after_start seed_h3 tower_visibility visible_cells tower_hops
     animation airtime_s order).

(** The transmissions finalized by a frame are those it adds to the
    log of completions. *)
Lemma render_frame_body_completed (st : Render.State) (f : Z) :
  Render.completed (drawn_body st f)
  = Render.completed st
    ++ map Render.tx_tower_h3 (render_finished_of animation st f).
Proof.
  destruct (render_frame_body_phases seed_h3 tower_visibility visible_cells
              tower_hops animation airtime_s order st f)
    as (_ & _ & _ & _ & _ & _ & _ & _ & _ & _ & Hc & _).
  destruct (render_after_start_keeps seed_h3 tower_visibility visible_cells
              tower_hops animation airtime_s order st f)
    as (_ & _ & _ & _ & _ & _ & _ & _ & Hc' & _).
  rewrite Hc, Hc'. unfold render_after_finalize.
  match goal with
  | |- context [fold_left Render.finalize ?l ?s0] =>
      destruct (render_finalize_all_fields l s0) as (_ & _ & H & _)
  end.
  exact H.
Qed.

Lemma render_frame_body_version (st : Render.State) (f : Z) :
  Render.received_version (drawn_started_phase st f)
  = (Render.received_version st
     + Z.of_nat (List.length (render_finished_of animation st f)))%Z /\
  Render.last_state_key (drawn_started_phase st f)
  = Render.last_state_key st.
Proof.
  destruct (render_after_start_keeps seed_h3 tower_visibility visible_cells
              tower_hops animation airtime_s order st f)
    as (_ & _ & _ & _ & _ & Hv & _ & _ & _ & Hk & _).
  rewrite Hv, Hk. unfold render_after_finalize.
  match goal with
  | |- context [fold_left Render.finalize ?l ?s0] =>
      destruct (render_finalize_all_version l s0) as (H1 & H2)
  end.
  split; [exact H1|exact H2].
Qed.

(** A frame that completes and starts nothing leaves the state as it
    was, and its key is the key of that state. *)
Lemma quiet_frame (st : Render.State) (f : Z) :
  Render.completed (drawn_body st f) = Render.completed st ->
  Render.started (drawn_body st f) = Render.started st ->
  render_key_of (render_active_of animation st f) (drawn_started_phase st f)
  = render_key_of (Render.active_transmissions st) st /\
  Render.active_transmissions (drawn_body st f)
  = Render.active_transmissions st /\
  Render.transmitted_towers (drawn_body st f)
  = Render.transmitted_towers st /\
  Render.received_version (drawn_body st f) = Render.received_version st /\
  Render.seen_links_version (drawn_body st f)
  = Render.seen_links_version st.
Proof.
  intros Hc Hs.
  rewrite render_frame_body_completed in Hc.
  assert (Hfin : render_finished_of animation st f = []).
  { destruct (render_finished_of animation st f) as [|t rest];
      [reflexivity|].
    apply (f_equal (@List.length _)) in Hc. rewrite length_app in Hc.
    simpl in Hc. lia. }
  destruct (render_frame_body_phases seed_h3 tower_visibility visible_cells
              tower_hops animation airtime_s order st f)
    as (_ & _ & _ & _ & Ht & Hv & _ & Hsv & Ha & Hst & _).
  destruct (render_after_start_keeps seed_h3 tower_visibility visible_cells
              tower_hops animation airtime_s order st f)
    as (_ & _ & _ & _ & Ht' & Hv' & _ & Hsv' & _ & _ & Ha').
  assert (Hact : render_active_of animation st f
                 = Render.active_transmissions st).
  { unfold render_active_of. now rewrite Hfin. }
  assert (Hfz : render_after_finalize animation st f
                = {| Render.received_cells := Render.received_cells st;
                     Render.hop_reached := Render.hop_reached st;
                     Render.received_towers := Render.received_towers st;
                     Render.received_quality := Render.received_quality st;
                     Render.transmitted_towers := Render.transmitted_towers st;
                     Render.received_version := Render.received_version st;
                     Render.seen_links := Render.seen_links st;
                     Render.seen_links_version := Render.seen_links_version st;
                     Render.active_transmissions :=
                       Render.active_transmissions st;
                     Render.render_rng := Render.render_rng st;
                     Render.last_state_key := Render.last_state_key st;
                     Render.needs_render := Render.needs_render st;
                     Render.started := Render.started st;
                     Render.completed := Render.completed st |}).
  { unfold render_after_finalize. rewrite Hfin, Hact. reflexivity. }
  rewrite Hfz in Ht', Hv', Hsv', Ha'.
  cbn [Render.transmitted_towers Render.received_version
       Render.seen_links_version Render.active_transmissions
       Render.started] in Ht', Hv', Hsv', Ha'.
  rewrite Hst in Hs. specialize (Ha' Hs).
  rewrite Ht, Hv, Hsv, Ha, Ht', Hv', Hsv', Ha', Hact.
  unfold render_key_of. rewrite Ht', Hv', Hsv', Ha'.
  repeat split; reflexivity.
Qed.
End DrawnFrames.

(** X19. The second of two quiet frames is not drawn anew.  When two
    successive frames of the frame loop neither complete nor start a
    transmission, the state key of the second equals the key the first
    left behind, so [needs_render] is false after the second. *)
Theorem quiet_frames_are_not_redrawn (seed_h3 : string)
  (tower_visibility visible_cells : Py.dict (list (string * Q)))
  (tower_hops : Py.dict Z) (animation : AnimationConfig) (airtime_s : Q)
  (order : Z -> list string -> list string) (st : Render.State)
  (f f' : Z) :
  let body := Render.frame_body seed_h3 tower_visibility visible_cells
                tower_hops animation airtime_s order in
  Render.completed (body st f) = Render.completed st ->
  Render.started (body st f) = Render.started st ->
  Render.completed (body (body st f) f') = Render.completed (body st f) ->
  Render.started (body (body st f) f') = Render.started (body st f) ->
  Render.needs_render (body (body st f) f') = false.
Proof.
  intros body Hc1 Hs1 Hc2 Hs2. subst body.
  destruct (quiet_frame seed_h3 tower_visibility visible_cells tower_hops
              animation airtime_s order st f Hc1 Hs1)
    as (Hk1 & Ha1 & Ht1 & Hv1 & Hsv1).
  set (s1 := Render.frame_body seed_h3 tower_visibility visible_cells
               tower_hops animation airtime_s order st f) in *.
  destruct (quiet_frame seed_h3 tower_visibility visible_cells tower_hops
              animation airtime_s order s1 f' Hc2 Hs2)
    as (Hk2 & _).
  destruct (render_frame_body_phases seed_h3 tower_visibility visible_cells
              tower_hops animation airtime_s order s1 f')
    as (_ & _ & _ & _ & _ & _ & _ & _ & _ & _ & _ & _ & Hn).
  destruct (render_frame_body_version seed_h3 tower_visibility visible_cells
              tower_hops animation airtime_s order s1 f') as [_ Hlast].
  rewrite Hn, Hlast, Hk2.
  destruct (render_frame_body_phases seed_h3 tower_visibility visible_cells
              tower_hops animation airtime_s order st f)
    as (_ & _ & _ & _ & _ & _ & _ & _ & _ & _ & _ & Hkey & _).
  fold s1 in Hkey. rewrite Hkey, Hk1.
  unfold render_key_of. rewrite Ha1, Ht1, Hv1, Hsv1.
  now rewrite state_key_eqb_refl.
Qed.

Lemma quiet_frames_are_not_redrawn_witness :
  let body := Render.frame_body "A" sample_visibility sample_cells sample_hops
                sample_animation (1 # 2)%Q as_listed in
  let st := render_run "A" sample_visibility sample_cells sample_hops
              sample_animation (1 # 2)%Q as_listed sample_unit_rng 4 in
  Render.completed (body st 4%Z) = Render.completed st /\
  Render.started (body st 4%Z) = Render.started st /\
  Render.needs_render (body (body st 4%Z) 5%Z) = false.
Proof.
  intros body st.
  split; [vm_compute; reflexivity|]. split; [vm_compute; reflexivity|].
  apply (quiet_frames_are_not_redrawn "A" sample_visibility sample_cells
           sample_hops sample_animation (1 # 2)%Q as_listed st 4%Z 5%Z);
    vm_compute; reflexivity.
Defined.

(** X20. A frame that completes a transmission is drawn anew: when a
    frame that follows another frame of the loop finalizes a
    transmission, [received_version] has moved past the value in the
    key left behind, and [needs_render] is true after the frame. *)
Theorem completing_frames_are_redrawn (seed_h3 : string)
  (tower_visibility visible_cells : Py.dict (list (string * Q)))
  (tower_hops : Py.dict Z) (animation : AnimationConfig) (airtime_s : Q)
  (order : Z -> list string -> list string) (st : Render.State)
  (f f' : Z) :
  let body := Render.frame_body seed_h3 tower_visibility visible_cells
                tower_hops animation airtime_s order in
  Render.completed (body (body st f) f') <> Render.completed (body st f) ->
  Render.needs_render (body (body st f) f') = true.
Proof.
  intros body Hc. subst body.
  set (s1 := Render.frame_body seed_h3 tower_visibility visible_cells
               tower_hops animation airtime_s order st f) in *.
  rewrite render_frame_body_completed in Hc.
  assert (Hfin : 0 < List.length (render_finished_of animation s1 f')).
  { destruct (render_finished_of animation s1 f') as [|t rest];
      [|simpl; lia].
    exfalso. apply Hc. cbn [map]. now rewrite app_nil_r. }
  destruct (render_frame_body_phases seed_h3 tower_visibility visible_cells
              tower_hops animation airtime_s order s1 f')
    as (_ & _ & _ & _ & _ & _ & _ & _ & _ & _ & _ & _ & Hn).
  destruct (render_frame_body_version seed_h3 tower_visibility visible_cells
              tower_hops animation airtime_s order s1 f') as [Hv Hlast].
  rewrite Hn, Hlast.
  destruct (render_frame_body_phases seed_h3 tower_visibility visible_cells
              tower_hops animation airtime_s order st f)
    as (_ & _ & _ & _ & _ & Hv1 & _ & _ & _ & _ & _ & Hkey & _).
  fold s1 in Hkey, Hv1. rewrite Hkey. unfold render_key_of.
  rewrite state_key_eqb_received; [reflexivity|].
  rewrite Hv, <- Hv1. lia.
Qed.

Lemma completing_frames_are_redrawn_witness :
  let body := Render.frame_body "A" sample_visibility sample_cells sample_hops
                sample_animation (1 # 2)%Q as_listed in
  let st := render_run "A" sample_visibility sample_cells sample_hops
              sample_animation (1 # 2)%Q as_listed sample_unit_rng 15 in
  Render.completed (body (body st 15%Z) 16%Z)
  <> Render.completed (body st 15%Z) /\
  Render.needs_render (body (body st 15%Z) 16%Z) = true.
Proof.
  intros body st.
  split; [vm_compute; discriminate|].
  apply (completing_frames_are_redrawn "A" sample_visibility sample_cells
           sample_hops sample_animation (1 # 2)%Q as_listed st 15%Z 16%Z).
  vm_compute. discriminate.
Defined.

(** ** Map extent *)

Lemma max2_spec (a b : Q) :
  (a <= Py.max2 a b /\ b <= Py.max2 a b /\
   (Py.max2 a b == a \/ Py.max2 a b == b))%Q.
Proof.
  unfold Py.max2. destruct (Py.Qltb a b) eqn:E.
  - apply Qltb_true in E. repeat split; [lra|lra|right; reflexivity].
  - apply Qltb_false in E. repeat split; [lra|lra|left; reflexivity].
Qed.

Lemma min2_spec (a b : Q) :
  (min2 a b <= a /\ min2 a b <= b /\ (min2 a b == a \/ min2 a b == b))%Q.
Proof.
  unfold min2. destruct (Py.Qltb b a) eqn:E.
  - apply Qltb_true in E. repeat split; [lra|lra|right; reflexivity].
  - apply Qltb_false in E. repeat split; [lra|lra|left; reflexivity].
Qed.

(** X21. [expand_bbox_asymmetric] keeps the map extent valid: for a box
    inside the lon/lat world and padding ratios that are not negative,
    the padded box lies inside the world and covers the box it was
    made from. *)
Theorem expand_bbox_asymmetric_covers
  (minx miny maxx maxy left_ratio right_ratio bottom_ratio top_ratio : Q) :
  in_world (minx, miny, maxx, maxy) ->
  (0 <= left_ratio)%Q -> (0 <= right_ratio)%Q ->
  (0 <= bottom_ratio)%Q -> (0 <= top_ratio)%Q ->
  in_world (expand_bbox_asymmetric minx miny maxx maxy left_ratio right_ratio
              bottom_ratio top_ratio) /\
  covers (expand_bbox_asymmetric minx miny maxx maxy left_ratio right_ratio
            bottom_ratio top_ratio)
    (minx, miny, maxx, maxy).
Proof.
  intros (H1 & H2 & H3 & H4 & H5 & H6) Hl Hr Hb Ht.
  unfold expand_bbox_asymmetric, in_world, covers. cbv zeta.
  assert (Pl : (0 <= (maxx - minx) * left_ratio)%Q)
    by (apply Qmult_le_0_compat; lra).
  assert (Pr : (0 <= (maxx - minx) * right_ratio)%Q)
    by (apply Qmult_le_0_compat; lra).
  assert (Pb : (0 <= (maxy - miny) * bottom_ratio)%Q)
    by (apply Qmult_le_0_compat; lra).
  assert (Pt : (0 <= (maxy - miny) * top_ratio)%Q)
    by (apply Qmult_le_0_compat; lra).
  destruct (max2_spec (-180) (minx - (maxx - minx) * left_ratio))
    as (A1 & A2 & [A3 | A3]);
  destruct (min2_spec 180 (maxx + (maxx - minx) * right_ratio))
    as (B1 & B2 & [B3 | B3]);
  destruct (max2_spec (-90) (miny - (maxy - miny) * bottom_ratio))
    as (C1 & C2 & [C3 | C3]);
  destruct (min2_spec 90 (maxy + (maxy - miny) * top_ratio))
    as (D1 & D2 & [D3 | D3]);
  repeat split; lra.
Qed.

Lemma expand_bbox_asymmetric_covers_witness :
  in_world (expand_bbox_asymmetric 40 41 47 (87 # 2) (1 # 10) (3 # 10)
              (1 # 20) 4) /\
  covers (expand_bbox_asymmetric 40 41 47 (87 # 2) (1 # 10) (3 # 10)
            (1 # 20) 4)
    (40, 41, 47, 87 # 2)%Q.
Proof.
  apply expand_bbox_asymmetric_covers;
    [unfold in_world; repeat split; discriminate
    |discriminate|discriminate|discriminate|discriminate].
Defined.

(** X22. [expand_bbox] pads both sides alike: it is
    [expand_bbox_asymmetric] with the one ratio on every side, and
    when no bound of the padded box is clamped, the box keeps its
    centre and its spans grow by the factor [1 + 2 * padding_ratio]. *)
Theorem expand_bbox_about_centre (minx miny maxx maxy padding_ratio : Q) :
  (-180 <= minx - (maxx - minx) * padding_ratio)%Q ->
  (maxx + (maxx - minx) * padding_ratio <= 180)%Q ->
  (-90 <= miny - (maxy - miny) * padding_ratio)%Q ->
  (maxy + (maxy - miny) * padding_ratio <= 90)%Q ->
  expand_bbox minx miny maxx maxy padding_ratio
  = expand_bbox_asymmetric minx miny maxx maxy padding_ratio padding_ratio
      padding_ratio padding_ratio /\
  let '(padded_minx, padded_miny, padded_maxx, padded_maxy) :=
    expand_bbox minx miny maxx maxy padding_ratio in
  (padded_minx + padded_maxx == minx + maxx /\
   padded_miny + padded_maxy == miny + maxy /\
   padded_maxx - padded_minx == (maxx - minx) * (1 + 2 * padding_ratio) /\
   padded_maxy - padded_miny == (maxy - miny) * (1 + 2 * padding_ratio))%Q.
Proof.
  intros Hx1 Hx2 Hy1 Hy2. split; [reflexivity|].
  unfold expand_bbox. cbv zeta.
  assert (A : Py.max2 (-180) (minx - (maxx - minx) * padding_ratio)
              == minx - (maxx - minx) * padding_ratio).
  { unfold Py.max2. destruct (Py.Qltb _ _) eqn:E; [reflexivity|].
    apply Qltb_false in E. lra. }
  assert (B : min2 180 (maxx + (maxx - minx) * padding_ratio)
              == maxx + (maxx - minx) * padding_ratio).
  { unfold min2. destruct (Py.Qltb _ _) eqn:E; [reflexivity|].
    apply Qltb_false in E. lra. }
  assert (C : Py.max2 (-90) (miny - (maxy - miny) * padding_ratio)
              == miny - (maxy - miny) * padding_ratio).
  { unfold Py.max2. destruct (Py.Qltb _ _) eqn:E; [reflexivity|].
    apply Qltb_false in E. lra. }
  assert (D : min2 90 (maxy + (maxy - miny) * padding_ratio)
              == maxy + (maxy - miny) * padding_ratio).
  { unfold min2. destruct (Py.Qltb _ _) eqn:E; [reflexivity|].
    apply Qltb_false in E. lra. }
  rewrite A, B, C, D. repeat split; ring.
Qed.

Lemma expand_bbox_about_centre_witness :
  let '(padded_minx, padded_miny, padded_maxx, padded_maxy) :=
    expand_bbox 40 41 47 (87 # 2) (1 # 25) in
  (padded_minx + padded_maxx == 40 + 47 /\
   padded_miny + padded_maxy == 41 + (87 # 2) /\
   padded_maxx - padded_minx == (47 - 40) * (1 + 2 * (1 # 25)) /\
   padded_maxy - padded_miny == ((87 # 2) - 41) * (1 + 2 * (1 # 25)))%Q.
Proof.
  apply (expand_bbox_about_centre 40 41 47 (87 # 2) (1 # 25));
    discriminate.
Defined.

(** ** Loading the graph *)

Lemma empty_lists_get {V : Type} (tower_list : list string) (k : string) :
  Py.get (@empty_lists V tower_list) k
  = if Py.mem k tower_list then Some [] else None.
Proof.
  unfold empty_lists.
  assert (H : forall (d : Py.dict (list V)),
             Py.get (fold_left (fun d h3 => Py.set d h3 []) tower_list d) k
             = if Py.mem k tower_list then Some [] else Py.get d k).
  { induction tower_list as [|t rest IH]; intro d; cbn [fold_left].
    - reflexivity.
    - rewrite IH, get_set. unfold Py.mem. cbn [existsb].
      rewrite (String.eqb_sym k t).
      destruct (String.eqb t k), (existsb (String.eqb k) rest);
        reflexivity. }
  apply H.
Qed.

Lemma append_at_get {V : Type} (d d' : Py.dict (list V)) (k : string) (x : V) :
  append_at d k x = Some d' ->
  forall k', Py.get_default d' k' []
             = if String.eqb k k' then Py.get_default d k' [] ++ [x]
               else Py.get_default d k' [].
Proof.
  unfold append_at. destruct (Py.get d k) as [xs|] eqn:E; [|discriminate].
  intros H k'. inversion H; subst d'. unfold Py.get_default.
  rewrite get_set. destruct (String.eqb_spec k k') as [<- | Hne];
    [now rewrite E|reflexivity].
Qed.

Lemma append_at_keys {V : Type} (d : Py.dict (list V)) (k : string) (x : V) :
  match append_at d k x with
  | Some d' => In k (Py.keys d) /\ Py.keys d' = Py.keys d
  | None => ~ In k (Py.keys d)
  end.
Proof.
  unfold append_at. destruct (Py.get d k) as [xs|] eqn:E.
  - assert (Hin : In k (Py.keys d)).
    { destruct (in_dec string_dec k (Py.keys d)) as [Hin | Hn];
        [exact Hin|].
      apply get_keys_None in Hn. congruence. }
    split; [exact Hin|]. rewrite keys_set. unfold Py.add.
    apply mem_In in Hin. now rewrite Hin.
  - now apply get_keys_None.
Qed.

Lemma empty_lists_keys {V : Type} (tower_list : list string) (k : string) :
  In k (Py.keys (@empty_lists V tower_list)) <-> In k tower_list.
Proof.
  pose proof (@empty_lists_get V tower_list k) as H. split.
  - intro Hin. destruct (Py.mem k tower_list) eqn:E; [now apply mem_In|].
    apply get_keys_None in H. contradiction.
  - intro Hin. apply mem_In in Hin. rewrite Hin in H.
    destruct (in_dec string_dec k (Py.keys (@empty_lists V tower_list)))
      as [Hk | Hn]; [exact Hk|].
    apply get_keys_None in Hn. congruence.
Qed.

Lemma count_occ_last (l : list string) (x y : string) :
  count_occ string_dec (l ++ [x]) y
  = count_occ string_dec l y + (if String.eqb x y then 1 else 0).
Proof.
  rewrite count_occ_app. cbn [count_occ].
  destruct (string_dec x y) as [-> | Hne].
  - now rewrite String.eqb_refl.
  - apply String.eqb_neq in Hne. now rewrite Hne.
Qed.

Lemma adjacency_rows_failed (rows : list (string * string)) :
  fold_left adjacency_row rows None = None.
Proof. induction rows as [|r rest IH]; [reflexivity|exact IH]. Qed.

Lemma append_at_count (d d' : Py.dict (list string)) (k x a b : string) :
  append_at d k x = Some d' ->
  count_occ string_dec (Py.get_default d' a []) b
  = count_occ string_dec (Py.get_default d a []) b
    + (if String.eqb k a && String.eqb x b then 1 else 0).
Proof.
  intro H. rewrite (append_at_get _ _ _ _ H a).
  destruct (String.eqb k a); cbn [andb]; [|lia].
  apply count_occ_last.
Qed.

Lemma rows_between_cons (s d : string) (rest : list (string * string))
  (a b : string) :
  rows_between ((s, d) :: rest) a b
  = (if String.eqb s a && String.eqb d b then 1 else 0)
    + rows_between rest a b.
Proof.
  unfold rows_between. cbn [count_occ].
  destruct (link_dec (s, d) (a, b)) as [E | E].
  - inversion E; subst. now rewrite !String.eqb_refl.
  - destruct (String.eqb_spec s a) as [-> | Hs]; cbn [andb]; [|reflexivity].
    destruct (String.eqb_spec d b) as [-> | Hd]; [congruence|reflexivity].
Qed.

Lemma adjacency_rows_count (rows : list (string * string)) :
  forall adjacency0 adjacency,
    fold_left adjacency_row rows (Some adjacency0) = Some adjacency ->
    forall a b,
      count_occ string_dec (Py.get_default adjacency a []) b
      = count_occ string_dec (Py.get_default adjacency0 a []) b
        + rows_between rows a b + rows_between rows b a.
Proof.
  induction rows as [|[s d] rest IH]; intros adjacency0 adjacency H a b.
  - inversion H; subst. unfold rows_between. cbn [count_occ]. lia.
  - cbn [fold_left adjacency_row] in H.
    destruct (append_at adjacency0 s d) as [adjacency1|] eqn:E1;
      [|rewrite adjacency_rows_failed in H; discriminate].
    destruct (append_at adjacency1 d s) as [adjacency2|] eqn:E2;
      [|rewrite adjacency_rows_failed in H; discriminate].
    rewrite (IH _ _ H a b), (append_at_count _ _ _ _ a b E2),
      (append_at_count _ _ _ _ a b E1), !rows_between_cons.
    rewrite (andb_comm (String.eqb s b) (String.eqb d a)). lia.
Qed.

(** X23. [fetch_tower_adjacency] returns a symmetric graph.  When the
    loop over the rows raises no [KeyError], tower [b] stands in the
    list of tower [a] as often as the rows hold [(a, b)] or [(b, a)],
    which is as often as [a] stands in the list of [b]. *)
Theorem fetch_tower_adjacency_symmetric (towers : list string)
  (rows : list (string * string)) (adjacency : Py.dict (list string))
  (a b : string) :
  fetch_tower_adjacency towers rows = Some adjacency ->
  count_occ string_dec (Py.get_default adjacency a []) b
  = count_occ string_dec (Py.get_default adjacency b []) a /\
  (towers <> [] ->
   count_occ string_dec (Py.get_default adjacency a []) b
   = rows_between rows a b + rows_between rows b a).
Proof.
  unfold fetch_tower_adjacency. destruct towers as [|t rest].
  - intro H. inversion H; subst. split; [reflexivity|congruence].
  - intro H.
    assert (Hempty : forall k x,
               count_occ string_dec
                 (Py.get_default (@empty_lists string (t :: rest)) k []) x = 0).
    { intros k x. unfold Py.get_default. rewrite empty_lists_get.
      destruct (Py.mem k (t :: rest)); reflexivity. }
    pose proof (adjacency_rows_count rows _ _ H a b) as Hab.
    pose proof (adjacency_rows_count rows _ _ H b a) as Hba.
    rewrite Hempty in Hab, Hba. split; [lia|]. intros _. lia.
Qed.

Lemma fetch_tower_adjacency_symmetric_witness :
  count_occ string_dec
    (Py.get_default
       [("A", ["B"; "C"; "B"]); ("B", ["A"; "A"]); ("C", ["A"])] "A" []) "B"
  = count_occ string_dec
      (Py.get_default
         [("A", ["B"; "C"; "B"]); ("B", ["A"; "A"]); ("C", ["A"])] "B" []) "A"
  /\ (["A"; "B"; "C"] <> [] ->
      count_occ string_dec
        (Py.get_default
           [("A", ["B"; "C"; "B"]); ("B", ["A"; "A"]); ("C", ["A"])] "A" [])
        "B"
      = rows_between [("A", "B"); ("C", "A"); ("B", "A")] "A" "B"
        + rows_between [("A", "B"); ("C", "A"); ("B", "A")] "B" "A").
Proof.
  apply (fetch_tower_adjacency_symmetric ["A"; "B"; "C"]
           [("A", "B"); ("C", "A"); ("B", "A")]).
  reflexivity.
Defined.

Lemma adjacency_rows_keys (rows : list (string * string)) :
  forall adjacency0,
    match fold_left adjacency_row rows (Some adjacency0) with
    | Some adjacency =>
        Py.keys adjacency = Py.keys adjacency0 /\
        (forall row, In row rows ->
                     In (fst row) (Py.keys adjacency0) /\
                     In (snd row) (Py.keys adjacency0))
    | None =>
        exists row, In row rows /\
                    ~ (In (fst row) (Py.keys adjacency0) /\
                       In (snd row) (Py.keys adjacency0))
    end.
Proof.
  induction rows as [|[s d] rest IH]; intro adjacency0.
  - cbn [fold_left]. split; [reflexivity|intros row []].
  - cbn [fold_left adjacency_row].
    pose proof (append_at_keys adjacency0 s d) as H1.
    destruct (append_at adjacency0 s d) as [adjacency1|].
    + destruct H1 as [Hs Hk1].
      pose proof (append_at_keys adjacency1 d s) as H2.
      destruct (append_at adjacency1 d s) as [adjacency2|].
      * destruct H2 as [Hd Hk2]. rewrite Hk1 in Hd, Hk2.
        specialize (IH adjacency2). rewrite Hk2 in IH.
        destruct (fold_left adjacency_row rest (Some adjacency2)).
        -- destruct IH as [Hk Hrows]. split; [exact Hk|].
           intros row [<- | Hin]; [now split|now apply Hrows].
        -- destruct IH as (row & Hin & Hrow). exists row.
           split; [now right|exact Hrow].
      * rewrite adjacency_rows_failed. exists (s, d).
        split; [now left|]. rewrite Hk1 in H2. cbn [fst snd]. tauto.
    + rewrite adjacency_rows_failed. exists (s, d).
      split; [now left|]. cbn [fst snd]. tauto.
Qed.

(** X24. [fetch_tower_adjacency] fails only on a stray row.  For a tower
    list that is not empty the loop raises [KeyError] exactly when some
    row names an H3 index that is not in the tower list; otherwise the
    result has the towers as its keys.  For an empty tower list the
    result is the empty dict. *)
Theorem fetch_tower_adjacency_key_error (towers : list string)
  (rows : list (string * string)) :
  match fetch_tower_adjacency towers rows with
  | Some adjacency =>
      (forall k, In k (Py.keys adjacency) <-> In k towers) /\
      (towers <> [] ->
       forall row, In row rows -> In (fst row) towers /\ In (snd row) towers)
  | None =>
      towers <> [] /\
      exists row, In row rows /\
                  ~ (In (fst row) towers /\ In (snd row) towers)
  end.
Proof.
  unfold fetch_tower_adjacency. destruct towers as [|t rest].
  - split; [intro k; reflexivity|congruence].
  - pose proof (adjacency_rows_keys rows (@empty_lists string (t :: rest)))
      as H.
    destruct (fold_left adjacency_row rows _) as [adjacency|].
    + destruct H as [Hk Hrows]. split.
      * intro k. rewrite Hk. apply empty_lists_keys.
      * intros _ row Hin. destruct (Hrows row Hin) as [H1 H2].
        split; apply (@empty_lists_keys string); assumption.
    + destruct H as (row & Hin & Hrow). split; [discriminate|].
      exists row. split; [exact Hin|].
      intros [H1 H2]. apply Hrow.
      split; apply (@empty_lists_keys string); assumption.
Qed.

Lemma visibility_rows_failed (rows : list (string * string * Q)) :
  fold_left visibility_row rows None = None.
Proof. induction rows as [|r rest IH]; [reflexivity|exact IH]. Qed.

Lemma visibility_rows_group (rows : list (string * string * Q)) :
  forall visible0 visible,
    fold_left visibility_row rows (Some visible0) = Some visible ->
    forall src_h3,
      Py.get_default visible src_h3 []
      = Py.get_default visible0 src_h3 [] ++ rows_from rows src_h3.
Proof.
  induction rows as [|[[s d] pl] rest IH]; intros visible0 visible H src.
  - inversion H; subst. unfold rows_from. cbn [filter map].
    now rewrite app_nil_r.
  - cbn [fold_left visibility_row] in H.
    destruct (append_at visible0 s (d, pl)) as [visible1|] eqn:E1;
      [|rewrite visibility_rows_failed in H; discriminate].
    rewrite (IH _ _ H src), (append_at_get _ _ _ _ E1 src).
    unfold rows_from. cbn [filter fst snd].
    destruct (String.eqb s src); cbn [map fst snd];
      [now rewrite <- app_assoc|reflexivity].
Qed.

(** X25. [fetch_visible_cells] and [fetch_tower_visibility] group the
    rows by their source.  When the loop raises no [KeyError], the list
    of a tower holds the [(dst_h3, path_loss_db)] of exactly the rows
    with that source, in row order, and every key of the result is a
    tower. *)
Theorem fetch_visibility_groups_rows (towers : list string)
  (rows : list (string * string * Q))
  (visible : Py.dict (list (string * Q))) (src_h3 : string) :
  towers <> [] ->
  fetch_visible_cells towers rows = Some visible ->
  fetch_tower_visibility towers rows = Some visible /\
  Py.get_default visible src_h3 [] = rows_from rows src_h3 /\
  (In src_h3 towers -> Py.get visible src_h3 = Some (rows_from rows src_h3)).
Proof.
  intros Hne H. split; [exact H|].
  unfold fetch_visible_cells in H. destruct towers as [|t rest];
    [congruence|].
  pose proof (visibility_rows_group rows _ _ H src_h3) as Hg.
  assert (Hempty : Py.get_default
                     (@empty_lists (string * Q) (t :: rest)) src_h3 [] = []).
  { unfold Py.get_default. rewrite empty_lists_get.
    destruct (Py.mem src_h3 (t :: rest)); reflexivity. }
  rewrite Hempty in Hg. cbn [app] in Hg. split; [exact Hg|].
  intro Hin. unfold Py.get_default in Hg.
  destruct (Py.get visible src_h3) as [xs|] eqn:E; [now rewrite Hg|].
  exfalso. clear Hg Hempty.
  assert (Hkeys : forall rows visible0 visible,
             fold_left visibility_row rows (Some visible0) = Some visible ->
             Py.keys visible = Py.keys visible0).
  { clear. induction rows as [|[[s d] pl] rest IH];
      intros visible0 visible H.
    - now inversion H.
    - cbn [fold_left visibility_row] in H.
      pose proof (append_at_keys visible0 s (d, pl)) as H1.
      destruct (append_at visible0 s (d, pl)) as [visible1|];
        [|rewrite visibility_rows_failed in H; discriminate].
      destruct H1 as [_ Hk]. rewrite (IH _ _ H). exact Hk. }
  apply get_keys_None in E. apply E. rewrite (Hkeys _ _ _ H).
  now apply empty_lists_keys.
Qed.

Lemma fetch_visibility_groups_rows_witness :
  fetch_tower_visibility ["A"; "B"]
    [("A", "c1", 100%Q); ("B", "c2", 105%Q); ("A", "c2", 110%Q)]
  = Some [("A", [("c1", 100%Q); ("c2", 110%Q)]); ("B", [("c2", 105%Q)])] /\
  Py.get_default
    [("A", [("c1", 100%Q); ("c2", 110%Q)]); ("B", [("c2", 105%Q)])] "A" []
  = rows_from [("A", "c1", 100%Q); ("B", "c2", 105%Q); ("A", "c2", 110%Q)]
      "A" /\
  (In "A" ["A"; "B"] ->
   Py.get [("A", [("c1", 100%Q); ("c2", 110%Q)]); ("B", [("c2", 105%Q)])]
     "A"
   = Some (rows_from
             [("A", "c1", 100%Q); ("B", "c2", 105%Q); ("A", "c2", 110%Q)]
             "A")).
Proof.
  apply (fetch_visibility_groups_rows ["A"; "B"]
           [("A", "c1", 100%Q); ("B", "c2", 105%Q); ("A", "c2", 110%Q)]);
    [discriminate|reflexivity].
Defined.

(** ** SQL array literals *)

Lemma append_assoc (a b c : string) :
  ((a ++ b) ++ c)%string = (a ++ b ++ c)%string.
Proof.
  induction a as [|x a IH]; [reflexivity|].
  cbn [String.append]. now rewrite IH.
Qed.

(** A quoted value followed by the closing bracket reads back. *)
Lemma read_items_last (value rest : string) :
  read_items (escape_quotes value ++ String "'" (String "]" rest))%string
  = Some ([value], rest).
Proof.
  induction value as [|c value IH].
  - reflexivity.
  - cbn [escape_quotes]. destruct (Ascii.eqb c "'") eqn:E.
    + apply Ascii.eqb_eq in E. subst c.
      cbn [String.append read_items]. rewrite Ascii.eqb_refl, IH.
      reflexivity.
    + cbn [String.append read_items]. rewrite E, IH. reflexivity.
Qed.

(** A quoted value followed by a comma and a quote reads back, and the
    reading goes on behind that quote. *)
Lemma read_items_next (value rest : string) :
  read_items
    (escape_quotes value ++ String "'" (String "," (String "'" rest)))%string
  = match read_items rest with
    | Some (values, rest') => Some (value :: values, rest')
    | None => None
    end.
Proof.
  induction value as [|c value IH].
  - cbn [escape_quotes String.append read_items].
    rewrite Ascii.eqb_refl. cbn [Ascii.eqb Bool.eqb andb].
    destruct (read_items rest) as [[values rest']|]; reflexivity.
  - cbn [escape_quotes]. destruct (Ascii.eqb c "'") eqn:E.
    + apply Ascii.eqb_eq in E. subst c.
      cbn [String.append read_items]. rewrite Ascii.eqb_refl, IH.
      destruct (read_items rest) as [[values rest']|]; reflexivity.
    + cbn [String.append read_items]. rewrite E, IH.
      destruct (read_items rest) as [[values rest']|]; reflexivity.
Qed.

Lemma read_items_tail (values : list string) (rest : string) :
  forall value,
    read_items
      (escape_quotes value ++ String "'" (items_tail values rest))%string
    = Some (value :: values, rest).
Proof.
  induction values as [|value' values IH]; intro value; cbn [items_tail].
  - apply read_items_last.
  - now rewrite read_items_next, IH.
Qed.

Lemma join_cons (sep item item' : string) (items : list string) :
  join sep (item :: item' :: items)
  = (item ++ sep ++ join sep (item' :: items))%string.
Proof. reflexivity. Qed.

Lemma join_items_tail (values : list string) (rest : string) :
  forall value,
    (join ","
       (map (fun value => ("'" ++ value ++ "'")%string)
          (map escape_quotes (value :: values)))
     ++ String "]" rest)%string
    = String "'"
        (escape_quotes value ++ String "'" (items_tail values rest))%string.
Proof.
  induction values as [|value' values IH]; intro value.
  - cbn [map join items_tail String.append]. now rewrite append_assoc.
  - specialize (IH value'). cbn [map] in *.
    rewrite join_cons, !append_assoc, IH.
    cbn [String.append items_tail]. reflexivity.
Qed.

(** X26. The array literal reads back.  [build_h3_array_literal] writes
    its values so that reading the literal as SQL reads string
    constants (a doubled quote inside a constant is one quote) gives
    the values back, whatever characters they hold: no value can end
    its constant early. *)
Theorem build_h3_array_literal_reads_back (values : list string) :
  read_array (build_h3_array_literal values) = Some values.
Proof.
  destruct values as [|value values]; [reflexivity|].
  unfold build_h3_array_literal. cbv zeta.
  change "]::text[]" with (String "]" "::text[]").
  rewrite join_items_tail. unfold read_array.
  cbn [String.append strip_prefix Ascii.eqb Bool.eqb andb].
  rewrite read_items_tail. reflexivity.
Qed.

(** ** Marker files against database objects *)

Lemma stale_table_spec (existing_tables existing_extensions : list string)
  (marker : string) :
  stale_table existing_tables existing_extensions marker = false <->
  (marker = "postgis_extension" /\
   forall name, In name ["postgis"; "h3"; "hstore"; "pgrouting"] ->
                In name existing_extensions) \/
  (marker <> "postgis_extension" /\ In marker existing_tables).
Proof.
  unfold stale_table, extension_marker_map. cbn [Py.get].
  destruct (String.eqb_spec "postgis_extension" marker) as [<- | Hne].
  - rewrite negb_false_iff. unfold issubset. rewrite forallb_forall.
    split.
    + intro H. left. split; [reflexivity|].
      intros name Hin. apply mem_In. now apply H.
    + intros [[_ H] | [H _]]; [|congruence].
      intros name Hin. apply mem_In. now apply H.
  - rewrite negb_false_iff, mem_In. split.
    + intro H. right. split; [congruence|exact H].
    + intros [[H _] | [_ H]]; [congruence|exact H].
Qed.

Lemma stale_raw_spec (existing_tables : list string) (marker : string) :
  stale_raw existing_tables marker = false <->
  forall table_name, Py.get raw_table_map marker = Some table_name ->
                     In table_name existing_tables.
Proof.
  unfold stale_raw.
  assert (Hne : forall table_name,
             Py.get raw_table_map marker = Some table_name ->
             String.eqb table_name "" = false).
  { unfold raw_table_map. cbn [Py.get]. intros table_name.
    repeat match goal with
           | |- context [String.eqb ?a marker] =>
               destruct (String.eqb a marker)
           end; intro H; inversion H; reflexivity. }
  destruct (Py.get raw_table_map marker) as [table_name|].
  - rewrite (Hne table_name eq_refl), negb_false_iff, mem_In. split.
    + intros H t Ht. now inversion Ht; subst.
    + intro H. now apply H.
  - split; [intros _ t Ht; discriminate|reflexivity].
Qed.

Lemma filter_nil_iff {A : Type} (f : A -> bool) (l : list A) :
  filter f l = [] <-> forall x, In x l -> f x = false.
Proof.
  induction l as [|a l IH]; cbn [filter].
  - split; [intros _ x []|reflexivity].
  - destruct (f a) eqn:E.
    + split; [discriminate|]. intro H. specialize (H a (or_introl eq_refl)).
      congruence.
    + rewrite IH. split.
      * intros H x [<- | Hin]; [exact E|now apply H].
      * intros H x Hin. apply H. now right.
Qed.

(** X27. [check_markers] exits with 0 exactly when every marker has its
    database object: each table marker names an existing table (the
    marker [postgis_extension] instead asks for the four extensions),
    each function marker an existing function, each procedure marker
    that is no stage marker an existing procedure, and each raw marker
    listed in [raw_table_map] has its table.  Otherwise it exits
    with 1. *)
Theorem check_markers_exit_code
  (table_markers function_markers procedure_markers raw_markers : list string)
  (existing_tables existing_extensions existing_functions
     existing_procedures : list string) :
  let code := check_markers table_markers function_markers procedure_markers
                raw_markers existing_tables existing_extensions
                existing_functions existing_procedures in
  (code = 0%Z \/ code = 1%Z) /\
  (code = 0%Z <->
   (forall marker, In marker table_markers ->
      (marker = "postgis_extension" /\
       forall name, In name ["postgis"; "h3"; "hstore"; "pgrouting"] ->
                    In name existing_extensions) \/
      (marker <> "postgis_extension" /\ In marker existing_tables)) /\
   (forall marker, In marker function_markers ->
      In marker existing_functions) /\
   (forall marker, In marker procedure_markers ->
      In marker stage_markers \/ In marker existing_procedures) /\
   (forall marker table_name, In marker raw_markers ->
      Py.get raw_table_map marker = Some table_name ->
      In table_name existing_tables)).
Proof.
  intro code. subst code. unfold check_markers.
  set (stale := stale_markers _ _ _ _ _ _ _ _).
  assert (Hnil : stale = [] <->
            filter (stale_table existing_tables existing_extensions)
              table_markers = [] /\
            filter (fun marker => negb (Py.mem marker existing_functions))
              function_markers = [] /\
            filter (fun marker => negb (Py.mem marker existing_procedures))
              (procedure_candidates procedure_markers) = [] /\
            filter (stale_raw existing_tables) raw_markers = []).
  { unfold stale, stale_markers. split.
    - intro H. apply app_eq_nil in H. destruct H as [H1 H].
      apply app_eq_nil in H. destruct H as [H2 H].
      apply app_eq_nil in H. destruct H as [H3 H4].
      apply map_eq_nil in H1, H2, H3, H4. tauto.
    - intros (H1 & H2 & H3 & H4). now rewrite H1, H2, H3, H4. }
  split; [destruct stale; [now left|now right]|].
  transitivity (stale = []).
  { destruct stale; split; congruence. }
  rewrite Hnil, !filter_nil_iff.
  split.
  - intros (H1 & H2 & H3 & H4). split; [|split; [|split]].
    + intros marker Hin. apply stale_table_spec. now apply H1.
    + intros marker Hin. apply mem_In. apply negb_false_iff.
      now apply H2.
    + intros marker Hin.
      destruct (Py.mem marker stage_markers) eqn:E;
        [left; now apply mem_In|right].
      apply mem_In. apply negb_false_iff. apply H3.
      unfold procedure_candidates. apply filter_In. now rewrite E.
    + intros marker table_name Hin. now apply stale_raw_spec, H4.
  - intros (H1 & H2 & H3 & H4). split; [|split; [|split]].
    + intros marker Hin. apply stale_table_spec. now apply H1.
    + intros marker Hin. apply negb_false_iff, mem_In. now apply H2.
    + intros marker Hin. unfold procedure_candidates in Hin.
      apply filter_In in Hin. destruct Hin as [Hin Hstage].
      apply negb_true_iff, mem_not_In in Hstage.
      apply negb_false_iff, mem_In.
      destruct (H3 marker Hin) as [H | H]; [contradiction|exact H].
    + intros marker Hin. apply stale_raw_spec.
      intros table_name. now apply H4.
Qed.
